(** * kit-mcp: rate limiter, response cache and account-audit aggregator

    A shallow embedding of [src/utils/rate-limiter.ts], [src/utils/cache.ts]
    and [src/functions/account-audit.ts], with the properties the
    specification states about them, followed by the parts of
    [src/services/kit-api-client.ts] and [src/config/auth.ts] they work
    with and further properties of the code.

    Conventions.
    - JavaScript strings are [string], sequences of code units below 256
      (Latin-1); [toLowerCase] is the case mapping of that range.
    - Millisecond timestamps, identifiers and request counts are [Z].
    - The scores are JavaScript numbers; they are computed here over the
      rationals [Q] ([==] is equality of rationals).
    - A property that may be missing from an object ([undefined]) is an
      [option]; [x || d] and [x ?. f] are written out on options. *)

From Stdlib Require Import ZArith QArith Qminmax String Ascii List Bool Lia.
From Stdlib Require Import DecimalString Qpower Qround Lqa.
From stdpp Require Import base option list gmap strings sorting.

Local Open Scope string_scope.
Local Open Scope list_scope.
Local Open Scope Z_scope.

(** ** JavaScript string primitives *)

Module JsString.

(** [c.toLowerCase()] for one code unit: the capitals [A]..[Z] and the
    accented capitals 192..222 (but not the sign 215) are shifted by 32. *)
Definition lower_ascii (c : ascii) : ascii :=
  let n := nat_of_ascii c in
  if (Nat.leb 65 n && Nat.leb n 90)
     || (Nat.leb 192 n && Nat.leb n 222 && negb (Nat.eqb n 215))
  then ascii_of_nat (n + 32) else c.

(** [s.toLowerCase()] *)
Fixpoint toLowerCase (s : string) : string :=
  match s with
  | EmptyString => EmptyString
  | String c rest => String (lower_ascii c) (toLowerCase rest)
  end.

(** [s.startsWith(p)], the test [includes] makes at one position. *)
Fixpoint startsWith (p s : string) : bool :=
  match p, s with
  | EmptyString, _ => true
  | String _ _, EmptyString => false
  | String a p', String b s' => Ascii.eqb a b && startsWith p' s'
  end.

(** [s.includes(sub)]: [sub] occurs at some position of [s]. *)
Fixpoint includes (s sub : string) : bool :=
  startsWith sub s ||
  match s with
  | EmptyString => false
  | String _ rest => includes rest sub
  end.

(** The declarative reading of "contains": [sub] is a contiguous part. *)
Definition contains (s sub : string) : Prop :=
  exists pre post : string, s = pre +:+ sub +:+ post.

(** "contains, ignoring case" for an all-lowercase keyword. *)
Definition contains_ci (s kw : string) : Prop :=
  contains (toLowerCase s) kw.

End JsString.

(** ** Remote entities ([src/types/core.ts]) and responses *)

(** The outcome of one promise handed to [Promise.allSettled]. *)
Inductive Settled (A : Type) : Type :=
| Fulfilled (value : A)
| Rejected (reason : string).
Arguments Fulfilled {A} value.
Arguments Rejected {A} reason.

Record Tag := {
  tag_id : Z;
  tag_name : string;
  tag_created_at : string }.

Record Sequence := {
  seq_id : Z;
  seq_name : string;
  seq_created_at : string;
  seq_hold : bool;
  seq_repeat : bool }.

(** [conversion_rate] is optional in [Form]. *)
Record Form := {
  form_id : Z;
  form_name : string;
  form_conversion_rate : option Q }.

(** The audit guards [key] and [type] against being absent
    ([field.key && ...], [field.type || 'text']). *)
Record CustomField := {
  cf_id : Z;
  cf_name : string;
  cf_key : option string;
  cf_type : option string;
  cf_created_at : string }.

Record KitPagination := { total_count : option Q }.

(** Pages as the audit reads them: every property it reaches through
    [?.] or [||] may be absent. *)
Record SubscribersResponse := {
  subscribers : option (list Z);
  subscribers_pagination : option KitPagination }.

Record TagsResponse := { tags : option (list Tag) }.
Record SequencesResponse := { sequences : option (list Sequence) }.
Record FormsResponse := { forms : option (list Form) }.
Record CustomFieldsResponse := { custom_fields : option (list CustomField) }.

(** [getAccount] and [getEmailStats] answers are never inspected. *)
Inductive Opaque := opaque (payload : string).
Record GrowthStats := { growth_rate : option Q }.

(** ** JavaScript numbers and truthiness *)

(** [x || d] on a possibly absent number: [undefined] and [0] are falsy. *)
Definition num_or (x : option Q) (d : Q) : Q :=
  match x with
  | Some q => if Qeq_bool q 0 then d else q
  | None => d
  end.

(** [Math.min] and [Math.max] *)
Definition Math_min (a b : Q) : Q := if Qle_bool a b then a else b.
Definition Math_max (a b : Q) : Q := if Qle_bool a b then b else a.

(** [a < b] on numbers *)
Definition num_lt (a b : Q) : bool := negb (Qle_bool b a).

Definition inject_len {A} (l : list A) : Q := inject_Z (Z.of_nat (length l)).

(** ** Pure helpers of [AccountAuditFunction] *)

(** The two shapes of object that reach [calculateListHealthScore(stats)]:
    the literal built in [buildAccountSummary], and the pair
    [{ emailStats, growthStats }] passed by [generateRecommendations]. *)
Inductive StatsObject :=
| SubscriberCounts (total_subscribers active_subscribers
                    bounced_subscribers complained_subscribers : Q)
| StatsPair (emailStats : option Opaque) (growthStats : option GrowthStats).

(** [stats.<p>] for the numeric properties the score reads. *)
Definition stats_prop (stats : StatsObject) (p : string) : option Q :=
  match stats with
  | SubscriberCounts t a b c =>
      if String.eqb p "total_subscribers" then Some t
      else if String.eqb p "active_subscribers" then Some a
      else if String.eqb p "bounced_subscribers" then Some b
      else if String.eqb p "complained_subscribers" then Some c
      else None
  | StatsPair _ _ => None
  end.

Definition calculateListHealthScore (stats : StatsObject) : Q :=
  let total := num_or (stats_prop stats "total_subscribers") 1 in
  let active := num_or (stats_prop stats "active_subscribers") 0 in
  let bounced := num_or (stats_prop stats "bounced_subscribers") 0 in
  let complained := num_or (stats_prop stats "complained_subscribers") 0 in
  let healthRatio := (active / total)%Q in
  let negativeRatio := ((bounced + complained) / total)%Q in
  Math_max 0 (Math_min 100 (healthRatio * 100 - negativeRatio * 50)%Q).

(** The health score as the specification writes it:
    [clamp(0, 100, 100 * active/total - 50 * (bounced + complained)/total)],
    a zero [total] being replaced by 1. *)
Definition health_score_spec (total active bounced complained : Q) : Q :=
  let total := if Qeq_bool total 0 then 1%Q else total in
  Qmax 0 (Qmin 100 (100 * (active / total)
                    - 50 * ((bounced + complained) / total)))%Q.

Definition behavioralKeywords : list string :=
  ["clicked"; "opened"; "purchased"; "engaged"; "visited"].

Definition assessBehavioralTracking (tags : list Tag) : string :=
  let behavioralTags :=
    List.filter (fun tag =>
      existsb (fun keyword =>
        JsString.includes (JsString.toLowerCase (tag_name tag)) keyword)
        behavioralKeywords) tags in
  if Nat.leb 5 (length behavioralTags) then "Advanced"
  else if Nat.leb 2 (length behavioralTags) then "Basic"
  else "None".

Definition calculateOptimizationScore (sequence : Sequence) : Z :=
  let score := 50 in
  let score := if JsString.includes (seq_name sequence) "welcome"
               then score + 10 else score in
  let score := if JsString.includes (seq_name sequence) "nurture"
               then score + 10 else score in
  let score := if negb (seq_hold sequence) then score + 20 else score in
  let score := if seq_repeat sequence then score + 10 else score in
  Z.min 100 score.

(** [form.conversion_rate ? Math.min(100, form.conversion_rate * 10) : 50] *)
Definition calculateSubscriberQualityScore (form : Form) : Q :=
  match form_conversion_rate form with
  | Some r => if Qeq_bool r 0 then 50 else Math_min 100 (r * 10)%Q
  | None => 50
  end.

Definition calculateDataQualityScore (field : CustomField) : Z :=
  let score := 50 in
  let score := if Nat.ltb 3 (String.length (cf_name field))
               then score + 20 else score in
  let score := match cf_key field with
               | Some k => if Nat.ltb 0 (String.length k)
                           then score + 20 else score
               | None => score
               end in
  let score := match cf_type field with
               | Some t => if String.eqb t "text" then score + 10 else score
               | None => score
               end in
  Z.min 100 score.

Definition assessPersonalizationOpportunity (field : CustomField) : string :=
  let fieldName := JsString.toLowerCase (cf_name field) in
  if JsString.includes fieldName "name"
  then "High - Use for email personalization"
  else if JsString.includes fieldName "location"
          || JsString.includes fieldName "state"
  then "Medium - Geographic targeting"
  else if JsString.includes fieldName "specialty"
          || JsString.includes fieldName "industry"
  then "High - Professional/industry segmentation"
  else "Low - General data field".

(** The classification as the specification words it: the keyword groups
    in order of precedence, each a case-insensitive substring test. *)
Inductive personalization_spec (fieldName : string) : string -> Prop :=
| ps_name :
    JsString.contains_ci fieldName "name" ->
    personalization_spec fieldName "High - Use for email personalization"
| ps_geographic :
    ~ JsString.contains_ci fieldName "name" ->
    JsString.contains_ci fieldName "location"
    \/ JsString.contains_ci fieldName "state" ->
    personalization_spec fieldName "Medium - Geographic targeting"
| ps_professional :
    ~ JsString.contains_ci fieldName "name" ->
    ~ JsString.contains_ci fieldName "location" ->
    ~ JsString.contains_ci fieldName "state" ->
    JsString.contains_ci fieldName "specialty"
    \/ JsString.contains_ci fieldName "industry" ->
    personalization_spec fieldName "High - Professional/industry segmentation"
| ps_low :
    ~ JsString.contains_ci fieldName "name" ->
    ~ JsString.contains_ci fieldName "location" ->
    ~ JsString.contains_ci fieldName "state" ->
    ~ JsString.contains_ci fieldName "specialty" ->
    ~ JsString.contains_ci fieldName "industry" ->
    personalization_spec fieldName "Low - General data field".

Definition field_named (name : string) : CustomField :=
  {| cf_id := 1; cf_name := name; cf_key := None; cf_type := None;
     cf_created_at := "" |}.

(** The sequence of the specification's example. *)
Definition welcome_series : Sequence :=
  {| seq_id := 1; seq_name := "Welcome Series";
     seq_created_at := "2024-01-01T00:00:00Z";
     seq_hold := false; seq_repeat := false |}.

(** ** Rate limiter ([src/utils/rate-limiter.ts]) *)

Module RateLimiter.

Record RequestRecord := { timestamp : Z; count : Z }.

Record RateLimitConfig := {
  requestsPerMinute : Z;
  burstLimit : Z;
  retryDelay : Z;
  maxRetryDelay : Z }.

(** The object state: [this.requests] and [this.config]. *)
Record t := { requests : list RequestRecord; config : RateLimitConfig }.

(** [new RateLimiter(config)] *)
Definition new (cfg : RateLimitConfig) : t :=
  {| requests := []; config := cfg |}.

Definition set_requests (rl : t) (rs : list RequestRecord) : t :=
  {| requests := rs; config := config rl |}.

(** [this.requests.filter(req => req.timestamp > oneMinuteAgo)] *)
Definition purge (now : Z) (rs : list RequestRecord) : list RequestRecord :=
  let oneMinuteAgo := now - 60000 in
  List.filter (fun req => Z.ltb oneMinuteAgo (timestamp req)) rs.

(** [this.requests.reduce((sum, req) => sum + req.count, 0)] *)
Definition total (rs : list RequestRecord) : Z :=
  fold_left (fun sum req => sum + count req) rs 0.

(** [canMakeRequest()], with [Date.now()] passed as [now]: the answer
    and the limiter after the purge. *)
Definition canMakeRequest (now : Z) (rl : t) : bool * t :=
  let rl' := set_requests rl (purge now (requests rl)) in
  let requestsInLastMinute := total (requests rl') in
  (Z.ltb requestsInLastMinute (requestsPerMinute (config rl')), rl').

(** [recordRequest(count)]; the default argument is [1]. *)
Definition recordRequest (now : Z) (cnt : Z) (rl : t) : t :=
  set_requests rl (requests rl ++ [{| timestamp := now; count := cnt |}]).

Record Status := {
  requestsInLastMinute : Z;
  remainingRequests : Z;
  resetTime : Z }.

Definition getStatus (now : Z) (rl : t) : Status * t :=
  let rl' := set_requests rl (purge now (requests rl)) in
  let inLastMinute := total (requests rl') in
  let remaining := Z.max 0 (requestsPerMinute (config rl') - inLastMinute) in
  let reset := match requests rl' with
               | oldestRequest :: _ => timestamp oldestRequest + 60000
               | [] => now
               end in
  ({| requestsInLastMinute := inLastMinute;
      remainingRequests := remaining;
      resetTime := reset |}, rl').

(** The delay [waitForAvailability] asks for when it is not admitted;
    [rl] is the limiter after [canMakeRequest] has purged it. *)
Definition waitTime (now : Z) (rl : t) : Z :=
  match requests rl with
  | oldestRequest :: _ => 60000 - (now - timestamp oldestRequest)
  | [] => 1000
  end.

(** [waitForAvailability()]: the recursion is unrolled [fuel] times.
    A timer asked for [ms] fires after [max 0 ms] plus a lateness that
    the event loop decides ([late i] for the [i]-th sleep).  The result
    tells whether the request was admitted, and gives the clock and
    the limiter at that point. *)
Fixpoint waitForAvailability (fuel : nat) (late : nat -> N)
         (now : Z) (rl : t) : bool * Z * t :=
  let '(ok, rl1) := canMakeRequest now rl in
  if ok then (true, now, recordRequest now 1 rl1)
  else
    match fuel with
    | O => (false, now, rl1)
    | S fuel' =>
        let ms := Z.min (waitTime now rl1) (maxRetryDelay (config rl1)) in
        let now' := now + Z.max 0 ms + Z.of_N (late fuel') in
        waitForAvailability fuel' late now' rl1
    end.

(** The calls a client can make on the limiter. *)
Inductive Op :=
| OpCanMakeRequest
| OpRecordRequest (cnt : Z)
| OpGetStatus
| OpWaitForAvailability (fuel : nat) (late : nat -> N).

(** One call, made when the clock reads [now]; the clock afterwards. *)
Definition step (op : Op) (now : Z) (rl : t) : Z * t :=
  match op with
  | OpCanMakeRequest => (now, snd (canMakeRequest now rl))
  | OpRecordRequest cnt => (now, recordRequest now cnt rl)
  | OpGetStatus => (now, snd (getStatus now rl))
  | OpWaitForAvailability fuel late =>
      let '(_, now', rl') := waitForAvailability fuel late now rl in
      (now', rl')
  end.

(** A run: each call happens [elapsed] milliseconds after the previous
    one returned; the clock never goes back. *)
Fixpoint run (ops : list (N * Op)) (now : Z) (rl : t) : Z * t :=
  match ops with
  | [] => (now, rl)
  | (elapsed, op) :: rest =>
      let '(now', rl') := step op (now + Z.of_N elapsed) rl in
      run rest now' rl'
  end.

(** A history of [recordRequest(count)] calls, each with the clock
    reading at the call and the number of requests it records. *)
Definition replay (cfg : RateLimitConfig) (history : list (Z * N)) : t :=
  fold_left (fun rl call => recordRequest (fst call) (Z.of_N (snd call)) rl)
            history (new cfg).

(** The specification's reading of the admission test: the counts of
    the entries less than 60 seconds old at [now], summed. *)
Definition trailing_sum (now : Z) (rs : list RequestRecord) : Z :=
  fold_right (fun r acc =>
                if Z.ltb (now - timestamp r) 60000 then count r + acc else acc)
             0 rs.

Definition entry (call : Z * N) : RequestRecord :=
  {| timestamp := fst call; count := Z.of_N (snd call) |}.

(** The latest clock reading of a history (or [t0] if that is later). *)
Definition newest (t0 : Z) (history : list (Z * N)) : Z :=
  fold_right (fun call m => Z.max (fst call) m) t0 history.

(** [a] is stamped no later than [b]. *)
Definition older (a b : RequestRecord) : Prop := timestamp a <= timestamp b.

(** The invariant carried through a run: the window is sorted (in the
    strong sense: every entry is stamped no later than every entry after
    it) and no entry is stamped after the current clock reading. *)
Definition window_inv (now : Z) (rs : list RequestRecord) : Prop :=
  StronglySorted older rs /\ Forall (fun r => timestamp r <= now) rs.

(** The window is ordered by non-decreasing timestamp. *)
Definition ordered (rs : list RequestRecord) : Prop :=
  Sorted older rs.

(** The first entry is an oldest one. *)
Definition head_is_oldest (rs : list RequestRecord) : Prop :=
  match rs with
  | [] => True
  | oldest :: _ => Forall (fun r => timestamp oldest <= timestamp r) rs
  end.

End RateLimiter.


(** ** JSON values and [JSON.stringify] *)

(** The values a parameter object can hold.  Numbers are the integers
    JavaScript prints in plain decimal; an object lists its properties
    in the order they were inserted. *)
#[warnings="-register-all"]
Inductive Json :=
| JUndefined
| JNull
| JBool (b : bool)
| JNumber (n : Z)
| JString (s : string)
| JArray (items : list Json)
| JObject (props : list (string * Json)).

Module Json.

Definition hex_digit (n : nat) : ascii :=
  match String.get n "0123456789abcdef" with
  | Some c => c
  | None => "0"%char
  end.

(** One code unit inside a JSON string literal. *)
Definition escape (c : ascii) : string :=
  let n := nat_of_ascii c in
  if Nat.eqb n 34 then "\" +:+ String c ""
  else if Nat.eqb n 92 then "\\"
  else if Nat.eqb n 8 then "\b"
  else if Nat.eqb n 12 then "\f"
  else if Nat.eqb n 10 then "\n"
  else if Nat.eqb n 13 then "\r"
  else if Nat.eqb n 9 then "\t"
  else if Nat.ltb n 32
       then "\u00" +:+ String (hex_digit (n / 16)) (String (hex_digit (n mod 16)) "")
  else String c "".

Fixpoint escape_all (s : string) : string :=
  match s with
  | EmptyString => EmptyString
  | String c rest => escape c +:+ escape_all rest
  end.

Definition quote (s : string) : string :=
  String (ascii_of_nat 34) (escape_all s) +:+ String (ascii_of_nat 34) "".

Definition number_to_string (n : Z) : string :=
  NilZero.string_of_int (Z.to_int n).

(** [JSON.stringify(v)]; [None] is the result [undefined].  In an array
    [undefined] is written [null]; in an object the property is left out. *)
Fixpoint stringify (v : Json) : option string :=
  match v with
  | JUndefined => None
  | JNull => Some "null"
  | JBool b => Some (if b then "true" else "false")
  | JNumber n => Some (number_to_string n)
  | JString s => Some (quote s)
  | JArray items =>
      Some ("[" +:+ String.concat ","
                     (List.map (fun x => match stringify x with
                                         | Some s => s
                                         | None => "null"
                                         end) items)
                +:+ "]")
  | JObject props =>
      let fix members (ps : list (string * Json)) : list string :=
        match ps with
        | [] => []
        | (k, x) :: rest =>
            match stringify x with
            | Some s => (quote k +:+ ":" +:+ s) :: members rest
            | None => members rest
            end
        end in
      Some ("{" +:+ String.concat "," (members props) +:+ "}")
  end.

(** [`${JSON.stringify(v)}`] *)
Definition interpolate (v : Json) : string :=
  match stringify v with
  | Some s => s
  | None => "undefined"
  end.

End Json.

(** A parameter object ([Record<string, any>]): its own properties in
    insertion order.  Property names are distinct in a well-formed one. *)
Definition Params := list (string * Json).

Definition well_formed (params : Params) : Prop := NoDup (List.map fst params).

(** [Object.keys(params)] *)
Definition Object_keys (params : Params) : list string := List.map fst params.

(** [params[key]] *)
Fixpoint get_prop (params : Params) (key : string) : Json :=
  match params with
  | [] => JUndefined
  | (k, v) :: rest => if String.eqb k key then v else get_prop rest key
  end.

(** [keys.sort()]: the default order compares code units. *)
Definition Array_sort (keys : list string) : list string :=
  merge_sort String.le keys.

(** [ApiCache.generateKey(prefix, params)] *)
Definition generateKey (prefix : string) (params : Params) : string :=
  let sortedParams :=
    String.concat "|"
      (List.map (fun key => key +:+ ":" +:+ Json.interpolate (get_prop params key))
                (Array_sort (Object_keys params))) in
  if String.eqb sortedParams "" then prefix
  else prefix +:+ ":" +:+ sortedParams.

(** ** The key/value store behind the cache *)

(** What a synchronous call does: return a value or throw. *)
Inductive Outcome (A : Type) : Type :=
| Returned (value : A)
| Thrown (message : string).
Arguments Returned {A} value.
Arguments Thrown {A} message.

(** The [node-cache] library that [ApiCache] wraps is a dependency named
    in [package.json]; it is not under [src/].  [ApiCache] creates it
    with [stdTTL], [checkperiod], [maxKeys: config.maxSize] and
    [useClones: false], and calls its [get] and [set]. *)

Module NodeCache.

(** An entry: the value and the instant it expires ([0]: never). *)
Record Wrapped (V : Type) := { t : Z; v : V }.
Arguments t {V} _.
Arguments v {V} _.

Record Options := { stdTTL : Z; checkperiod : Z; maxKeys : Z }.

(** Modelled from the spec: the store of the [node-cache] library.
    Section 3: an entry is a key, a value and an expiry instant; the
    keys held are capped at a maximum count ([maxKeys]). *)
Record Store (V : Type) := {
  data : gmap string (Wrapped V);
  options : Options }.
Arguments data {V} _.
Arguments options {V} _.

Section Operations.
Context {V : Type}.

Definition new (opts : Options) : Store V :=
  {| data := ∅; options := opts |}.

Definition with_data (st : Store V) (d : gmap string (Wrapped V)) : Store V :=
  {| data := d; options := options st |}.

(** Modelled from the spec: the visibility of an entry of [node-cache].
    Section 3: "an entry is visible to reads only while
    [now < expiresAt]"; an entry stored with a time to live of [0]
    never expires. *)
Definition live (now : Z) (w : Wrapped V) : bool :=
  Z.eqb (t w) 0 || Z.ltb now (t w).

(** Modelled from the spec: [get(key)] of [node-cache].  Section 3:
    "expiry is enforced ... lazily (on read)": an expired entry is
    deleted and reads as absent. *)
Definition get (now : Z) (key : string) (st : Store V) : option V * Store V :=
  match data st !! key with
  | Some w => if live now w then (Some (v w), st)
              else (None, with_data st (delete key (data st)))
  | None => (None, st)
  end.

(** The number of keys held, expired ones not yet removed included. *)
Definition keys_held (st : Store V) : Z := Z.of_nat (size (data st)).

(** The cap is reached ([maxKeys = -1] means no cap). *)
Definition full (st : Store V) : bool :=
  Z.ltb (-1) (maxKeys (options st))
  && Z.leb (maxKeys (options st)) (keys_held st).

Definition wrap (now : Z) (value : V) (ttl : Z) : Wrapped V :=
  {| t := if Z.eqb ttl 0 then 0 else now + ttl * 1000; v := value |}.

Definition ECACHEFULL : string := "Cache max keys amount exceeded".

(** Modelled from the spec: [set(key, value, ttl)] of [node-cache].
    Section 3: "entries are capped at a maximum count"; of the two
    policies the specification allows at the cap, the library's is to
    reject the insertion: it throws its "cache full" error and stores
    nothing.  Below the cap the entry is stored, expiring [ttl] seconds
    later, and [true] is returned. *)
Definition set (now : Z) (key : string) (value : V) (ttl : Z) (st : Store V)
  : Outcome (bool * Store V) :=
  if full st then Thrown ECACHEFULL
  else Returned (true, with_data st (<[key := wrap now value ttl]> (data st))).

(** Modelled from the spec: the periodic check of [node-cache].
    Section 3: "expiry is enforced ... proactively (periodic sweep)":
    every expired entry is removed. *)
Definition sweep (now : Z) (st : Store V) : Store V :=
  with_data st (filter (fun kw => live now (snd kw) = true) (data st)).

End Operations.
End NodeCache.

(** ** Response cache ([src/utils/cache.ts]) *)

Module ApiCache.

Record CacheConfig := {
  enabled : bool;
  ttl : Z;
  maxSize : Z;
  checkPeriod : Z }.

(** The object state: [this.cache], [this.config] and [this.stats]. *)
Record t (V : Type) := {
  cache : NodeCache.Store V;
  config : CacheConfig;
  hits : nat;
  misses : nat }.
Arguments cache {V} _.
Arguments config {V} _.
Arguments hits {V} _.
Arguments misses {V} _.

Inductive Strategy := short | medium | long | static.

Definition ttlMap (strategy : Strategy) : Z :=
  match strategy with
  | short => 300
  | medium => 900
  | long => 1800
  | static => 86400
  end.

Section Methods.
Context {V : Type}.

(** [new ApiCache(config)], the defaults already filled in. *)
Definition new (cfg : CacheConfig) : t V :=
  {| cache := NodeCache.new {| NodeCache.stdTTL := ttl cfg;
                               NodeCache.checkperiod := checkPeriod cfg;
                               NodeCache.maxKeys := maxSize cfg |};
     config := cfg; hits := 0; misses := 0 |}.

Definition get (now : Z) (key : string) (c : t V) : option V * t V :=
  if negb (enabled (config c)) then (None, c)
  else
    let '(value, store) := NodeCache.get now key (cache c) in
    match value with
    | Some x => (Some x, {| cache := store; config := config c;
                            hits := S (hits c); misses := misses c |})
    | None => (None, {| cache := store; config := config c;
                        hits := hits c; misses := S (misses c) |})
    end.

(** [ttl || this.config.ttl] *)
Definition ttl_or_default (ttl' : option Z) (c : t V) : Z :=
  match ttl' with
  | Some n => if Z.eqb n 0 then ttl (config c) else n
  | None => ttl (config c)
  end.

Definition set (now : Z) (key : string) (value : V) (ttl' : option Z) (c : t V)
  : Outcome (bool * t V) :=
  if negb (enabled (config c)) then Returned (false, c)
  else
    match NodeCache.set now key value (ttl_or_default ttl' c) (cache c) with
    | Returned (success, store) =>
        Returned (success, {| cache := store; config := config c;
                              hits := hits c; misses := misses c |})
    | Thrown e => Thrown e
    end.

Definition setWithStrategy (now : Z) (key : string) (value : V)
           (strategy : Strategy) (c : t V) : Outcome (bool * t V) :=
  set now key value (Some (ttlMap strategy)) c.

(** The periodic check of the store, when its timer fires. *)
Definition sweep (now : Z) (c : t V) : t V :=
  {| cache := NodeCache.sweep now (cache c); config := config c;
     hits := hits c; misses := misses c |}.

(** A valid cached value: present and unexpired at [now]. *)
Definition valid (now : Z) (key : string) (c : t V) : option V :=
  match NodeCache.data (cache c) !! key with
  | Some w => if NodeCache.live now w then Some (NodeCache.v w) else None
  | None => None
  end.

(** What [getOrSet] runs in: the clock, the cache, and the number of
    times the fetch function has been invoked. *)
Record Run := { clock : Z; store : t V; invocations : nat }.

(** A fetch function: it settles with a value or a reason, and may take
    time and touch the cache on the way. *)
Definition Fetch : Type := Z -> t V -> Settled V * Z * t V.

Definition getOrSet (key : string) (fetchFunction : Fetch) (ttl' : option Z)
           (r : Run) : Settled V * Run :=
  let '(cached, c1) := get (clock r) key (store r) in
  match cached with
  | Some x => (Fulfilled x, {| clock := clock r; store := c1;
                               invocations := invocations r |})
  | None =>
      let '(settled, now2, c2) := fetchFunction (clock r) c1 in
      let n := S (invocations r) in
      match settled with
      | Rejected reason =>
          (Rejected reason, {| clock := now2; store := c2; invocations := n |})
      | Fulfilled value =>
          match set now2 key value ttl' c2 with
          | Returned (_, c3) =>
              (Fulfilled value,
               {| clock := now2; store := c3; invocations := n |})
          | Thrown e =>
              (Rejected e, {| clock := now2; store := c2; invocations := n |})
          end
      end
  end.

End Methods.
End ApiCache.

(** ** The audit report ([src/types/analysis.ts]) *)

Record AccountSummary := {
  total_subscribers : Q;
  active_subscribers : Q;
  unsubscribed_count : Q;
  growth_rate_30d : Q;
  list_health_score : Q }.

Record EngagementMetrics := {
  open_rate : Q;
  click_rate : Q;
  unsubscribe_rate : Q;
  complaint_rate : Q;
  engagement_score : Q }.

Record TagUsage := {
  tu_tag : Tag;
  tu_subscriber_count : Q;
  tu_engagement_metrics : EngagementMetrics;
  tu_usage_frequency : Q }.

Record SegmentationAnalysis := {
  total_tags : Z;
  active_segments : list Tag;
  tag_usage_distribution : list TagUsage;
  behavioral_tracking_status : string }.

Record AutomationPerformance := {
  ap_automation_id : Z;
  ap_triggers_fired : Q;
  ap_subscribers_entered : Q;
  ap_completion_rate : Q;
  ap_goal_completion_rate : Q;
  ap_avg_time_to_complete : Q }.

Record Automation := {
  au_id : Z;
  au_name : string;
  au_status : string;
  au_trigger_type : string;
  au_subscriber_count : Q;
  au_conversion_rate : Q;
  au_performance_data : AutomationPerformance }.

Record AutomationMetrics := {
  am_automation : Automation;
  am_performance : AutomationPerformance;
  optimization_score : Z }.

Record AutomationOverview := {
  total_sequences : Z;
  active_sequences : list Sequence;
  total_automations : Z;
  active_automations : list Sequence;
  automation_performance : list AutomationMetrics }.

Record ConversionData := {
  cd_form_id : Z;
  cd_conversion_rate : Q;
  subscriber_quality_score : Q }.

Record LeadCaptureAnalysis := {
  total_forms : Z;
  form_performance : list Opaque;
  conversion_rates : list ConversionData }.

Record CustomFieldAnalysis := {
  cfa_field : CustomField;
  usage_percentage : Q;
  data_quality_score : Z;
  personalization_opportunity : string }.

Record AccountAudit := {
  account_summary : AccountSummary;
  segmentation_analysis : SegmentationAnalysis;
  automation_overview : AutomationOverview;
  lead_capture_analysis : LeadCaptureAnalysis;
  custom_fields_usage : list CustomFieldAnalysis;
  strategic_recommendations : list string }.

(** ** The remote client and the world [execute] runs in *)

(** The client methods the audit calls, with the arguments that matter. *)
Inductive ApiCall :=
| GetAccount
| GetEmailStats
| GetGrowthStats
| GetSubscribers
| GetTags
| GetSequences
| GetForms
| GetCustomFields
| GetTagSubscribers (tagId : Z)
| GetSequenceSubscribers (sequenceId : Z)
| GetFormSubscribers (formId : Z).

(** How each remote read settles.  The first argument is the number of
    remote calls made before it, so that the same read may settle
    differently from one time to the next. *)
Record KitApiClient := {
  getAccount : nat -> Settled Opaque;
  getEmailStats : nat -> Settled Opaque;
  getGrowthStats : nat -> Settled GrowthStats;
  getSubscribers : nat -> Settled SubscribersResponse;
  getTags : nat -> Settled TagsResponse;
  getSequences : nat -> Settled SequencesResponse;
  getForms : nat -> Settled FormsResponse;
  getCustomFields : nat -> Settled CustomFieldsResponse;
  getTagSubscribers : nat -> Z -> Settled SubscribersResponse;
  getSequenceSubscribers : nat -> Z -> Settled SubscribersResponse;
  getFormSubscribers : nat -> Z -> Settled SubscribersResponse }.

(** Everything outside the audit: the remote client, how long the
    [n]-th remote call takes and whether the store's periodic check
    fires meanwhile, and the [Date] functions the audit uses
    ([Date_parse]: milliseconds, [None] for an invalid date;
    [isoDaysAgo now days]: the ISO string of [getDateDaysAgo(days)]). *)
Record Environment := {
  apiClient : KitApiClient;
  latency : nat -> N;
  sweeps : nat -> bool;
  Date_parse : string -> option Z;
  isoDaysAgo : Z -> Z -> string }.

(** The mutable world: the clock, the shared cache, and the remote calls
    made so far. *)
Record World := {
  now : Z;
  cache : ApiCache.t AccountAudit;
  calls : list ApiCall }.

(** A remote call is made and awaited: it is recorded, time passes, and
    the store's periodic check may have fired. *)
Definition await_call (env : Environment) (c : ApiCall) (w : World) : World :=
  let n := length (calls w) in
  let now' := now w + Z.of_N (latency env n) in
  {| now := now';
     cache := if sweeps env n then ApiCache.sweep now' (cache w) else cache w;
     calls := calls w ++ [c] |}.

(** The position the next remote call takes. *)
Definition next (w : World) : nat := length (calls w).

(** [result.status === 'fulfilled' ? result.value : null] *)
Definition getResult {A} (result : Settled A) : option A :=
  match result with
  | Fulfilled value => Some value
  | Rejected _ => None
  end.

(** JavaScript truthiness of a parameter value. *)
Definition truthy (x : Json) : bool :=
  match x with
  | JUndefined | JNull => false
  | JBool b => b
  | JNumber n => negb (Z.eqb n 0)
  | JString s => negb (String.eqb s "")
  | JArray _ | JObject _ => true
  end.

(** ** The aggregator ([src/functions/account-audit.ts]) *)

Section AccountAuditFunction.
Variable env : Environment.

(** [subscribers.pagination?.total_count || 0] *)
Definition page_total (subscribers : SubscribersResponse) : Q :=
  num_or (subscribers_pagination subscribers ≫= total_count) 0.

(** [Math.floor((now - date) / 86400000)], [None] for [NaN]. *)
Definition getDaysSince (now : Z) (dateString : string) : option Z :=
  match Date_parse env dateString with
  | Some date => Some ((now - date) / (1000 * 60 * 60 * 24))
  | None => None
  end.

Definition calculateTagUsageFrequency (now : Z) (tag : Tag) : Q :=
  match getDaysSince now (tag_created_at tag) with
  | Some daysSinceCreation =>
      if Z.ltb 0 daysSinceCreation then (1 / inject_Z daysSinceCreation)%Q
      else 1%Q
  | None => 1%Q
  end.

Definition no_engagement : EngagementMetrics :=
  {| open_rate := 0; click_rate := 0; unsubscribe_rate := 0;
     complaint_rate := 0; engagement_score := 0 |}.

Definition buildAccountSummary (emailStats : option Opaque)
           (growthStats : option GrowthStats) (totalSubscribers : Q)
  : AccountSummary :=
  let activeSubscribers := totalSubscribers in
  let unsubscribedCount := 0%Q in
  let listHealthScore :=
    calculateListHealthScore
      (SubscriberCounts totalSubscribers activeSubscribers 0 0) in
  let growthRate30d := num_or (growthStats ≫= growth_rate) 0 in
  {| total_subscribers := totalSubscribers;
     active_subscribers := activeSubscribers;
     unsubscribed_count := unsubscribedCount;
     growth_rate_30d := growthRate30d;
     list_health_score := listHealthScore |}.

(** The loop of [buildSegmentationAnalysis]: one remote call per tag,
    a tag whose call fails being skipped. *)
Fixpoint analyzeTags (tags : list Tag) (acc : list TagUsage) (w : World)
  : list TagUsage * World :=
  match tags with
  | [] => (acc, w)
  | tag :: rest =>
      let settled := getTagSubscribers (apiClient env) (next w) (tag_id tag) in
      let w1 := await_call env (GetTagSubscribers (tag_id tag)) w in
      match settled with
      | Fulfilled subscribers =>
          let usageData :=
            {| tu_tag := tag;
               tu_subscriber_count := page_total subscribers;
               tu_engagement_metrics := no_engagement;
               tu_usage_frequency := calculateTagUsageFrequency (now w1) tag |} in
          analyzeTags rest (acc ++ [usageData]) w1
      | Rejected _ => analyzeTags rest acc w1
      end
  end.

Definition buildSegmentationAnalysis (tagsResponse : TagsResponse) (w : World)
  : SegmentationAnalysis * World :=
  let tags := default [] (tags tagsResponse) in
  let '(tagUsageDistribution, w1) := analyzeTags (take 20 tags) [] w in
  ({| total_tags := Z.of_nat (length tags);
      active_segments :=
        List.filter (fun tag => String.ltb (isoDaysAgo env (now w1) 90)
                                           (tag_created_at tag)) tags;
      tag_usage_distribution := tagUsageDistribution;
      behavioral_tracking_status := assessBehavioralTracking tags |}, w1).

Definition sequence_performance (sequence : Sequence) (entered : Q)
  : AutomationPerformance :=
  {| ap_automation_id := seq_id sequence;
     ap_triggers_fired := 0;
     ap_subscribers_entered := entered;
     ap_completion_rate := 0;
     ap_goal_completion_rate := 0;
     ap_avg_time_to_complete := 0 |}.

Fixpoint analyzeSequences (seqs : list Sequence) (acc : list AutomationMetrics)
         (w : World) : list AutomationMetrics * World :=
  match seqs with
  | [] => (acc, w)
  | sequence :: rest =>
      let settled :=
        getSequenceSubscribers (apiClient env) (next w) (seq_id sequence) in
      let w1 := await_call env (GetSequenceSubscribers (seq_id sequence)) w in
      match settled with
      | Fulfilled subscribers =>
          let metrics :=
            {| am_automation :=
                 {| au_id := seq_id sequence;
                    au_name := seq_name sequence;
                    au_status := if seq_hold sequence then "archived"
                                 else "active";
                    au_trigger_type := "manual";
                    au_subscriber_count := page_total subscribers;
                    au_conversion_rate := 0;
                    au_performance_data :=
                      sequence_performance sequence (page_total subscribers) |};
               am_performance :=
                 sequence_performance sequence (page_total subscribers);
               optimization_score := calculateOptimizationScore sequence |} in
          analyzeSequences rest (acc ++ [metrics]) w1
      | Rejected _ => analyzeSequences rest acc w1
      end
  end.

Definition buildAutomationOverview (sequencesResponse : SequencesResponse)
           (w : World) : AutomationOverview * World :=
  let sequences := default [] (sequences sequencesResponse) in
  let activeSequences := List.filter (fun seq => negb (seq_hold seq)) sequences in
  let '(automationPerformance, w1) :=
    analyzeSequences (take 10 activeSequences) [] w in
  ({| total_sequences := Z.of_nat (length sequences);
      active_sequences := activeSequences;
      total_automations := Z.of_nat (length sequences);
      active_automations := activeSequences;
      automation_performance := automationPerformance |}, w1).

Fixpoint analyzeForms (fs : list Form) (acc : list ConversionData) (w : World)
  : list ConversionData * World :=
  match fs with
  | [] => (acc, w)
  | form :: rest =>
      let settled := getFormSubscribers (apiClient env) (next w) (form_id form) in
      let w1 := await_call env (GetFormSubscribers (form_id form)) w in
      match settled with
      | Fulfilled _ =>
          let conversion :=
            {| cd_form_id := form_id form;
               cd_conversion_rate := num_or (form_conversion_rate form) 0;
               subscriber_quality_score :=
                 calculateSubscriberQualityScore form |} in
          analyzeForms rest (acc ++ [conversion]) w1
      | Rejected _ => analyzeForms rest acc w1
      end
  end.

Definition buildLeadCaptureAnalysis (formsResponse : FormsResponse) (w : World)
  : LeadCaptureAnalysis * World :=
  let forms := default [] (forms formsResponse) in
  let '(conversionRates, w1) := analyzeForms (take 10 forms) [] w in
  ({| total_forms := Z.of_nat (length forms);
      form_performance := [];
      conversion_rates := conversionRates |}, w1).

(** [field.type || 'text'] *)
Definition type_or_text (type : option string) : string :=
  match type with
  | Some s => if String.eqb s "" then "text" else s
  | None => "text"
  end.

Definition buildCustomFieldsAnalysis (customFields : list CustomField)
  : list CustomFieldAnalysis :=
  List.map (fun field =>
    {| cfa_field := {| cf_id := cf_id field;
                       cf_name := cf_name field;
                       cf_key := cf_key field;
                       cf_type := Some (type_or_text (cf_type field));
                       cf_created_at := cf_created_at field |};
       usage_percentage := 0;
       data_quality_score := calculateDataQualityScore field;
       personalization_opportunity := assessPersonalizationOpportunity field |})
    customFields.

Definition rec_list_health : string :=
  "List health is below optimal. Consider implementing re-engagement campaigns and improving signup quality.".
Definition rec_segmentation : string :=
  "Limited segmentation detected. Implement behavioral tags to improve targeting and personalization.".
Definition rec_automation : string :=
  "Expand automation strategy. Consider welcome series, nurture sequences, and re-engagement campaigns.".
Definition rec_forms : string :=
  "Diversify lead capture strategy. Test multiple form types and placements to maximize conversions.".
Definition rec_brand : string :=
  "Ensure all automation content maintains consistent brand positioning and messaging.".
Definition rec_segments : string :=
  "Implement advanced segment tracking (Customer type, engagement level, lifecycle stage) for targeted messaging.".

(** [x?.length < n]: [undefined < n] is false. *)
Definition length_below {A} (l : option (list A)) (n : nat) : bool :=
  match l with
  | Some xs => Nat.ltb (length xs) n
  | None => false
  end.

Definition generateRecommendations (stats : StatsObject)
           (tagsResponse : TagsResponse) (sequencesResponse : SequencesResponse)
           (formsResponse : FormsResponse) : list string :=
  let recommendations := [] in
  let listHealthScore := calculateListHealthScore stats in
  let recommendations :=
    if num_lt listHealthScore 70 then recommendations ++ [rec_list_health]
    else recommendations in
  let recommendations :=
    if length_below (tags tagsResponse) 5
    then recommendations ++ [rec_segmentation] else recommendations in
  let activeSequences :=
    default [] (List.filter (fun seq => negb (seq_hold seq))
                  <$> sequences sequencesResponse) in
  let recommendations :=
    if Nat.ltb (length activeSequences) 3
    then recommendations ++ [rec_automation] else recommendations in
  let recommendations :=
    if length_below (forms formsResponse) 2
    then recommendations ++ [rec_forms] else recommendations in
  recommendations ++ [rec_brand; rec_segments].

Definition with_cache (w : World) (c : ApiCache.t AccountAudit) : World :=
  {| now := now w; cache := c; calls := calls w |}.

(** [subscribersData?.pagination?.total_count
     || subscribersData?.subscribers?.length || 0] *)
Definition totalSubscribers_of (subscribersData : option SubscribersResponse)
  : Q :=
  let total := (subscribersData ≫= subscribers_pagination) ≫= total_count in
  let listed := inject_len <$> (subscribersData ≫= subscribers) in
  num_or total (num_or listed 0).

(** The report built from what the eight reads gave ([None]: the read
    failed), the secondary reads being made on the way. *)
Definition buildAudit (emailStatsData : option Opaque)
           (growthStatsData : option GrowthStats)
           (subscribersData : option SubscribersResponse)
           (tagsData : option TagsResponse)
           (sequencesData : option SequencesResponse)
           (formsData : option FormsResponse)
           (customFieldsData : option CustomFieldsResponse)
           (w : World) : AccountAudit * World :=
  let noTags := {| tags := Some [] |} in
  let noSequences := {| sequences := Some [] |} in
  let noForms := {| forms := Some [] |} in
  let summary :=
    buildAccountSummary emailStatsData growthStatsData
                        (totalSubscribers_of subscribersData) in
  let '(segmentation, w1) :=
    buildSegmentationAnalysis (default noTags tagsData) w in
  let '(automation, w2) :=
    buildAutomationOverview (default noSequences sequencesData) w1 in
  let '(leadCapture, w3) :=
    buildLeadCaptureAnalysis (default noForms formsData) w2 in
  let customFields :=
    buildCustomFieldsAnalysis
      (default [] (customFieldsData ≫= custom_fields)) in
  let recommendations :=
    generateRecommendations (StatsPair emailStatsData growthStatsData)
                            (default noTags tagsData)
                            (default noSequences sequencesData)
                            (default noForms formsData) in
  ({| account_summary := summary;
      segmentation_analysis := segmentation;
      automation_overview := automation;
      lead_capture_analysis := leadCapture;
      custom_fields_usage := customFields;
      strategic_recommendations := recommendations |}, w3).

(** The eight reads handed to [Promise.allSettled], in the order they
    are started, and the world once all have settled. *)
Record Gathered := {
  g_account : Settled Opaque;
  g_emailStats : Settled Opaque;
  g_growthStats : Settled GrowthStats;
  g_subscribers : Settled SubscribersResponse;
  g_tags : Settled TagsResponse;
  g_sequences : Settled SequencesResponse;
  g_forms : Settled FormsResponse;
  g_customFields : Settled CustomFieldsResponse }.

Definition fanOut (w : World) : Gathered * World :=
  let api := apiClient env in
  let account := getAccount api (next w) in
  let w := await_call env GetAccount w in
  let emailStats := getEmailStats api (next w) in
  let w := await_call env GetEmailStats w in
  let growthStats := getGrowthStats api (next w) in
  let w := await_call env GetGrowthStats w in
  let subscribers := getSubscribers api (next w) in
  let w := await_call env GetSubscribers w in
  let tags := getTags api (next w) in
  let w := await_call env GetTags w in
  let sequences := getSequences api (next w) in
  let w := await_call env GetSequences w in
  let forms := getForms api (next w) in
  let w := await_call env GetForms w in
  let customFields := getCustomFields api (next w) in
  let w := await_call env GetCustomFields w in
  ({| g_account := account; g_emailStats := emailStats;
      g_growthStats := growthStats; g_subscribers := subscribers;
      g_tags := tags; g_sequences := sequences; g_forms := forms;
      g_customFields := customFields |}, w).

(** The report of one fan-out. *)
Definition audit_of (g : Gathered) (w : World) : AccountAudit * World :=
  buildAudit (getResult (g_emailStats g)) (getResult (g_growthStats g))
             (getResult (g_subscribers g)) (getResult (g_tags g))
             (getResult (g_sequences g)) (getResult (g_forms g))
             (getResult (g_customFields g)) w.

(** The cache read that opens [execute]: skipped when
    [params.include_performance] is truthy. *)
Definition cache_read (params : Params) (w : World)
  : option AccountAudit * World :=
  if negb (truthy (get_prop params "include_performance"))
  then let '(cached, c) :=
         ApiCache.get (now w) (generateKey "account_audit" params) (cache w) in
       (cached, with_cache w c)
  else (None, w).

Definition execute (params : Params) (w : World)
  : Settled AccountAudit * World :=
  let cacheKey := generateKey "account_audit" params in
  let '(cached, w0) := cache_read params w in
  match cached with
  | Some audit => (Fulfilled audit, w0)
  | None =>
      let '(gathered, w1) := fanOut w0 in
      let '(audit, w2) := audit_of gathered w1 in
      match ApiCache.setWithStrategy (now w2) cacheKey audit ApiCache.medium
                                     (cache w2) with
      | Returned (_, c) => (Fulfilled audit, with_cache w2 c)
      | Thrown message =>
          (Rejected ("Failed to generate account audit: " +:+ message), w2)
      end
  end.

End AccountAuditFunction.

(** ** Auxiliary notions for the properties *)

(** The cache can take a new entry: caching is switched off, or the
    store holds fewer keys than its cap. *)
Definition accepts {V} (c : ApiCache.t V) : Prop :=
  ApiCache.enabled (ApiCache.config c) = false
  \/ NodeCache.full (ApiCache.cache c) = false.

(** From [c] to [c'] the cache kept its configuration and gained no key
    (reads and periodic checks only remove expired entries). *)
Definition shrinks {V} (c c' : ApiCache.t V) : Prop :=
  ApiCache.config c' = ApiCache.config c
  /\ NodeCache.options (ApiCache.cache c') = NodeCache.options (ApiCache.cache c)
  /\ NodeCache.data (ApiCache.cache c') ⊆ NodeCache.data (ApiCache.cache c).

(** Time passes between two calls of [execute]: [elapsed] milliseconds,
    during which the store's periodic check may fire. *)
Definition later (elapsed : N) (swept : bool) (w : World) : World :=
  let now' := now w + Z.of_N elapsed in
  {| now := now';
     cache := if swept then ApiCache.sweep now' (cache w) else cache w;
     calls := calls w |}.

(** The sections a failed read leaves empty. *)
Definition empty_segmentation : SegmentationAnalysis :=
  {| total_tags := 0; active_segments := []; tag_usage_distribution := [];
     behavioral_tracking_status := "None" |}.

Definition empty_automation : AutomationOverview :=
  {| total_sequences := 0; active_sequences := []; total_automations := 0;
     active_automations := []; automation_performance := [] |}.

Definition empty_lead_capture : LeadCaptureAnalysis :=
  {| total_forms := 0; form_performance := []; conversion_rates := [] |}.

(** ** Fixtures: the remote answers of [tests/functions/account-audit.test.ts] *)

Module Fixture.

Definition page (total : Q) : SubscribersResponse :=
  {| subscribers := Some [1];
     subscribers_pagination := Some {| total_count := Some total |} |}.

Definition two_tags : list Tag :=
  [ {| tag_id := 1; tag_name := "VIP";
       tag_created_at := "2024-01-01T00:00:00Z" |};
    {| tag_id := 2; tag_name := "Newsletter";
       tag_created_at := "2024-01-02T00:00:00Z" |} ].

Definition two_sequences : list Sequence :=
  [ welcome_series;
    {| seq_id := 2; seq_name := "Nurture Campaign";
       seq_created_at := "2024-01-02T00:00:00Z";
       seq_hold := false; seq_repeat := true |} ].

Definition two_forms : list Form :=
  [ {| form_id := 1; form_name := "Newsletter Signup";
       form_conversion_rate := Some (15 # 100) |};
    {| form_id := 2; form_name := "Lead Magnet";
       form_conversion_rate := Some (8 # 100) |} ].

Definition two_fields : list CustomField :=
  [ {| cf_id := 1; cf_name := "First Name"; cf_key := Some "first_name";
       cf_type := Some "text"; cf_created_at := "2024-01-01T00:00:00Z" |};
    {| cf_id := 2; cf_name := "Company"; cf_key := Some "company";
       cf_type := Some "text"; cf_created_at := "2024-01-01T00:00:00Z" |} ].

(** Every read succeeds. *)
Definition client : KitApiClient :=
  {| getAccount := fun _ => Fulfilled (opaque "Test Account");
     getEmailStats := fun _ => Fulfilled (opaque "stats");
     getGrowthStats := fun _ => Fulfilled {| growth_rate := Some (52 # 10) |};
     getSubscribers := fun _ => Fulfilled (page 250);
     getTags := fun _ => Fulfilled {| tags := Some two_tags |};
     getSequences := fun _ => Fulfilled {| sequences := Some two_sequences |};
     getForms := fun _ => Fulfilled {| forms := Some two_forms |};
     getCustomFields :=
       fun _ => Fulfilled {| custom_fields := Some two_fields |};
     getTagSubscribers := fun _ _ => Fulfilled (page 50);
     getSequenceSubscribers := fun _ _ => Fulfilled (page 75);
     getFormSubscribers := fun _ _ => Fulfilled (page 25) |}.

(** The same, but [getAccount] rejects. *)
Definition client_account_down : KitApiClient :=
  {| getAccount := fun _ => Rejected "API Error";
     getEmailStats := getEmailStats client;
     getGrowthStats := getGrowthStats client;
     getSubscribers := getSubscribers client;
     getTags := getTags client;
     getSequences := getSequences client;
     getForms := getForms client;
     getCustomFields := getCustomFields client;
     getTagSubscribers := getTagSubscribers client;
     getSequenceSubscribers := getSequenceSubscribers client;
     getFormSubscribers := getFormSubscribers client |}.

(** Each remote call takes 5 ms; no periodic check fires; every date
    string parses to 1 January 2024. *)
Definition environment (api : KitApiClient) : Environment :=
  {| apiClient := api;
     latency := fun _ => 5%N;
     sweeps := fun _ => false;
     Date_parse := fun _ => Some 1704067200000;
     isoDaysAgo := fun _ _ => "2025-03-27T00:00:00.000Z" |}.

Definition defaults : ApiCache.CacheConfig :=
  {| ApiCache.enabled := true; ApiCache.ttl := 300;
     ApiCache.maxSize := 1000; ApiCache.checkPeriod := 60 |}.

(** A fresh cache with the default configuration, on 25 June 2025. *)
Definition world (cfg : ApiCache.CacheConfig) : World :=
  {| now := 1750809600000; cache := ApiCache.new cfg; calls := [] |}.

(** A cache capped at one key that already holds a report under another
    key, stored at the start of [world]. *)
Definition one_key : ApiCache.CacheConfig :=
  {| ApiCache.enabled := true; ApiCache.ttl := 300;
     ApiCache.maxSize := 1; ApiCache.checkPeriod := 60 |}.

Definition some_report : AccountAudit :=
  {| account_summary := buildAccountSummary None None 0;
     segmentation_analysis := empty_segmentation;
     automation_overview := empty_automation;
     lead_capture_analysis := empty_lead_capture;
     custom_fields_usage := [];
     strategic_recommendations := [] |}.

Definition full_world : World :=
  let w := world one_key in
  match ApiCache.set (now w) "other" some_report None (cache w) with
  | Returned (_, c) => with_cache w c
  | Thrown _ => w
  end.

(** A fetch function that takes 40 ms and settles with a report. *)
Definition fetch_report : @ApiCache.Fetch AccountAudit :=
  fun now c => (Fulfilled some_report, now + 40, c).

Definition run_of (w : World) : @ApiCache.Run AccountAudit :=
  {| ApiCache.clock := now w; ApiCache.store := cache w;
     ApiCache.invocations := 0 |}.

(** The first call of the idempotence scenario and what it gives. *)
Definition no_performance : Params := [("include_performance", JBool false)].

Definition first_call : Settled AccountAudit * World :=
  execute (environment client) no_performance (world defaults).

Definition first_report : AccountAudit :=
  match fst first_call with
  | Fulfilled report => report
  | Rejected _ => some_report
  end.

End Fixture.

(** * More of the code *)

(** ** The rest of the rate limiter, and how the client uses it *)

Module Backoff.
Import RateLimiter.

(** [getBackoffDelay(attempt)]; [random] is the value [Math.random()]
    gives, a number in [0, 1). *)
Definition getBackoffDelay (random : Q) (attempt : Z) (rl : t) : Q :=
  let baseDelay := inject_Z (retryDelay (config rl)) in
  let exponentialDelay := (baseDelay * Qpower 2 (attempt - 1))%Q in
  let jitter := (random * (1 # 10) * exponentialDelay)%Q in
  Math_min (exponentialDelay + jitter)%Q (inject_Z (maxRetryDelay (config rl))).

(** The delay without jitter. *)
Definition exponential (attempt : Z) (rl : t) : Q :=
  (inject_Z (retryDelay (config rl)) * Qpower 2 (attempt - 1))%Q.

End Backoff.

Module SharedLimiter.
Import RateLimiter.

(** [waitForAvailability()] on a limiter that other calls use
    meanwhile, as the eight reads [execute] starts together do.  At
    [await this.delay(...)] the call yields, and before it checks again
    other calls may have pushed entries onto [this.requests]:
    [others i now'] are the entries pushed during the sleep with [i]
    sleeps left, which ends at [now'].  (Other calls also purge the
    window, but a purge made earlier removes nothing that the next
    check would count.) *)
Fixpoint waitForAvailability (fuel : nat) (late : nat -> N)
         (others : nat -> Z -> list RequestRecord)
         (now : Z) (rl : t) : bool * Z * t :=
  let '(ok, rl1) := canMakeRequest now rl in
  if ok then (true, now, recordRequest now 1 rl1)
  else
    match fuel with
    | O => (false, now, rl1)
    | S fuel' =>
        let ms := Z.min (waitTime now rl1) (maxRetryDelay (config rl1)) in
        let now' := now + Z.max 0 ms + Z.of_N (late fuel') in
        waitForAvailability fuel' late others now'
          (set_requests rl1 (requests rl1 ++ others fuel' now'))
    end.

(** No other call uses the limiter. *)
Definition alone (others : nat -> Z -> list RequestRecord) : Prop :=
  forall i now', others i now' = [].

(** Other calls that take every free place just before the sleeper
    wakes: each time, [requestsPerMinute] entries of count 1. *)
Definition overtaking (cfg : RateLimitConfig)
  : nat -> Z -> list RequestRecord :=
  fun _ now' =>
    repeat {| timestamp := now'; count := 1 |}
           (Z.to_nat (requestsPerMinute cfg)).

End SharedLimiter.

Module ClientRequests.
Import RateLimiter.

(** One request through the interceptors of [KitApiClient]
    ([src/services/kit-api-client.ts], [setupInterceptors]): the request
    interceptor awaits [waitForAvailability()]; the request then takes
    [latency] milliseconds; when it is answered with a success the
    response interceptor calls [recordRequest()], and when it fails the
    error handler records nothing.  [None]: the request is still
    waiting for admission after [fuel] sleeps. *)
Definition request (fuel : nat) (late : nat -> N) (latency : N)
           (answered : bool) (now : Z) (rl : t) : option (Z * t) :=
  let '(admitted, now1, rl1) := waitForAvailability fuel late now rl in
  if admitted then
    let now2 := now1 + Z.of_N latency in
    Some (now2, if answered then recordRequest now2 1 rl1 else rl1)
  else None.

(** [n] answered requests one after the other, each taking [latency]
    milliseconds, none being allowed to sleep. *)
Fixpoint burst (n : nat) (latency : N) (now : Z) (rl : t) : option (Z * t) :=
  match n with
  | O => Some (now, rl)
  | S n' =>
      match request 0 (fun _ => 0%N) latency true now rl with
      | Some (now', rl') => burst n' latency now' rl'
      | None => None
      end
  end.

End ClientRequests.

(** ** The rest of the response cache *)

Module NodeCacheRest.
Import NodeCache.

Section Operations.
Context {V : Type}.

(** Modelled from the spec: [del(key)] of [node-cache].  Section 4.2:
    "[delete(key) -> count]": the entry held under the key, expired or
    not, is removed and counted. *)
Definition del (key : string) (st : Store V) : nat * Store V :=
  match data st !! key with
  | Some _ => (1%nat, with_data st (delete key (data st)))
  | None => (0%nat, st)
  end.

(** Modelled from the spec: [has(key)] of [node-cache].  Section 4.2:
    "[has(key) -> bool]"; as for a read, expiry is enforced lazily: an
    expired entry is deleted and reported absent. *)
Definition has (now : Z) (key : string) (st : Store V) : bool * Store V :=
  match data st !! key with
  | Some w => if live now w then (true, st)
              else (false, with_data st (delete key (data st)))
  | None => (false, st)
  end.

(** Modelled from the spec: [keys()] of [node-cache].  Section 4.2:
    "[listKeys() -> sequence of string]": the keys held, expired ones not
    yet removed included, each once. *)
Definition keys (st : Store V) : list string :=
  List.map fst (map_to_list (data st)).

(** Modelled from the spec: [flushAll()] of [node-cache].  Section 4.2:
    "[clear()]: resets all entries". *)
Definition flushAll (st : Store V) : Store V := with_data st ∅.

End Operations.
End NodeCacheRest.

(** [Math.round(x)]: the nearest integer, halves going up. *)
Definition Math_round (x : Q) : Z := Qfloor (x + (1 # 2)).

(** ** JavaScript numbers as doubles

    [getStats] rounds a percentage to two decimals, which makes the
    representation error of JavaScript numbers visible: [(23 / 160) * 100]
    is 14.374999999999998, not 14.375, and the hit rate reported is
    14.37.  The hit rate is therefore computed as the code computes it,
    every arithmetic operation giving the double nearest to the exact
    result. *)

Module Double.
Local Open Scope Q_scope.

(** The nearest integer, a tie going to the even one. *)
Definition round_half_even (s : Q) : Z :=
  let f := Qfloor s in
  match Qcompare (s - inject_Z f) (1 # 2) with
  | Lt => f
  | Gt => (f + 1)%Z
  | Eq => if Z.even f then f else (f + 1)%Z
  end.

(** The binary exponent [e] of a positive number:
    [2 ^ e <= x < 2 ^ (e + 1)]. *)
Definition exponent (x : Q) : Z :=
  let e0 := (Z.log2 (Qnum x) - Z.log2 (Zpos (Qden x)))%Z in
  if Qle_bool (2 ^ e0) x then e0 else (e0 - 1)%Z.

(** A positive number rounded to 53 significant bits. *)
Definition round_positive (x : Q) : Q :=
  let e := exponent x in
  inject_Z (round_half_even (x * 2 ^ (52 - e))) * 2 ^ (e - 52).

(** The double nearest to [x] (IEEE 754 binary64, round to nearest,
    ties to even).  The limits of the exponent range are left out: the
    numbers rounded here are counts, ratios of counts and percentages. *)
Definition round (x : Q) : Q :=
  let x := Qred x in
  Qred match Qcompare x 0 with
       | Eq => 0
       | Gt => round_positive x
       | Lt => - round_positive (- x)
       end.

(** The relative error of one rounding is at most [2 ^ -53]. *)
Definition unit_roundoff : Q := 1 # 9007199254740992.

End Double.

Module ApiCacheRest.
Import ApiCache.

Record CacheStats := {
  stat_keys : nat;
  stat_hits : nat;
  stat_misses : nat;
  hitRate : Q }.

Section Methods.
Context {V : Type}.

Definition with_store (c : t V) (store : NodeCache.Store V) : t V :=
  {| cache := store; config := config c; hits := hits c; misses := misses c |}.

Definition del (key : string) (c : t V) : nat * t V :=
  if negb (enabled (config c)) then (0%nat, c)
  else
    let '(deleted, store) := NodeCacheRest.del key (cache c) in
    (deleted, with_store c store).

Definition clear (c : t V) : t V :=
  {| cache := NodeCacheRest.flushAll (cache c); config := config c;
     hits := 0; misses := 0 |}.

Definition has (now : Z) (key : string) (c : t V) : bool * t V :=
  if negb (enabled (config c)) then (false, c)
  else
    let '(found, store) := NodeCacheRest.has now key (cache c) in
    (found, with_store c store).

Definition keys (c : t V) : list string := NodeCacheRest.keys (cache c).

Definition nat_Q (n : nat) : Q := inject_Z (Z.of_nat n).

(** [getStats()].  The counters are integers, which doubles hold
    exactly; the division, the two multiplications by 100 and the final
    division by 100 are each rounded to a double. *)
Definition getStats (c : t V) : CacheStats :=
  let keys := length (NodeCacheRest.keys (cache c)) in
  let totalRequests := (hits c + misses c)%nat in
  let hitRate :=
    if Nat.ltb 0 totalRequests
    then Double.round
           (Double.round (nat_Q (hits c) / nat_Q totalRequests) * 100)%Q
    else 0%Q in
  {| stat_keys := keys;
     stat_hits := hits c;
     stat_misses := misses c;
     hitRate :=
       Double.round
         (inject_Z (Math_round (Double.round (hitRate * 100))) / 100)%Q |}.

(** [invalidatePattern(pattern)]: the keys are listed once, those that
    contain the pattern are deleted from the store one by one, and the
    deletions are counted. *)
Definition invalidatePattern (pattern : string) (c : t V) : nat * t V :=
  let keys := NodeCacheRest.keys (cache c) in
  let matchingKeys :=
    List.filter (fun key => JsString.includes key pattern) keys in
  let '(deleted, store) :=
    fold_left (fun acc key =>
                 let '(n, store') := NodeCacheRest.del key (snd acc) in
                 ((fst acc + n)%nat, store'))
              matchingKeys (0%nat, cache c) in
  (deleted, with_store c store).

(** The calls a user of the cache can make. *)
Inductive Call :=
| CallGet (key : string)
| CallSet (key : string) (value : V) (ttl' : option Z)
| CallSetWithStrategy (key : string) (value : V) (strategy : Strategy)
| CallDel (key : string)
| CallHas (key : string)
| CallClear
| CallInvalidatePattern (pattern : string).

(** One call at clock reading [now]: the cache afterwards and, for a
    [get], what it returned.  A [set] that throws leaves the cache as
    it was. *)
Definition step (now : Z) (call : Call) (c : t V) : t V * list (option V) :=
  match call with
  | CallGet key => let '(value, c') := get now key c in (c', [value])
  | CallSet key value ttl' =>
      match set now key value ttl' c with
      | Returned (_, c') => (c', [])
      | Thrown _ => (c, [])
      end
  | CallSetWithStrategy key value strategy =>
      match setWithStrategy now key value strategy c with
      | Returned (_, c') => (c', [])
      | Thrown _ => (c, [])
      end
  | CallDel key => (snd (del key c), [])
  | CallHas key => (snd (has now key c), [])
  | CallClear => (clear c, [])
  | CallInvalidatePattern pattern => (snd (invalidatePattern pattern c), [])
  end.

(** A sequence of calls, each with the clock reading at which it is
    made; the results of the [get]s in order. *)
Fixpoint run (calls : list (Z * Call)) (c : t V) : t V * list (option V) :=
  match calls with
  | [] => (c, [])
  | (now, call) :: rest =>
      let '(c1, results1) := step now call c in
      let '(c2, results2) := run rest c1 in
      (c2, results1 ++ results2)
  end.

(** A [get] returned a value. *)
Definition got_value (result : option V) : bool :=
  match result with
  | Some _ => true
  | None => false
  end.

Definition is_clear (call : Call) : bool :=
  match call with
  | CallClear => true
  | _ => false
  end.

End Methods.
End ApiCacheRest.

(** ** The remote reads of one audit *)

(** The eight reads [execute] hands to [Promise.allSettled], in order. *)
Definition topLevelReads : list ApiCall :=
  [GetAccount; GetEmailStats; GetGrowthStats; GetSubscribers; GetTags;
   GetSequences; GetForms; GetCustomFields].

(** The tags, sequences and forms the three loops go through:
    [tags.slice(0, 20)], [activeSequences.slice(0, 10)] and
    [forms.slice(0, 10)]. *)
Definition analyzedTags (tagsData : option TagsResponse) : list Tag :=
  take 20 (default [] (tags (default {| tags := Some [] |} tagsData))).

Definition analyzedSequences (sequencesData : option SequencesResponse)
  : list Sequence :=
  take 10 (List.filter (fun seq => negb (seq_hold seq))
             (default [] (sequences
                            (default {| sequences := Some [] |} sequencesData)))).

Definition analyzedForms (formsData : option FormsResponse) : list Form :=
  take 10 (default [] (forms (default {| forms := Some [] |} formsData))).

(** One read per analysed tag, then per analysed sequence, then per
    analysed form. *)
Definition secondaryReads (tagsData : option TagsResponse)
           (sequencesData : option SequencesResponse)
           (formsData : option FormsResponse) : list ApiCall :=
  List.map (fun tag => GetTagSubscribers (tag_id tag)) (analyzedTags tagsData)
  ++ List.map (fun seq => GetSequenceSubscribers (seq_id seq))
       (analyzedSequences sequencesData)
  ++ List.map (fun form => GetFormSubscribers (form_id form))
       (analyzedForms formsData).

(** A client whose secondary reads all succeed. *)
Definition secondary_reads_succeed (api : KitApiClient) : Prop :=
  (forall n id, exists r, getTagSubscribers api n id = Fulfilled r)
  /\ (forall n id, exists r, getSequenceSubscribers api n id = Fulfilled r)
  /\ (forall n id, exists r, getFormSubscribers api n id = Fulfilled r).

(** The hit and miss counters of a cache. *)
Definition counters {V} (c : ApiCache.t V) : nat * nat :=
  (ApiCache.hits c, ApiCache.misses c).

(** [{ include_performance: true }] *)
Definition with_performance : Params := [("include_performance", JBool true)].

(** The world after a first audit with performance data on the fixture
    client: its report is cached under the key of [with_performance]. *)
Definition audited_world : World :=
  snd (execute (Fixture.environment Fixture.client) with_performance
               (Fixture.world Fixture.defaults)).

(** ** Credentials ([src/config/auth.ts]) *)

Module KitAuthConfig.

Record AuthConfig := {
  apiKey : option string;
  apiSecret : option string;
  accessToken : option string;
  baseUrl : string;
  timeout : Z;
  maxRetries : Z }.

(** Truthiness of an optional string: [undefined] and the empty string
    are falsy. *)
Definition present (s : option string) : bool :=
  match s with
  | Some x => negb (String.eqb x "")
  | None => false
  end.

Definition validateConfig (config : AuthConfig) : Outcome unit :=
  if negb (present (accessToken config)) && negb (present (apiKey config))
  then Thrown "Kit authentication required: Either CONVERTKIT_ACCESS_TOKEN (OAuth) or CONVERTKIT_API_KEY must be provided"
  else Returned tt.

Definition getAuthHeaders (config : AuthConfig) : gmap string string :=
  let headers : gmap string string :=
    <["User-Agent" := "Kit-MCP/1.0.0"]>
      (<["Content-Type" := "application/json"]> ∅) in
  match accessToken config with
  | Some token =>
      if present (Some token) then <["X-Kit-Api-Key" := token]> headers
      else headers
  | None => headers
  end.

Definition getAuthParams (config : AuthConfig) : gmap string string :=
  let params : gmap string string := ∅ in
  match apiKey config with
  | Some key =>
      if present (Some key) && negb (present (accessToken config)) then
        let params := <["api_key" := key]> params in
        match apiSecret config with
        | Some secret =>
            if present (Some secret) then <["api_secret" := secret]> params
            else params
        | None => params
        end
      else params
  | None => params
  end.

Definition isOAuthMode (config : AuthConfig) : bool :=
  present (accessToken config).

Definition isApiKeyMode (config : AuthConfig) : bool :=
  present (apiKey config) && negb (present (accessToken config)).

(** [KitApiClient.getAuthMode] ([src/services/kit-api-client.ts]) *)
Definition getAuthMode (config : AuthConfig) : string :=
  if isOAuthMode config then "oauth"
  else if isApiKeyMode config then "api_key"
  else "unknown".

(** The query parameters of a request once the request interceptor of
    [KitApiClient] has run: outside OAuth mode,
    [{ ...config.params, ...authParams }]. *)
Definition interceptedParams (config : AuthConfig) (params : gmap string Json)
  : gmap string Json :=
  if negb (isOAuthMode config)
  then (JString <$> getAuthParams config) ∪ params
  else params.

End KitAuthConfig.

(** ** Pagination ([KitApiClient.getAllPages]) *)

Module Pagination.

(** The two properties of [KitPagination] the loop reads. *)
Record PageInfo := {
  has_next_page : bool;
  end_cursor : option string }.

Record Page (T : Type) := {
  page_data : option (list T);
  page_pagination : option PageInfo }.
Arguments page_data {T} _.
Arguments page_pagination {T} _.

Section GetAllPages.
Context {T : Type}.

(** The fetch function: how its [n]-th call settles when asked for the
    page after [cursor]. *)
Definition FetchPage : Type := nat -> option string -> Settled (Page T).

(** [response.pagination?.has_next_page && response.pagination?.end_cursor],
    when truthy: the cursor to go on with. *)
Definition nextCursor (response : Page T) : option string :=
  match page_pagination response with
  | Some pagination =>
      if has_next_page pagination then
        match end_cursor pagination with
        | Some c => if String.eqb c "" then None else Some c
        | None => None
        end
      else None
  | None => None
  end.

(** The [while (hasMore)] loop, from its [n]-th fetch on.  A result
    comes with the number of fetches made; [None]: the loop is still
    running after [fuel] fetches. *)
Fixpoint getAllPages_from (fuel : nat) (fetchFunction : FetchPage) (n : nat)
         (cursor : option string) (allItems : list T)
  : option (Settled (list T) * nat) :=
  match fuel with
  | O => None
  | S fuel' =>
      match fetchFunction n cursor with
      | Rejected reason => Some (Rejected reason, S n)
      | Fulfilled response =>
          let allItems := allItems ++ default [] (page_data response) in
          match nextCursor response with
          | Some c =>
              getAllPages_from fuel' fetchFunction (S n) (Some c) allItems
          | None => Some (Fulfilled allItems, S n)
          end
      end
  end.

(** [getAllPages(fetchFunction, initialParams)], [after] being
    [initialParams.after]. *)
Definition getAllPages (fuel : nat) (fetchFunction : FetchPage)
           (after : option string) : option (Settled (list T) * nat) :=
  getAllPages_from fuel fetchFunction 0 after [].

(** The pages are served one after the other from the [n]-th fetch on,
    each handing out the cursor of the next and the last handing out
    none. *)
Fixpoint serves (fetchFunction : FetchPage) (n : nat) (cursor : option string)
         (pages : list (Page T)) : Prop :=
  match pages with
  | [] => False
  | page :: rest =>
      fetchFunction n cursor = Fulfilled page
      /\ match rest with
         | [] => nextCursor page = None
         | _ :: _ => exists c, nextCursor page = Some c
                               /\ serves fetchFunction (S n) (Some c) rest
         end
  end.

(** The items of a page: none when [data] is missing. *)
Definition items (page : Page T) : list T := default [] (page_data page).

End GetAllPages.
End Pagination.

(** ** Fixtures for the credentials and the pagination *)

Definition oauth_config : KitAuthConfig.AuthConfig :=
  {| KitAuthConfig.apiKey := Some "key";
     KitAuthConfig.apiSecret := Some "secret";
     KitAuthConfig.accessToken := Some "token";
     KitAuthConfig.baseUrl := "https://api.kit.com/v4";
     KitAuthConfig.timeout := 30000;
     KitAuthConfig.maxRetries := 3 |}.

Definition api_key_config : KitAuthConfig.AuthConfig :=
  {| KitAuthConfig.apiKey := Some "key";
     KitAuthConfig.apiSecret := None;
     KitAuthConfig.accessToken := Some "";
     KitAuthConfig.baseUrl := "https://api.kit.com/v4";
     KitAuthConfig.timeout := 30000;
     KitAuthConfig.maxRetries := 3 |}.

(** Two pages of identifiers, the first pointing to the second. *)
Definition first_page : Pagination.Page Z :=
  {| Pagination.page_data := Some [1; 2];
     Pagination.page_pagination :=
       Some {| Pagination.has_next_page := true;
               Pagination.end_cursor := Some "c1" |} |}.

Definition last_page : Pagination.Page Z :=
  {| Pagination.page_data := Some [3];
     Pagination.page_pagination :=
       Some {| Pagination.has_next_page := false;
               Pagination.end_cursor := Some "c2" |} |}.

Definition two_page_server : @Pagination.FetchPage Z :=
  fun _ cursor =>
    match cursor with
    | None => Fulfilled first_page
    | Some _ => Fulfilled last_page
    end.

(** A server that always hands out the same page and cursor. *)
Definition looping_server : @Pagination.FetchPage Z :=
  fun _ _ => Fulfilled first_page.

(** * Properties *)

(** ** Substring search *)

Section JsStringFacts.
Import JsString.

Lemma startsWith_spec (p s : string) :
  startsWith p s = true <-> exists post, s = p +:+ post.
Proof.
  revert s; induction p as [|a p IH]; intros s; simpl.
  - split; [intros _; exists s; reflexivity | reflexivity].
  - destruct s as [|b s]; simpl.
    + split; [discriminate | intros [post H]; discriminate].
    + rewrite andb_true_iff, IH, Ascii.eqb_eq. split.
      * intros [-> [post ->]]. exists post. reflexivity.
      * intros [post H]. injection H as -> ->. split; [reflexivity | eauto].
Qed.

Lemma includes_spec (s sub : string) :
  includes s sub = true <-> contains s sub.
Proof.
  unfold contains. induction s as [|c s IH].
  - simpl. rewrite orb_false_r, startsWith_spec. split.
    + intros [post H]. exists "", post. exact H.
    + intros [pre [post H]]. destruct pre; simpl in H; [eauto | discriminate].
  - cbn [includes]. rewrite orb_true_iff, startsWith_spec, IH. split.
    + intros [[post H] | [pre [post H]]].
      * exists "", post. exact H.
      * exists (String c pre), post. simpl. now rewrite H.
    + intros [pre [post H]]. destruct pre as [|c' pre]; simpl in H.
      * left. eauto.
      * right. injection H as _ H. eauto.
Qed.

Lemma includes_false (s sub : string) :
  includes s sub = false <-> ~ contains s sub.
Proof.
  rewrite <- includes_spec. destruct (includes s sub); split; congruence.
Qed.

End JsStringFacts.

(** ** Custom-field and sequence scoring *)

(** C10. The personalization class of a custom field is decided on the
    lowercased name by substring tests in a fixed order: "name" first
    (High, email personalization) whatever else the name contains, then
    "location" or "state" (Medium), then "specialty" or "industry" (High,
    professional), otherwise Low.  Being substring tests, they classify
    "estate" as Medium (it contains "state") and "username" as High (it
    contains "name"); "Location Name" is High although it contains
    "location". *)
Theorem assessPersonalizationOpportunity_precedence :
  (forall field : CustomField,
      personalization_spec (cf_name field)
                           (assessPersonalizationOpportunity field))
  /\ assessPersonalizationOpportunity (field_named "estate")
     = "Medium - Geographic targeting"
  /\ assessPersonalizationOpportunity (field_named "username")
     = "High - Use for email personalization"
  /\ assessPersonalizationOpportunity (field_named "Location Name")
     = "High - Use for email personalization"
  /\ assessPersonalizationOpportunity (field_named "State / INDUSTRY")
     = "Medium - Geographic targeting".
Proof.
  split; [| repeat split; reflexivity].
  intros field. unfold assessPersonalizationOpportunity.
  set (n := JsString.toLowerCase (cf_name field)).
  destruct (JsString.includes n "name") eqn:Hname.
  { apply ps_name. now apply includes_spec. }
  apply includes_false in Hname.
  destruct (JsString.includes n "location") eqn:Hloc; cbn [orb].
  { apply ps_geographic; [exact Hname | left; now apply includes_spec]. }
  apply includes_false in Hloc.
  destruct (JsString.includes n "state") eqn:Hstate.
  { apply ps_geographic; [exact Hname | right; now apply includes_spec]. }
  apply includes_false in Hstate.
  destruct (JsString.includes n "specialty") eqn:Hspec; cbn [orb].
  { apply ps_professional; try assumption. left; now apply includes_spec. }
  apply includes_false in Hspec.
  destruct (JsString.includes n "industry") eqn:Hind.
  { apply ps_professional; try assumption. right; now apply includes_spec. }
  apply includes_false in Hind.
  now apply ps_low.
Qed.

(** The score of a sequence as the code computes it: the two keyword
    tests are case-sensitive substring tests on the name as stored. *)
Lemma calculateOptimizationScore_formula (sequence : Sequence) :
  calculateOptimizationScore sequence
  = Z.min 100
      (50
       + (if JsString.includes (seq_name sequence) "welcome" then 10 else 0)
       + (if JsString.includes (seq_name sequence) "nurture" then 10 else 0)
       + (if seq_hold sequence then 0 else 20)
       + (if seq_repeat sequence then 10 else 0)).
Proof.
  unfold calculateOptimizationScore.
  destruct (JsString.includes _ "welcome"), (JsString.includes _ "nurture"),
    (seq_hold sequence), (seq_repeat sequence); reflexivity.
Qed.

(** C2. For the non-held, non-repeat sequence named "Welcome Series" the
    code computes 70, not the 80 of the specification: [includes] is
    case-sensitive and "Welcome Series" does not contain "welcome", while
    its lowercased form does. *)
Theorem calculateOptimizationScore_welcome_series :
  calculateOptimizationScore welcome_series = 70
  /\ JsString.includes (seq_name welcome_series) "welcome" = false
  /\ JsString.includes (JsString.toLowerCase (seq_name welcome_series))
                       "welcome" = true.
Proof. repeat split. Qed.

(** ** Rate limiter *)

Section RateLimiterFacts.
Import RateLimiter.

Lemma total_from (rs : list RequestRecord) (acc : Z) :
  fold_left (fun sum req => sum + count req) rs acc = acc + total rs.
Proof.
  unfold total. revert acc. induction rs as [|r rs IH]; intros acc; simpl.
  - lia.
  - rewrite IH, (IH (0 + count r)). lia.
Qed.

Lemma total_cons (r : RequestRecord) (rs : list RequestRecord) :
  total (r :: rs) = count r + total rs.
Proof. unfold total at 1. simpl. rewrite total_from. lia. Qed.

Lemma total_purge (now : Z) (rs : list RequestRecord) :
  total (purge now rs) = trailing_sum now rs.
Proof.
  unfold purge. induction rs as [|r rs IH]; [reflexivity|].
  cbn [List.filter trailing_sum fold_right].
  fold (trailing_sum now rs). rewrite <- IH.
  replace (Z.ltb (now - timestamp r) 60000)
    with (Z.ltb (now - 60000) (timestamp r))
    by (destruct (Z.ltb_spec (now - 60000) (timestamp r)),
               (Z.ltb_spec (now - timestamp r) 60000); lia || reflexivity).
  destruct (Z.ltb (now - 60000) (timestamp r)); [apply total_cons | reflexivity].
Qed.

Lemma requests_replay_from (history : list (Z * N)) (rl : t) :
  requests (fold_left
              (fun rl call => recordRequest (fst call) (Z.of_N (snd call)) rl)
              history rl)
  = requests rl ++ List.map entry history.
Proof.
  revert rl. induction history as [|c h IH]; intros rl; simpl.
  - now rewrite app_nil_r.
  - rewrite IH. simpl. now rewrite <- app_assoc.
Qed.

Lemma requests_replay (cfg : RateLimitConfig) (history : list (Z * N)) :
  requests (replay cfg history) = List.map entry history.
Proof. unfold replay. now rewrite requests_replay_from. Qed.

Lemma config_replay (cfg : RateLimitConfig) (history : list (Z * N)) :
  config (replay cfg history) = cfg.
Proof.
  unfold replay.
  assert (H : forall rl,
             config (fold_left
                       (fun rl call =>
                          recordRequest (fst call) (Z.of_N (snd call)) rl)
                       history rl) = config rl).
  { induction history as [|c h IH]; intros rl; simpl; [reflexivity|].
    now rewrite IH. }
  now rewrite H.
Qed.

Lemma trailing_sum_nonneg (now : Z) (history : list (Z * N)) :
  0 <= trailing_sum now (List.map entry history).
Proof.
  induction history as [|c h IH]; simpl; [lia|].
  fold (trailing_sum now (List.map entry h)).
  destruct (Z.ltb (now - fst c) 60000); lia.
Qed.

Lemma purge_aged_out (t0 : Z) (history : list (Z * N)) (d : N) :
  purge (newest t0 history + 60000 + Z.of_N d) (List.map entry history) = [].
Proof.
  assert (H : forall now, newest t0 history + 60000 <= now ->
                          purge now (List.map entry history) = []).
  { induction history as [|c h IH]; intros now Hnow; [reflexivity|].
    simpl in Hnow. unfold purge. simpl.
    destruct (Z.ltb_spec (now - 60000) (fst c)); [lia|].
    apply IH. lia. }
  apply H. lia.
Qed.

(** C5. [canMakeRequest] replaces the window by its entries stamped
    later than [now - 60000], and answers whether the counts of those
    entries sum to less than [requestsPerMinute]; the sum is that of the
    counts of the entries less than 60 seconds old.  So the answer is
    [false] exactly when that sum has reached the limit, it is [true]
    again (for a positive limit) once the entries have aged out, and
    with [requestsPerMinute = 0] every check after any history of
    [recordRequest] calls answers [false]. *)
Theorem canMakeRequest_sliding_window :
  (forall (now : Z) (rl : t),
      canMakeRequest now rl
      = (Z.ltb (total (purge now (requests rl)))
               (requestsPerMinute (config rl)),
         {| requests := purge now (requests rl); config := config rl |}))
  /\ (forall (now : Z) (rl : t) (r : RequestRecord),
         In r (purge now (requests rl))
         <-> In r (requests rl) /\ now - 60000 < timestamp r)
  /\ (forall (now : Z) (rl : t),
         fst (canMakeRequest now rl) = true
         <-> trailing_sum now (requests rl) < requestsPerMinute (config rl))
  /\ (forall (now : Z) (rl : t),
         fst (canMakeRequest now rl) = false
         <-> requestsPerMinute (config rl) <= trailing_sum now (requests rl))
  /\ (forall (cfg : RateLimitConfig) (history : list (Z * N)) (t0 : Z) (d : N),
         canMakeRequest (newest t0 history + 60000 + Z.of_N d)
                        (replay cfg history)
         = (Z.ltb 0 (requestsPerMinute cfg), new cfg))
  /\ (forall (burst delay maxDelay : Z) (history : list (Z * N)) (now : Z),
         fst (canMakeRequest now
                (replay {| requestsPerMinute := 0; burstLimit := burst;
                           retryDelay := delay; maxRetryDelay := maxDelay |}
                        history))
         = false).
Proof.
  split; [reflexivity|].
  split.
  { intros now rl r. unfold purge. rewrite filter_In, Z.ltb_lt. tauto. }
  split.
  { intros now rl. unfold canMakeRequest. cbn [fst set_requests requests config].
    rewrite total_purge. apply Z.ltb_lt. }
  split.
  { intros now rl. unfold canMakeRequest. cbn [fst set_requests requests config].
    rewrite total_purge. apply Z.ltb_ge. }
  split.
  { intros cfg history t0 d. unfold canMakeRequest, set_requests.
    rewrite requests_replay, config_replay, purge_aged_out. reflexivity. }
  intros burst delay maxDelay history now.
  unfold canMakeRequest. cbn [fst set_requests requests config].
  rewrite total_purge, requests_replay, config_replay.
  cbn [requestsPerMinute]. apply Z.ltb_ge. apply trailing_sum_nonneg.
Qed.

End RateLimiterFacts.

(** *** The window stays ordered *)

Section RateLimiterInvariant.
Import RateLimiter.

Lemma Forall_sublist {A} (P : A -> Prop) (l1 l2 : list A) :
  sublist l1 l2 -> Forall P l2 -> Forall P l1.
Proof.
  intros Hsub H. rewrite Forall_forall in *. intros x Hx.
  apply H. eapply elem_of_sublist; eassumption.
Qed.

Lemma window_inv_later (now now' : Z) (rs : list RequestRecord) :
  now <= now' -> window_inv now rs -> window_inv now' rs.
Proof.
  intros Hle [Hs Hb]. split; [exact Hs|].
  eapply List.Forall_impl; [|exact Hb]. simpl. intros r Hr. lia.
Qed.

Lemma purge_sublist (now : Z) (rs : list RequestRecord) :
  sublist (purge now rs) rs.
Proof.
  unfold purge. induction rs as [|r rs IH]; simpl; [constructor|].
  destruct (Z.ltb (now - 60000) (timestamp r)); now constructor.
Qed.

Lemma window_inv_sublist (now : Z) (rs rs' : list RequestRecord) :
  sublist rs' rs -> window_inv now rs -> window_inv now rs'.
Proof.
  intros Hsub [Hs Hb]. split.
  - clear Hb. induction Hsub as [|x l1 l2 Hsub IH|x l1 l2 Hsub IH].
    + constructor.
    + apply StronglySorted_cons in Hs as [Hx Hs].
      apply StronglySorted_cons. split; [|auto].
      eapply Forall_sublist; eassumption.
    + apply StronglySorted_cons in Hs as [_ Hs]. auto.
  - eapply Forall_sublist; eassumption.
Qed.

Lemma window_inv_record (now cnt : Z) (rs : list RequestRecord) :
  window_inv now rs ->
  window_inv now (rs ++ [{| timestamp := now; count := cnt |}]).
Proof.
  intros [Hs Hb]. split.
  - apply StronglySorted_app. split; [|split; [exact Hs|]].
    + intros x1 x2 H1 H2. apply list_elem_of_singleton in H2 as ->.
      rewrite Forall_forall in Hb. exact (Hb x1 H1).
    + repeat constructor.
  - apply Forall_app. split; [exact Hb|]. repeat constructor. simpl. lia.
Qed.

Lemma waitForAvailability_inv (fuel : nat) (late : nat -> N) :
  forall (now : Z) (rl : t),
    window_inv now (requests rl) ->
    let '(_, now', rl') := waitForAvailability fuel late now rl in
    now <= now' /\ window_inv now' (requests rl').
Proof.
  induction fuel as [|fuel IH]; intros now rl Hinv; cbn [waitForAvailability].
  - unfold canMakeRequest; cbn [set_requests requests config].
    pose proof (window_inv_sublist _ _ _ (purge_sublist now (requests rl)) Hinv)
      as Hp.
    destruct (Z.ltb _ _).
    + split; [lia|]. now apply window_inv_record.
    + split; [lia | exact Hp].
  - unfold canMakeRequest; cbn [set_requests requests config].
    pose proof (window_inv_sublist _ _ _ (purge_sublist now (requests rl)) Hinv)
      as Hp.
    destruct (Z.ltb _ _).
    + split; [lia|]. now apply window_inv_record.
    + match goal with
      | |- context [waitForAvailability fuel late ?n ?r] =>
          specialize (IH n r); assert (Hn : now <= n) by lia
      end.
      cbn [requests] in IH.
      specialize (IH (window_inv_later _ _ _ Hn Hp)).
      destruct (waitForAvailability fuel late _ _) as [[ok now'] rl'].
      destruct IH as [Hle Hinv']. split; [lia | exact Hinv'].
Qed.

Lemma step_inv (op : Op) (now : Z) (rl : t) :
  window_inv now (requests rl) ->
  let '(now', rl') := step op now rl in
  now <= now' /\ window_inv now' (requests rl').
Proof.
  intros Hinv. destruct op as [|cnt| |fuel late]; cbn [step].
  - split; [lia|]. cbn.
    exact (window_inv_sublist _ _ _ (purge_sublist now (requests rl)) Hinv).
  - split; [lia|]. cbn. now apply window_inv_record.
  - split; [lia|]. cbn.
    exact (window_inv_sublist _ _ _ (purge_sublist now (requests rl)) Hinv).
  - pose proof (waitForAvailability_inv fuel late now rl Hinv) as H.
    destruct (waitForAvailability fuel late now rl) as [[ok now'] rl'].
    exact H.
Qed.

Lemma run_inv (ops : list (N * Op)) :
  forall (now : Z) (rl : t),
    window_inv now (requests rl) ->
    let '(now', rl') := run ops now rl in
    now <= now' /\ window_inv now' (requests rl').
Proof.
  induction ops as [|[elapsed op] ops IH]; intros now rl Hinv; cbn [run].
  - split; [lia | exact Hinv].
  - assert (Hn : now <= now + Z.of_N elapsed) by lia.
    pose proof (step_inv op _ rl (window_inv_later _ _ _ Hn Hinv)) as Hstep.
    destruct (step op (now + Z.of_N elapsed) rl) as [now1 rl1].
    destruct Hstep as [Hle1 Hinv1].
    specialize (IH now1 rl1 Hinv1).
    destruct (run ops now1 rl1) as [now2 rl2].
    destruct IH as [Hle2 Hinv2]. split; [lia | exact Hinv2].
Qed.

Lemma window_inv_head (now : Z) (rs : list RequestRecord) :
  window_inv now rs -> head_is_oldest rs.
Proof.
  intros [Hs _]. destruct rs as [|r rs]; [exact I|].
  apply StronglySorted_cons in Hs as [Hr _].
  constructor; [lia | exact Hr].
Qed.

(** C9. Along every run of limiter calls from a fresh limiter, with a
    clock that never goes back, the window is ordered by non-decreasing
    timestamp, no entry is stamped after the current clock reading, and
    the first entry, when there is one, is an oldest surviving entry
    (the one [waitTime] and [resetTime] read).  The purge is an
    order-preserving filter, and [recordRequest] appends at the end. *)
Theorem window_ordered_invariant :
  (forall (cfg : RateLimitConfig) (t0 : Z) (ops : list (N * Op)),
      let '(now, rl) := run ops t0 (new cfg) in
      ordered (requests rl)
      /\ Forall (fun r => timestamp r <= now) (requests rl)
      /\ head_is_oldest (requests rl))
  /\ (forall (now : Z) (rs : list RequestRecord), sublist (purge now rs) rs)
  /\ (forall (now cnt : Z) (rl : t),
         requests (recordRequest now cnt rl)
         = requests rl ++ [{| timestamp := now; count := cnt |}]).
Proof.
  split; [|split; [exact purge_sublist | reflexivity]].
  intros cfg t0 ops.
  assert (H0 : window_inv t0 (requests (new cfg))) by (split; constructor).
  pose proof (run_inv ops t0 (new cfg) H0) as H.
  destruct (run ops t0 (new cfg)) as [now rl].
  destruct H as [_ Hinv]. split; [|split].
  - apply StronglySorted_Sorted. exact (proj1 Hinv).
  - exact (proj2 Hinv).
  - eapply window_inv_head; exact Hinv.
Qed.

End RateLimiterInvariant.

(** ** Cache keys *)

Section GenerateKeyFacts.

Lemma get_prop_In (params : Params) (k : string) (v : Json) :
  well_formed params -> In (k, v) params -> get_prop params k = v.
Proof.
  unfold well_formed. induction params as [|[k' v'] ps IH]; simpl.
  - intros _ [].
  - intros Hnd Hin. apply NoDup_cons in Hnd as [Hk' Hnd].
    destruct Hin as [Heq | Hin].
    + injection Heq as -> ->. now rewrite String.eqb_refl.
    + destruct (String.eqb_spec k' k) as [-> | _]; [|auto].
      exfalso. apply Hk'. apply list_elem_of_In.
      change k with (fst (k, v)). now apply in_map.
Qed.

Lemma get_prop_absent (params : Params) (k : string) :
  ~ In k (Object_keys params) -> get_prop params k = JUndefined.
Proof.
  induction params as [|[k' v'] ps IH]; simpl; [reflexivity|].
  intros Hk. destruct (String.eqb_spec k' k) as [-> | _]; [tauto|].
  apply IH. tauto.
Qed.

Lemma In_keys_inv (params : Params) (k : string) :
  In k (Object_keys params) -> exists v, In (k, v) params.
Proof.
  unfold Object_keys. rewrite in_map_iff. intros [[k' v] [Heq Hin]].
  simpl in Heq. subst k'. eauto.
Qed.

Lemma get_prop_Permutation (params params' : Params) (k : string) :
  well_formed params -> Permutation params params' ->
  get_prop params k = get_prop params' k.
Proof.
  intros Hwf Hperm.
  assert (Hwf' : well_formed params').
  { unfold well_formed in *.
    rewrite <- (Permutation_map fst Hperm). exact Hwf. }
  destruct (in_dec String.string_dec k (Object_keys params)) as [Hin | Hout].
  - destruct (In_keys_inv _ _ Hin) as [v Hv].
    rewrite (get_prop_In params k v Hwf Hv).
    symmetry. apply get_prop_In; [exact Hwf'|].
    eapply Permutation_in; eassumption.
  - rewrite (get_prop_absent params k Hout).
    symmetry. apply get_prop_absent. intros Hin. apply Hout.
    eapply Permutation_in; [|exact Hin].
    apply Permutation_map. now symmetry.
Qed.

Lemma Array_sort_Permutation (keys keys' : list string) :
  Permutation keys keys' -> Array_sort keys = Array_sort keys'.
Proof.
  intros Hperm. unfold Array_sort.
  apply (Sorted_unique String.le); try apply Sorted_merge_sort; try apply _.
  rewrite !merge_sort_Permutation. exact Hperm.
Qed.

Lemma concat_nonempty (sep x : string) (xs : list string) :
  x <> "" -> String.concat sep (x :: xs) <> "".
Proof.
  intros Hx. destruct x as [|c x]; [congruence|].
  destruct xs; simpl; discriminate.
Qed.

Lemma entry_nonempty (key rest : string) : key +:+ ":" +:+ rest <> "".
Proof. destruct key; discriminate. Qed.

Lemma generateKey_nonempty (prefix : string) (params : Params) :
  params <> [] ->
  generateKey prefix params
  = prefix +:+ ":" +:+
    String.concat "|"
      (List.map (fun key => key +:+ ":" +:+ Json.interpolate (get_prop params key))
                (Array_sort (Object_keys params))).
Proof.
  intros Hne. unfold generateKey.
  destruct (Array_sort (Object_keys params)) as [|k ks] eqn:Hs.
  - exfalso. apply Hne.
    assert (Hp : Permutation (Object_keys params) []).
    { rewrite <- Hs. unfold Array_sort. symmetry. apply merge_sort_Permutation. }
    apply Permutation_nil_r in Hp. destruct params; [reflexivity | discriminate].
  - cbn [List.map].
    destruct (String.eqb_spec
                (String.concat "|"
                   ((k +:+ ":" +:+ Json.interpolate (get_prop params k))
                      :: List.map (fun key => key +:+ ":" +:+
                                     Json.interpolate (get_prop params key)) ks))
                "") as [Heq | _]; [|reflexivity].
    exfalso. revert Heq. apply concat_nonempty, entry_nonempty.
Qed.

(** C6. [generateKey] does not depend on the order in which the
    properties of [params] were inserted: two well-formed parameter
    objects with the same properties in any order give the same key.
    The key is [prefix], then ":", then the entries [name:JSON-value] in
    the sorted order of the names, joined by "|"; with no parameters it
    is [prefix] alone.  In particular [{a:1,b:2}] and [{b:2,a:1}] give
    the same key. *)
Theorem generateKey_order_invariant :
  (forall (prefix : string) (params params' : Params),
      well_formed params -> Permutation params params' ->
      generateKey prefix params = generateKey prefix params')
  /\ (forall (prefix : string) (params : Params),
         params <> [] ->
         generateKey prefix params
         = prefix +:+ ":" +:+
           String.concat "|"
             (List.map (fun key => key +:+ ":" +:+
                                   Json.interpolate (get_prop params key))
                       (Array_sort (Object_keys params))))
  /\ (forall keys : list string,
         Sorted String.le (Array_sort keys)
         /\ Permutation (Array_sort keys) keys)
  /\ (forall prefix : string, generateKey prefix [] = prefix)
  /\ generateKey "p" [("a", JNumber 1); ("b", JNumber 2)]
     = generateKey "p" [("b", JNumber 2); ("a", JNumber 1)]
  /\ generateKey "p" [("a", JNumber 1); ("b", JNumber 2)] = "p:a:1|b:2".
Proof.
  split.
  { intros prefix params params' Hwf Hperm. unfold generateKey.
    rewrite (Array_sort_Permutation (Object_keys params) (Object_keys params'))
      by now apply Permutation_map.
    rewrite (map_ext _ (fun key => key +:+ ":" +:+
                          Json.interpolate (get_prop params' key))).
    - reflexivity.
    - intros key. now rewrite (get_prop_Permutation params params' key). }
  split; [exact generateKey_nonempty|].
  split.
  { intros keys. split.
    - apply Sorted_merge_sort. apply _.
    - apply merge_sort_Permutation. }
  repeat split.
Qed.

(** The invariance at the specification's example. *)
Lemma generateKey_order_invariant_witness :
  generateKey "p" [("a", JNumber 1); ("b", JNumber 2)]
  = generateKey "p" [("b", JNumber 2); ("a", JNumber 1)].
Proof.
  apply (proj1 generateKey_order_invariant).
  - unfold well_formed. simpl. apply NoDup_cons. split.
    + intros H%list_elem_of_singleton. discriminate.
    + apply NoDup_singleton.
  - apply perm_swap.
Defined.

End GenerateKeyFacts.

(** ** Health score *)

Section HealthScore.

Lemma Math_min_Qmin (a b : Q) : Math_min a b == Qmin a b.
Proof.
  unfold Math_min. destruct (Qle_bool a b) eqn:H.
  - apply Qle_bool_iff in H. symmetry. now apply Q.min_l.
  - symmetry. apply Q.min_r. destruct (Qlt_le_dec b a) as [Hlt | Hle].
    + now apply Qlt_le_weak.
    + apply Qle_bool_iff in Hle. congruence.
Qed.

Lemma Math_max_Qmax (a b : Q) : Math_max a b == Qmax a b.
Proof.
  unfold Math_max. destruct (Qle_bool a b) eqn:H.
  - apply Qle_bool_iff in H. symmetry. now apply Q.max_r.
  - symmetry. apply Q.max_l. destruct (Qlt_le_dec b a) as [Hlt | Hle].
    + now apply Qlt_le_weak.
    + apply Qle_bool_iff in Hle. congruence.
Qed.

Lemma num_or_zero (q : Q) : num_or (Some q) 0 == q.
Proof.
  unfold num_or. destruct (Qeq_bool q 0) eqn:H; [|reflexivity].
  apply Qeq_bool_iff in H. now symmetry.
Qed.

Lemma calculateListHealthScore_counts (total active bounced complained : Q) :
  calculateListHealthScore (SubscriberCounts total active bounced complained)
  == health_score_spec total active bounced complained.
Proof.
  unfold calculateListHealthScore, health_score_spec.
  change (stats_prop _ "total_subscribers") with (Some total).
  change (stats_prop _ "active_subscribers") with (Some active).
  change (stats_prop _ "bounced_subscribers") with (Some bounced).
  change (stats_prop _ "complained_subscribers") with (Some complained).
  cbv zeta. rewrite Math_max_Qmax, Math_min_Qmin, !num_or_zero.
  change (num_or (Some total) 1) with (if Qeq_bool total 0 then 1%Q else total).
  apply Q.max_compat; [reflexivity|]. apply Q.min_compat; [reflexivity|].
  ring.
Qed.

(** Without subscriber counts to read, the score is 0. *)
Lemma calculateListHealthScore_pair (e : option Opaque) (g : option GrowthStats) :
  calculateListHealthScore (StatsPair e g) = 0%Q.
Proof. reflexivity. Qed.

Lemma buildAccountSummary_health (e : option Opaque) (g : option GrowthStats)
      (total : Q) :
  list_health_score (buildAccountSummary e g total)
  == if Qeq_bool total 0 then 0%Q else 100%Q.
Proof.
  unfold buildAccountSummary. cbn [list_health_score].
  rewrite calculateListHealthScore_counts. unfold health_score_spec.
  destruct (Qeq_bool total 0) eqn:H.
  - apply Qeq_bool_iff in H. rewrite H. reflexivity.
  - apply Qeq_bool_neq in H.
    assert (E : (100 * (total / total) - 50 * ((0 + 0) / total) == 100)%Q)
      by (field; exact H).
    rewrite E. reflexivity.
Qed.



End HealthScore.

(** ** Strategic recommendations *)

Section Recommendations.

Lemma generateRecommendations_rules (stats : StatsObject)
      (tagsResponse : TagsResponse) (sequencesResponse : SequencesResponse)
      (formsResponse : FormsResponse) :
  generateRecommendations stats tagsResponse sequencesResponse formsResponse
  = (if num_lt (calculateListHealthScore stats) 70 then [rec_list_health]
     else [])
    ++ (if length_below (tags tagsResponse) 5 then [rec_segmentation] else [])
    ++ (if Nat.ltb
            (length (default []
                       (List.filter (fun seq => negb (seq_hold seq))
                          <$> sequences sequencesResponse))) 3
        then [rec_automation] else [])
    ++ (if length_below (forms formsResponse) 2 then [rec_forms] else [])
    ++ [rec_brand; rec_segments].
Proof.
  unfold generateRecommendations.
  destruct (num_lt _ 70), (length_below (tags _) 5), (Nat.ltb _ 3),
    (length_below (forms _) 2); reflexivity.
Qed.

Lemma In_if (b : bool) (x y : string) :
  In x (if b then [y] else []) <-> b = true /\ y = x.
Proof. destruct b; simpl; intuition discriminate. Qed.

(** The rules on tags, active sequences and forms, and the two entries
    that are always there. *)
Lemma generateRecommendations_other_rules (stats : StatsObject)
      (tagList : list Tag) (sequenceList : list Sequence)
      (formList : list Form) :
  let recommendations :=
    generateRecommendations stats {| tags := Some tagList |}
                            {| sequences := Some sequenceList |}
                            {| forms := Some formList |} in
  (In rec_segmentation recommendations <-> (length tagList < 5)%nat)
  /\ (In rec_automation recommendations
      <-> (length (List.filter (fun seq => negb (seq_hold seq)) sequenceList)
           < 3)%nat)
  /\ (In rec_forms recommendations <-> (length formList < 2)%nat)
  /\ In rec_brand recommendations
  /\ In rec_segments recommendations.
Proof.
  cbv zeta. rewrite generateRecommendations_rules.
  cbn [tags sequences forms length_below fmap option_fmap option_map default].
  rewrite !in_app_iff, !In_if, !Nat.ltb_lt. cbn [In].
  repeat split; intros; intuition (try discriminate; auto).
Qed.

(** C3. The re-engagement recommendation does not follow the health
    score of the report.  [generateRecommendations] scores the pair
    [{ emailStats, growthStats }], which has no subscriber counts, so the
    score it tests is always 0 and the recommendation is always first
    in the list.  With the remote answers of the test suite (250
    subscribers, 2 tags, 2 active sequences, 2 forms) the report has
    health score 100 and still recommends re-engagement. *)
Theorem generateRecommendations_reengagement_always :
  (forall (env : Environment) (g : Gathered) (w : World),
      hd_error (strategic_recommendations (fst (audit_of env g w)))
      = Some rec_list_health)
  /\ match fst (execute (Fixture.environment Fixture.client) []
                        (Fixture.world Fixture.defaults)) with
     | Fulfilled report =>
         list_health_score (account_summary report) == 100
         /\ strategic_recommendations report
            = [rec_list_health; rec_segmentation; rec_automation;
               rec_brand; rec_segments]
     | Rejected _ => False
     end.
Proof.
  split.
  - intros env g w. unfold audit_of, buildAudit.
    destruct (buildSegmentationAnalysis _ _ _) as [seg w1].
    destruct (buildAutomationOverview _ _ _) as [aut w2].
    destruct (buildLeadCaptureAnalysis _ _ _) as [lead w3].
    cbn [fst strategic_recommendations].
    rewrite generateRecommendations_rules, calculateListHealthScore_pair.
    reflexivity.
  - vm_compute. split; reflexivity.
Qed.

End Recommendations.

(** ** The cache during one [execute] *)

Section CacheFacts.
Context {V : Type}.
Implicit Types c : ApiCache.t V.

Lemma shrinks_refl c : shrinks c c.
Proof. unfold shrinks. auto. Qed.

Lemma shrinks_trans c1 c2 c3 : shrinks c1 c2 -> shrinks c2 c3 -> shrinks c1 c3.
Proof.
  intros (Hc & Ho & Hd) (Hc' & Ho' & Hd'). repeat split.
  - congruence.
  - congruence.
  - etrans; eassumption.
Qed.

Lemma shrinks_get (now : Z) (key : string) c :
  shrinks c (snd (ApiCache.get now key c)).
Proof.
  unfold ApiCache.get. destruct (negb _); [apply shrinks_refl|].
  unfold NodeCache.get.
  destruct (NodeCache.data (ApiCache.cache c) !! key) as [w|];
    [destruct (NodeCache.live now w)|];
    (split; [reflexivity|]; split; [reflexivity|]; cbn);
    solve [reflexivity | apply delete_subseteq].
Qed.

Lemma shrinks_sweep (now : Z) c : shrinks c (ApiCache.sweep now c).
Proof.
  split; [reflexivity|]. split; [reflexivity|]. cbn.
  apply map_filter_subseteq.
Qed.

Lemma accepts_shrinks c c' : accepts c -> shrinks c c' -> accepts c'.
Proof.
  intros [Hoff | Hroom] (Hc & Ho & Hd).
  - left. now rewrite Hc.
  - right. unfold NodeCache.full, NodeCache.keys_held in *. rewrite Ho.
    apply andb_false_iff in Hroom as [Hcap | Hsize];
      apply andb_false_iff; [now left | right].
    apply Z.leb_gt in Hsize. apply Z.leb_gt.
    apply map_subseteq_size in Hd. lia.
Qed.

Lemma setWithStrategy_accepts (now : Z) (key : string) (value : V)
      (strategy : ApiCache.Strategy) c :
  accepts c ->
  exists success c',
    ApiCache.setWithStrategy now key value strategy c = Returned (success, c').
Proof.
  unfold ApiCache.setWithStrategy, ApiCache.set, NodeCache.set.
  intros [Hoff | Hroom].
  - rewrite Hoff. cbn. eauto.
  - destruct (negb _); [eauto|]. rewrite Hroom. eauto.
Qed.

End CacheFacts.

Section ExecuteFacts.
Variable env : Environment.

Lemma shrinks_await_call (c : ApiCall) (w : World) :
  shrinks (cache w) (cache (await_call env c w)).
Proof.
  unfold await_call. cbn. destruct (sweeps env _);
    [apply shrinks_sweep | apply shrinks_refl].
Qed.

Lemma shrinks_analyzeTags (l : list Tag) :
  forall (acc : list TagUsage) (w : World),
    shrinks (cache w) (cache (snd (analyzeTags env l acc w))).
Proof.
  induction l as [|tag rest IH]; intros acc w; cbn [analyzeTags].
  - apply shrinks_refl.
  - destruct (getTagSubscribers _ _ _);
      (eapply shrinks_trans; [apply shrinks_await_call | apply IH]).
Qed.

Lemma shrinks_analyzeSequences (l : list Sequence) :
  forall (acc : list AutomationMetrics) (w : World),
    shrinks (cache w) (cache (snd (analyzeSequences env l acc w))).
Proof.
  induction l as [|x rest IH]; intros acc w; cbn [analyzeSequences].
  - apply shrinks_refl.
  - destruct (getSequenceSubscribers _ _ _);
      (eapply shrinks_trans; [apply shrinks_await_call | apply IH]).
Qed.

Lemma shrinks_analyzeForms (l : list Form) :
  forall (acc : list ConversionData) (w : World),
    shrinks (cache w) (cache (snd (analyzeForms env l acc w))).
Proof.
  induction l as [|x rest IH]; intros acc w; cbn [analyzeForms].
  - apply shrinks_refl.
  - destruct (getFormSubscribers _ _ _);
      (eapply shrinks_trans; [apply shrinks_await_call | apply IH]).
Qed.

Lemma shrinks_fanOut (w : World) :
  shrinks (cache w) (cache (snd (fanOut env w))).
Proof.
  unfold fanOut. cbn [snd].
  repeat (eapply shrinks_trans; [|apply shrinks_await_call]).
  apply shrinks_refl.
Qed.

Lemma shrinks_audit_of (g : Gathered) (w : World) :
  shrinks (cache w) (cache (snd (audit_of env g w))).
Proof.
  unfold audit_of, buildAudit.
  unfold buildSegmentationAnalysis, buildAutomationOverview,
    buildLeadCaptureAnalysis.
  set (l1 := take 20 _).
  pose proof (shrinks_analyzeTags l1 [] w) as H1.
  destruct (analyzeTags env l1 [] w) as [u w1]. cbn [snd] in H1.
  set (l2 := take 10 _).
  pose proof (shrinks_analyzeSequences l2 [] w1) as H2.
  destruct (analyzeSequences env l2 [] w1) as [m w2]. cbn [snd] in H2.
  set (l3 := take 10 _).
  pose proof (shrinks_analyzeForms l3 [] w2) as H3.
  destruct (analyzeForms env l3 [] w2) as [cv w3]. cbn [snd] in *.
  eauto using shrinks_trans.
Qed.

Lemma shrinks_cache_read (params : Params) (w : World) :
  shrinks (cache w) (cache (snd (cache_read params w))).
Proof.
  unfold cache_read. destruct (negb _); [|apply shrinks_refl].
  pose proof (shrinks_get (now w) (generateKey "account_audit" params) (cache w))
    as H.
  destruct (ApiCache.get _ _ _) as [cached c]. exact H.
Qed.

(** When the cache can take the report, [execute] resolves: with the
    cached report, or with the one built from the settled reads. *)
Lemma execute_resolves (params : Params) (w : World) :
  accepts (cache w) ->
  exists report w',
    execute env params w = (Fulfilled report, w')
    /\ (fst (cache_read params w) = None ->
        let w0 := snd (cache_read params w) in
        report = fst (audit_of env (fst (fanOut env w0)) (snd (fanOut env w0)))).
Proof.
  intros Hacc. unfold execute.
  pose proof (shrinks_cache_read params w) as H0.
  destruct (cache_read params w) as [[cached|] w0]; cbn [fst snd] in *.
  { exists cached, w0. split; [reflexivity | discriminate]. }
  pose proof (shrinks_fanOut w0) as H1.
  destruct (fanOut env w0) as [g w1]; cbn [fst snd] in *.
  pose proof (shrinks_audit_of g w1) as H2.
  destruct (audit_of env g w1) as [audit w2]; cbn [fst snd] in *.
  assert (Hacc2 : accepts (cache w2)).
  { apply (accepts_shrinks (cache w)); [exact Hacc|].
    apply (shrinks_trans _ (cache w0)); [exact H0|].
    apply (shrinks_trans _ (cache w1)); assumption. }
  destruct (setWithStrategy_accepts (now w2)
              (generateKey "account_audit" params) audit ApiCache.medium
              (cache w2) Hacc2) as (success & c' & Hset).
  rewrite Hset. eauto.
Qed.

End ExecuteFacts.

(** ** Failed reads *)

Section FailedReads.
Variable env : Environment.

Lemma buildAudit_sections (e : option Opaque) (gr : option GrowthStats)
      (s : option SubscribersResponse) (t : option TagsResponse)
      (sq : option SequencesResponse) (f : option FormsResponse)
      (c : option CustomFieldsResponse) (w : World) :
  let report := fst (buildAudit env e gr s t sq f c w) in
  account_summary report = buildAccountSummary e gr (totalSubscribers_of s)
  /\ (t = None -> segmentation_analysis report = empty_segmentation)
  /\ (sq = None -> automation_overview report = empty_automation)
  /\ (f = None -> lead_capture_analysis report = empty_lead_capture)
  /\ (c = None -> custom_fields_usage report = []).
Proof.
  cbv zeta. unfold buildAudit.
  destruct (buildSegmentationAnalysis env _ w) as [seg w1] eqn:Hseg.
  destruct (buildAutomationOverview env _ w1) as [aut w2] eqn:Haut.
  destruct (buildLeadCaptureAnalysis env _ w2) as [lead w3] eqn:Hlead.
  cbn [fst account_summary segmentation_analysis automation_overview
       lead_capture_analysis custom_fields_usage].
  split; [reflexivity|]. repeat split; intros ->.
  - cbn in Hseg. now injection Hseg as <- _.
  - cbn in Haut. now injection Haut as <- _.
  - cbn in Hlead. now injection Hlead as <- _.
  - reflexivity.
Qed.

End FailedReads.

(** C1, as the code has it.  Provided the cache can take the finished
    report (caching is off, or the store holds fewer keys than its cap
    when [execute] starts), [execute] resolves whatever the remote reads
    did: with the cached report, or, when the fan-out is reached, with
    the report built from the settled reads, a rejected read counting
    as [null].  A [null] leaves its section empty: no tags, no
    sequences, no forms, no custom fields, a subscriber total of 0, a
    growth rate of 0; the account and e-mail statistics reads do not
    show in the report at all. *)
Theorem execute_tolerates_failed_reads :
  (forall (env : Environment) (params : Params) (w : World),
      accepts (cache w) ->
      exists report w',
        execute env params w = (Fulfilled report, w')
        /\ (fst (cache_read params w) = None ->
            let w0 := snd (cache_read params w) in
            report
            = fst (audit_of env (fst (fanOut env w0)) (snd (fanOut env w0)))))
  /\ (forall (A : Type) (reason : string),
         getResult (@Rejected A reason) = None)
  /\ (forall (env : Environment) (e : option Opaque) (gr : option GrowthStats)
             (s : option SubscribersResponse) (t : option TagsResponse)
             (sq : option SequencesResponse) (f : option FormsResponse)
             (c : option CustomFieldsResponse) (w : World),
         let report := fst (buildAudit env e gr s t sq f c w) in
         account_summary report
         = buildAccountSummary e gr (totalSubscribers_of s)
         /\ (t = None -> segmentation_analysis report = empty_segmentation)
         /\ (sq = None -> automation_overview report = empty_automation)
         /\ (f = None -> lead_capture_analysis report = empty_lead_capture)
         /\ (c = None -> custom_fields_usage report = []))
  /\ (forall (e : option Opaque) (gr : option GrowthStats),
         total_subscribers
           (buildAccountSummary e gr (totalSubscribers_of None)) = 0%Q
         /\ growth_rate_30d (buildAccountSummary e None 0) = 0%Q)
  /\ (forall (env : Environment) (e e' : option Opaque)
             (gr : option GrowthStats)
             (s : option SubscribersResponse) (t : option TagsResponse)
             (sq : option SequencesResponse) (f : option FormsResponse)
             (c : option CustomFieldsResponse) (w : World),
         buildAudit env e gr s t sq f c w = buildAudit env e' gr s t sq f c w).
Proof.
  split; [exact execute_resolves|].
  split; [reflexivity|].
  split; [exact buildAudit_sections|].
  split; [split; reflexivity|].
  reflexivity.
Qed.

(** With [getAccount] rejecting and the default cache, [execute] resolves
    with the report of the other seven reads. *)
Lemma execute_tolerates_failed_reads_witness :
  exists report w',
    execute (Fixture.environment Fixture.client_account_down) []
            (Fixture.world Fixture.defaults)
    = (Fulfilled report, w')
    /\ (fst (cache_read [] (Fixture.world Fixture.defaults)) = None ->
        let w0 := snd (cache_read [] (Fixture.world Fixture.defaults)) in
        report
        = fst (audit_of (Fixture.environment Fixture.client_account_down)
                 (fst (fanOut (Fixture.environment Fixture.client_account_down)
                              w0))
                 (snd (fanOut (Fixture.environment Fixture.client_account_down)
                              w0)))).
Proof.
  apply (proj1 execute_tolerates_failed_reads).
  right. reflexivity.
Defined.

(** C1 as stated fails when the store is at its cap: the fan-out is
    reached, [getAccount] rejects, and [execute] rejects with the
    wrapped error of the cache write. *)
Lemma execute_rejects_at_key_cap :
  fst (cache_read [] Fixture.full_world) = None
  /\ getAccount Fixture.client_account_down 0 = Rejected "API Error"
  /\ fst (execute (Fixture.environment Fixture.client_account_down) []
                  Fixture.full_world)
     = Rejected
         "Failed to generate account audit: Cache max keys amount exceeded"
  /\ ~ (exists report w',
           execute (Fixture.environment Fixture.client_account_down) []
                   Fixture.full_world
           = (Fulfilled report, w')).
Proof.
  assert (H : fst (execute (Fixture.environment Fixture.client_account_down) []
                           Fixture.full_world)
              = Rejected
                  "Failed to generate account audit: Cache max keys amount exceeded")
    by (vm_compute; reflexivity).
  split; [vm_compute; reflexivity|].
  split; [reflexivity|].
  split; [exact H|].
  intros (report & w' & E). rewrite E in H. discriminate H.
Qed.

(** ** Serving the report from the cache *)

Section ServedFromCache.

Lemma ApiCache_get_Some {V} (now : Z) (key : string) (c c' : ApiCache.t V)
      (x : V) :
  ApiCache.get now key c = (Some x, c') ->
  exists entry,
    NodeCache.data (ApiCache.cache c) !! key = Some entry
    /\ NodeCache.v entry = x
    /\ NodeCache.live now entry = true
    /\ NodeCache.data (ApiCache.cache c') = NodeCache.data (ApiCache.cache c).
Proof.
  unfold ApiCache.get, NodeCache.get.
  destruct (negb _); [discriminate|].
  destruct (NodeCache.data (ApiCache.cache c) !! key) as [entry|];
    [|discriminate].
  destruct (NodeCache.live now entry) eqn:Hlive; [|discriminate].
  intros H. injection H as <- <-. exists entry. auto.
Qed.

Lemma ApiCache_get_live {V} (now : Z) (key : string) (c : ApiCache.t V)
      (entry : NodeCache.Wrapped V) :
  ApiCache.enabled (ApiCache.config c) = true ->
  NodeCache.data (ApiCache.cache c) !! key = Some entry ->
  NodeCache.live now entry = true ->
  exists c', ApiCache.get now key c = (Some (NodeCache.v entry), c').
Proof.
  intros Hon Hlook Hlive. unfold ApiCache.get, NodeCache.get.
  rewrite Hon, Hlook, Hlive. cbn. eauto.
Qed.

Lemma sweep_keeps_live {V} (now : Z) (key : string) (c : ApiCache.t V)
      (entry : NodeCache.Wrapped V) :
  NodeCache.data (ApiCache.cache c) !! key = Some entry ->
  NodeCache.live now entry = true ->
  NodeCache.data (ApiCache.cache (ApiCache.sweep now c)) !! key = Some entry.
Proof.
  intros Hlook Hlive. cbn. apply map_lookup_filter_Some. auto.
Qed.

(** The second call: a live entry under the key is returned and no
    remote call is made. *)
Lemma execute_hit (env : Environment) (params : Params) (w : World)
      (entry : NodeCache.Wrapped AccountAudit) :
  ApiCache.enabled (ApiCache.config (cache w)) = true ->
  truthy (get_prop params "include_performance") = false ->
  NodeCache.data (ApiCache.cache (cache w))
    !! generateKey "account_audit" params = Some entry ->
  NodeCache.live (now w) entry = true ->
  exists w',
    execute env params w = (Fulfilled (NodeCache.v entry), w')
    /\ calls w' = calls w.
Proof.
  intros Hon Hperf Hlook Hlive. unfold execute, cache_read. rewrite Hperf.
  cbn [negb].
  destruct (ApiCache_get_live (now w) _ (cache w) entry Hon Hlook Hlive)
    as [c' ->].
  eexists. split; reflexivity.
Qed.

(** The first call, when it builds the report: the entry it leaves. *)
Lemma execute_stores (env : Environment) (params : Params) (w w1 : World)
      (report : AccountAudit) :
  ApiCache.enabled (ApiCache.config (cache w)) = true ->
  fst (cache_read params w) = None ->
  execute env params w = (Fulfilled report, w1) ->
  NodeCache.data (ApiCache.cache (cache w1))
    !! generateKey "account_audit" params
  = Some {| NodeCache.t := now w1 + 900000; NodeCache.v := report |}
  /\ ApiCache.enabled (ApiCache.config (cache w1)) = true.
Proof.
  intros Hon Hmiss. unfold execute.
  pose proof (shrinks_cache_read params w) as H0.
  destruct (cache_read params w) as [cached w0]; cbn [fst snd] in *.
  subst cached.
  pose proof (shrinks_fanOut env w0) as H1.
  destruct (fanOut env w0) as [g wa]; cbn [fst snd] in *.
  pose proof (shrinks_audit_of env g wa) as H2.
  destruct (audit_of env g wa) as [audit w2]; cbn [fst snd] in *.
  assert (Hon2 : ApiCache.enabled (ApiCache.config (cache w2)) = true).
  { destruct H0 as [E0 _], H1 as [E1 _], H2 as [E2 _]. congruence. }
  unfold ApiCache.setWithStrategy, ApiCache.set, NodeCache.set.
  rewrite Hon2. cbn [negb].
  destruct (NodeCache.full _); [discriminate|].
  intros H. injection H as <- <-. cbn. split; [|exact Hon2].
  apply lookup_insert_eq.
Qed.

(** What a call that resolves leaves in the store, and what the next
    call makes of it. *)
Lemma execute_then_hit (env env2 : Environment) (params : Params)
      (w w1 : World) (report : AccountAudit) :
  ApiCache.enabled (ApiCache.config (cache w)) = true ->
  execute env params w = (Fulfilled report, w1) ->
  exists entry,
    NodeCache.data (ApiCache.cache (cache w1))
      !! generateKey "account_audit" params = Some entry
    /\ NodeCache.v entry = report
    /\ (fst (cache_read params w) = None ->
        NodeCache.t entry = now w1 + 900000)
    /\ (truthy (get_prop params "include_performance") = false ->
        forall (elapsed : N) (swept : bool),
          NodeCache.live (now w1 + Z.of_N elapsed) entry = true ->
          exists w2,
            execute env2 params (later elapsed swept w1)
            = (Fulfilled report, w2)
            /\ calls w2 = calls w1).
Proof.
  intros Hon Hexec.
  assert (Hentry : exists entry,
             NodeCache.data (ApiCache.cache (cache w1))
               !! generateKey "account_audit" params = Some entry
             /\ NodeCache.v entry = report
             /\ (fst (cache_read params w) = None ->
                 NodeCache.t entry = now w1 + 900000)
             /\ ApiCache.enabled (ApiCache.config (cache w1)) = true).
  { destruct (fst (cache_read params w)) as [cached|] eqn:Hread.
    - unfold execute in Hexec. unfold cache_read in *.
      destruct (negb _); [|discriminate].
      destruct (ApiCache.get _ _ _) as [cached' c'] eqn:Hget.
      cbn [fst] in Hread. subst cached'.
      injection Hexec as <- <-.
      pose proof (shrinks_get (now w) (generateKey "account_audit" params)
                              (cache w)) as [Hcfg _].
      rewrite Hget in Hcfg. cbn [snd] in Hcfg.
      destruct (ApiCache_get_Some _ _ _ _ _ Hget)
        as (entry & Hlook & Hv & _ & Hdata).
      exists entry. cbn. rewrite Hdata, Hcfg.
      repeat split; try assumption. discriminate.
    - destruct (execute_stores env params w w1 report Hon Hread Hexec)
        as [Hlook Hon1].
      eexists. split; [exact Hlook|]. cbn. auto. }
  destruct Hentry as (entry & Hlook & Hv & Hexp & Hon1).
  exists entry. repeat split; try assumption.
  intros Hperf elapsed swept Hlive. subst report.
  destruct (execute_hit env2 params (later elapsed swept w1) entry)
    as (w2 & Hexec2 & Hcalls); try assumption.
  - unfold later. cbn. now destruct swept.
  - unfold later. cbn. destruct swept; [|exact Hlook].
    now apply sweep_keeps_live.
  - exists w2. split; [exact Hexec2 | exact Hcalls].
Qed.

(** C4, as the code has it.  With the cache enabled and its store below
    the key cap when the first call starts, [execute] resolves and
    leaves the report in the store under
    [generateKey "account_audit" params]; when the call built the report
    (whether or not performance data was requested) the entry expires
    900 seconds after it was stored, the "medium" time to live.  A
    second call with the same parameters, [include_performance] being
    false, made while that entry is unexpired, returns the same report
    and makes no remote call. *)
Theorem execute_twice_served_from_cache
        (env env2 : Environment) (params : Params) (w : World) :
  ApiCache.enabled (ApiCache.config (cache w)) = true ->
  NodeCache.full (ApiCache.cache (cache w)) = false ->
  ApiCache.ttlMap ApiCache.medium = 900
  /\ exists (report : AccountAudit) (w1 : World),
      execute env params w = (Fulfilled report, w1)
      /\ exists entry,
          NodeCache.data (ApiCache.cache (cache w1))
            !! generateKey "account_audit" params = Some entry
          /\ NodeCache.v entry = report
          /\ (fst (cache_read params w) = None ->
              NodeCache.t entry = now w1 + 900000)
          /\ (truthy (get_prop params "include_performance") = false ->
              forall (elapsed : N) (swept : bool),
                NodeCache.live (now w1 + Z.of_N elapsed) entry = true ->
                exists w2,
                  execute env2 params (later elapsed swept w1)
                  = (Fulfilled report, w2)
                  /\ calls w2 = calls w1).
Proof.
  intros Hon Hroom. split; [reflexivity|].
  destruct (execute_resolves env params w (or_intror Hroom))
    as (report & w1 & Hexec & _).
  exists report, w1. split; [exact Hexec|].
  exact (execute_then_hit env env2 params w w1 report Hon Hexec).
Qed.

End ServedFromCache.

(** The scenario of the test suite: the first call builds and stores the
    report; one second later, the periodic check having fired and every
    remote read now failing, the second call still returns it and calls
    nothing. *)
Lemma execute_twice_served_from_cache_witness :
  let w1 := snd Fixture.first_call in
  fst Fixture.first_call = Fulfilled Fixture.first_report
  /\ exists w2,
      execute (Fixture.environment Fixture.client_account_down)
              Fixture.no_performance (later 1000 true w1)
      = (Fulfilled Fixture.first_report, w2)
      /\ calls w2 = calls w1.
Proof.
  cbv zeta. split; [vm_compute; reflexivity|].
  destruct (execute_twice_served_from_cache
              (Fixture.environment Fixture.client)
              (Fixture.environment Fixture.client_account_down)
              Fixture.no_performance (Fixture.world Fixture.defaults))
    as [_ (report & w1 & Hexec & entry & _ & Hv & Hexpiry & Hsecond)].
  - reflexivity.
  - reflexivity.
  - change (Fixture.first_call = (Fulfilled report, w1)) in Hexec.
    assert (Hreport : report = Fixture.first_report)
      by (unfold Fixture.first_report; rewrite Hexec; reflexivity).
    assert (Hw1 : w1 = snd Fixture.first_call)
      by (rewrite Hexec; reflexivity).
    subst w1. rewrite <- Hreport.
    apply Hsecond; [reflexivity|].
    unfold NodeCache.live. rewrite (Hexpiry eq_refl).
    vm_compute. reflexivity.
Defined.

(** C4 as stated fails when the store is at its key cap: the cache is
    enabled, the first call makes its 14 remote reads and rejects on the
    cache write, nothing is stored under the key, and the second call,
    made straight after, makes the 14 reads again. *)
Lemma execute_twice_at_key_cap :
  let env := Fixture.environment Fixture.client in
  let key := generateKey "account_audit" Fixture.no_performance in
  let first := execute env Fixture.no_performance Fixture.full_world in
  let second := execute env Fixture.no_performance (snd first) in
  ApiCache.enabled (ApiCache.config (cache Fixture.full_world)) = true
  /\ fst first
     = Rejected
         "Failed to generate account audit: Cache max keys amount exceeded"
  /\ length (calls (snd first)) = 14%nat
  /\ NodeCache.data (ApiCache.cache (cache (snd first))) !! key = None
  /\ length (calls (snd second)) = 28%nat
  /\ ~ (exists report w2,
           second = (Fulfilled report, w2) /\ calls w2 = calls (snd first)).
Proof.
  cbv zeta.
  assert (H : length (calls (snd (execute (Fixture.environment Fixture.client)
                Fixture.no_performance
                (snd (execute (Fixture.environment Fixture.client)
                        Fixture.no_performance Fixture.full_world)))))
              = 28%nat) by (vm_compute; reflexivity).
  assert (H1 : length (calls (snd (execute (Fixture.environment Fixture.client)
                 Fixture.no_performance Fixture.full_world))) = 14%nat)
    by (vm_compute; reflexivity).
  split; [reflexivity|]. split; [vm_compute; reflexivity|].
  split; [exact H1|]. split; [vm_compute; reflexivity|].
  split; [exact H|].
  intros (report & w2 & E & Hcalls). rewrite E in H. cbn [snd] in H.
  rewrite Hcalls, H1 in H. discriminate H.
Qed.

(** ** Get or set *)

Section GetOrSet.
Context {V : Type}.

Lemma ApiCache_get_valid (now : Z) (key : string) (c : ApiCache.t V) :
  ApiCache.enabled (ApiCache.config c) = true ->
  fst (ApiCache.get now key c) = ApiCache.valid now key c.
Proof.
  intros Hon. unfold ApiCache.get, ApiCache.valid, NodeCache.get.
  rewrite Hon. cbn [negb].
  destruct (NodeCache.data (ApiCache.cache c) !! key) as [entry|];
    [destruct (NodeCache.live now entry)|]; reflexivity.
Qed.

(** C8, as the code has it.  With the cache enabled: when a valid
    (present, unexpired) value is cached under the key, [getOrSet]
    resolves with it and does not invoke the fetch function, whatever
    that function is.  Otherwise it invokes the fetch function exactly
    once; when that settles with a value and the store then holds fewer
    keys than its cap, the value is stored under the key, with the given
    or default time to live, and [getOrSet] resolves with it. *)
Theorem getOrSet_contract (key : string) (fetchFunction : ApiCache.Fetch)
        (ttl' : option Z) (r : ApiCache.Run) :
  ApiCache.enabled (ApiCache.config (ApiCache.store r)) = true ->
  (forall x : V,
      ApiCache.valid (ApiCache.clock r) key (ApiCache.store r) = Some x ->
      fst (ApiCache.getOrSet key fetchFunction ttl' r) = Fulfilled x
      /\ ApiCache.invocations (snd (ApiCache.getOrSet key fetchFunction ttl' r))
         = ApiCache.invocations r
      /\ forall other : ApiCache.Fetch,
          ApiCache.getOrSet key other ttl' r
          = ApiCache.getOrSet key fetchFunction ttl' r)
  /\ (ApiCache.valid (ApiCache.clock r) key (ApiCache.store r) = None ->
      let c1 := snd (ApiCache.get (ApiCache.clock r) key (ApiCache.store r)) in
      ApiCache.invocations (snd (ApiCache.getOrSet key fetchFunction ttl' r))
      = S (ApiCache.invocations r)
      /\ forall (value : V) (now2 : Z) (c2 : ApiCache.t V),
          fetchFunction (ApiCache.clock r) c1 = (Fulfilled value, now2, c2) ->
          ApiCache.enabled (ApiCache.config c2) = true ->
          NodeCache.full (ApiCache.cache c2) = false ->
          let r' := snd (ApiCache.getOrSet key fetchFunction ttl' r) in
          fst (ApiCache.getOrSet key fetchFunction ttl' r) = Fulfilled value
          /\ ApiCache.clock r' = now2
          /\ NodeCache.data (ApiCache.cache (ApiCache.store r'))
             = <[key := NodeCache.wrap now2 value
                          (ApiCache.ttl_or_default ttl' c2)]>
                 (NodeCache.data (ApiCache.cache c2))
          /\ NodeCache.data (ApiCache.cache (ApiCache.store r')) !! key
             = Some (NodeCache.wrap now2 value
                       (ApiCache.ttl_or_default ttl' c2))).
Proof.
  intros Hon.
  pose proof (ApiCache_get_valid (ApiCache.clock r) key (ApiCache.store r) Hon)
    as Hget.
  split.
  - intros x Hvalid. rewrite Hvalid in Hget. unfold ApiCache.getOrSet.
    destruct (ApiCache.get _ key _) as [cached c1]. cbn [fst] in Hget.
    subst cached. cbn. auto.
  - intros Hvalid. rewrite Hvalid in Hget. cbv zeta.
    unfold ApiCache.getOrSet.
    destruct (ApiCache.get _ key _) as [cached c1]. cbn [fst snd] in *.
    subst cached. split.
    + destruct (fetchFunction _ c1) as [[[value|reason] now2] c2];
        [destruct (ApiCache.set _ _ _ _ _) as [[b c3]|e] |]; reflexivity.
    + intros value now2 c2 Hfetch Hon2 Hroom. rewrite Hfetch.
      unfold ApiCache.set, NodeCache.set. rewrite Hon2, Hroom. cbn.
      repeat split. apply lookup_insert_eq.
Qed.

End GetOrSet.

(** On a fresh default cache the first [getOrSet] fetches and stores. *)
Lemma getOrSet_contract_witness :
  let r := Fixture.run_of (Fixture.world Fixture.defaults) in
  let r' := snd (ApiCache.getOrSet "report" Fixture.fetch_report None r) in
  fst (ApiCache.getOrSet "report" Fixture.fetch_report None r)
  = Fulfilled Fixture.some_report
  /\ ApiCache.invocations r' = 1%nat
  /\ ApiCache.valid (ApiCache.clock r') "report" (ApiCache.store r')
     = Some Fixture.some_report.
Proof.
  cbv zeta.
  destruct (getOrSet_contract "report" Fixture.fetch_report None
              (Fixture.run_of (Fixture.world Fixture.defaults)) eq_refl)
    as [_ Hmiss].
  destruct (Hmiss eq_refl) as [Hcount Hstore].
  destruct (Hstore Fixture.some_report _ _ eq_refl eq_refl eq_refl)
    as (Hres & _ & _ & Hlook).
  split; [exact Hres|]. split; [exact Hcount|].
  unfold ApiCache.valid. rewrite Hlook. reflexivity.
Defined.

(** C8 as stated fails when the store is at its cap: the fetch function
    is invoked once, but its value is neither stored nor returned; the
    cache write throws and [getOrSet] rejects. *)
Lemma getOrSet_at_key_cap :
  let r := Fixture.run_of Fixture.full_world in
  let r' := snd (ApiCache.getOrSet "report" Fixture.fetch_report None r) in
  ApiCache.enabled (ApiCache.config (ApiCache.store r)) = true
  /\ ApiCache.valid (ApiCache.clock r) "report" (ApiCache.store r) = None
  /\ fst (ApiCache.getOrSet "report" Fixture.fetch_report None r)
     = Rejected "Cache max keys amount exceeded"
  /\ ApiCache.invocations r' = 1%nat
  /\ NodeCache.data (ApiCache.cache (ApiCache.store r')) !! "report" = None.
Proof. vm_compute. repeat split. Qed.

(** * Further properties *)

(** ** Backoff delays *)

Section BackoffFacts.
Import RateLimiter Backoff.
Local Open Scope Q_scope.

Lemma Qmult_le_nonneg_l (x y z : Q) : x <= y -> 0 <= z -> z * x <= z * y.
Proof.
  intros Hxy Hz. rewrite !(Qmult_comm z). now apply Qmult_le_compat_r.
Qed.

Lemma exponential_nonneg (attempt : Z) (rl : t) :
  (0 <= retryDelay (config rl))%Z -> 0 <= exponential attempt rl.
Proof.
  intros H. unfold exponential. apply Qmult_le_0_compat.
  - change 0 with (inject_Z 0). now rewrite <- Zle_Qle.
  - apply Qpower_0_le. discriminate.
Qed.

Lemma getBackoffDelay_Qmin (random : Q) (attempt : Z) (rl : t) :
  getBackoffDelay random attempt rl
  == Qmin (exponential attempt rl
           + random * (1 # 10) * exponential attempt rl)
          (inject_Z (maxRetryDelay (config rl))).
Proof. unfold getBackoffDelay. rewrite Math_min_Qmin. reflexivity. Qed.

(** X1. The backoff delay never exceeds [maxRetryDelay].  For a base
    delay that is not negative, it is at least the smaller of
    [retryDelay * 2^(attempt-1)] and [maxRetryDelay], and the jitter adds
    less than a tenth to [retryDelay * 2^(attempt-1)]. *)
Theorem getBackoffDelay_bounds (random : Q) (attempt : Z) (rl : t) :
  0 <= random -> random < 1 -> (0 <= retryDelay (config rl))%Z ->
  getBackoffDelay random attempt rl <= inject_Z (maxRetryDelay (config rl))
  /\ Qmin (exponential attempt rl) (inject_Z (maxRetryDelay (config rl)))
     <= getBackoffDelay random attempt rl
  /\ getBackoffDelay random attempt rl <= exponential attempt rl * (11 # 10).
Proof.
  intros Hr0 Hr1 Hbase.
  pose proof (exponential_nonneg attempt rl Hbase) as He.
  rewrite !getBackoffDelay_Qmin.
  set (e := exponential attempt rl) in *.
  assert (Hj0 : 0 <= random * (1 # 10) * e).
  { apply Qmult_le_0_compat; [|exact He].
    apply Qmult_le_0_compat; [exact Hr0 | discriminate]. }
  assert (Hj1 : random * (1 # 10) * e <= (1 # 10) * e).
  { apply Qmult_le_compat_r; [|exact He]. lra. }
  split; [apply Q.le_min_r|]. split.
  - apply Q.min_le_compat_r. lra.
  - eapply Qle_trans; [apply Q.le_min_l|]. lra.
Qed.

Lemma getBackoffDelay_bounds_witness :
  let rl := new {| requestsPerMinute := 120; burstLimit := 10;
                   retryDelay := 1000; maxRetryDelay := 10000 |} in
  getBackoffDelay (1 # 2) 3 rl <= inject_Z 10000
  /\ Qmin (exponential 3 rl) (inject_Z 10000) <= getBackoffDelay (1 # 2) 3 rl
  /\ getBackoffDelay (1 # 2) 3 rl <= exponential 3 rl * (11 # 10).
Proof.
  apply (getBackoffDelay_bounds (1 # 2) 3); [discriminate | reflexivity|].
  simpl. lia.
Defined.

(** X2. With the same jitter draw, a later attempt never gets a shorter
    delay: the delay doubles with each attempt until [maxRetryDelay]
    caps it. *)
Theorem getBackoffDelay_monotone (random : Q) (attempt attempt' : Z) (rl : t) :
  0 <= random -> (0 <= retryDelay (config rl))%Z ->
  (attempt <= attempt')%Z ->
  getBackoffDelay random attempt rl <= getBackoffDelay random attempt' rl
  /\ exponential (attempt + 1) rl == 2 * exponential attempt rl.
Proof.
  intros Hr0 Hbase Hle. split.
  - rewrite !getBackoffDelay_Qmin. apply Q.min_le_compat_r.
    assert (He : exponential attempt rl <= exponential attempt' rl).
    { unfold exponential. apply Qmult_le_nonneg_l.
      - apply Qpower_le_compat_l; [lia | discriminate].
      - change 0 with (inject_Z 0). now rewrite <- Zle_Qle. }
    pose proof (exponential_nonneg attempt rl Hbase) as H0.
    set (e := exponential attempt rl) in *.
    set (e' := exponential attempt' rl) in *.
    assert (Hj : random * (1 # 10) * e <= random * (1 # 10) * e').
    { rewrite <- !Qmult_assoc. apply Qmult_le_nonneg_l; [|exact Hr0].
      apply Qmult_le_nonneg_l; [exact He | discriminate]. }
    lra.
  - unfold exponential.
    replace (attempt + 1 - 1)%Z with ((attempt - 1) + 1)%Z by lia.
    rewrite Qpower_plus by discriminate. rewrite Qpower_1_r. ring.
Qed.

Lemma getBackoffDelay_monotone_witness :
  let rl := new {| requestsPerMinute := 120; burstLimit := 10;
                   retryDelay := 1000; maxRetryDelay := 10000 |} in
  getBackoffDelay (1 # 2) 2 rl <= getBackoffDelay (1 # 2) 5 rl
  /\ exponential (2 + 1) rl == 2 * exponential 2 rl.
Proof.
  apply (getBackoffDelay_monotone (1 # 2) 2 5); [discriminate | simpl; lia | lia].
Defined.

End BackoffFacts.

(** ** Status, waiting and admission *)

Section LimiterFacts.
Import RateLimiter.

Lemma purge_purge (now now' : Z) (rs : list RequestRecord) :
  now <= now' -> purge now' (purge now rs) = purge now' rs.
Proof.
  intros Hle. unfold purge. induction rs as [|r rs IH]; [reflexivity|].
  cbn [List.filter].
  destruct (Z.ltb_spec (now - 60000) (timestamp r));
    destruct (Z.ltb_spec (now' - 60000) (timestamp r)) as [H'|H'];
    cbn [List.filter]; try rewrite IH.
  - apply Z.ltb_lt in H'. now rewrite H'.
  - apply Z.ltb_ge in H'. now rewrite H'.
  - lia.
  - reflexivity.
Qed.

Lemma purge_head_live (now : Z) (rs rest : list RequestRecord)
      (o : RequestRecord) :
  purge now rs = o :: rest -> now - 60000 < timestamp o.
Proof.
  intros H. assert (Hin : In o (purge now rs)) by (rewrite H; now left).
  unfold purge in Hin. apply filter_In in Hin as [_ Hlt].
  now apply Z.ltb_lt in Hlt.
Qed.

(** X3. [getStatus] purges exactly as [canMakeRequest] does and agrees
    with it: requests remain if and only if [canMakeRequest] answers
    true at the same instant.  [remainingRequests] is never negative,
    [resetTime] is never in the past, and when the window is not empty
    [resetTime] is the first instant at which its oldest entry is no
    longer counted.  Along a run with a clock that never goes back,
    [resetTime] is at most 60 seconds ahead. *)
Theorem getStatus_agrees_with_canMakeRequest :
  (forall (now : Z) (rl : t),
      let status := fst (getStatus now rl) in
      snd (getStatus now rl) = snd (canMakeRequest now rl)
      /\ requestsInLastMinute status = trailing_sum now (requests rl)
      /\ 0 <= remainingRequests status
      /\ (0 < remainingRequests status <-> fst (canMakeRequest now rl) = true)
      /\ now <= resetTime status
      /\ forall (oldest : RequestRecord) (rest : list RequestRecord),
          requests (snd (getStatus now rl)) = oldest :: rest ->
          now < resetTime status
          /\ In oldest (purge (resetTime status - 1) (oldest :: rest))
          /\ ~ In oldest (purge (resetTime status) (oldest :: rest)))
  /\ (forall (cfg : RateLimitConfig) (t0 : Z) (ops : list (N * Op)) (d : N),
         let '(now, rl) := run ops t0 (new cfg) in
         resetTime (fst (getStatus (now + Z.of_N d) rl))
         <= now + Z.of_N d + 60000).
Proof.
  split.
  - intros now rl. cbv zeta. unfold getStatus, canMakeRequest.
    cbn [fst snd set_requests requests config requestsInLastMinute
         remainingRequests resetTime].
    rewrite total_purge.
    split; [reflexivity|]. split; [reflexivity|]. split; [lia|].
    split; [rewrite Z.ltb_lt; lia|].
    destruct (purge now (requests rl)) as [|o rest'] eqn:Hp.
    + split; [lia | discriminate].
    + pose proof (purge_head_live _ _ _ _ Hp) as Hlive.
      split; [lia|]. intros oldest rest Heq. injection Heq as -> ->.
      split; [lia|]. unfold purge. split.
      * apply filter_In. split; [now left|]. apply Z.ltb_lt. lia.
      * intros Hin. apply filter_In in Hin as [_ Hlt].
        apply Z.ltb_lt in Hlt. lia.
  - intros cfg t0 ops d.
    assert (H0 : window_inv t0 (requests (new cfg))) by (split; constructor).
    pose proof (run_inv ops t0 (new cfg) H0) as H.
    destruct (run ops t0 (new cfg)) as [now rl]. destruct H as [_ [_ Hb]].
    unfold getStatus. cbn [fst resetTime set_requests requests].
    destruct (purge (now + Z.of_N d) (requests rl)) as [|o rest] eqn:Hp;
      [lia|].
    assert (Hin : In o (requests rl)).
    { assert (Hin : In o (purge (now + Z.of_N d) (requests rl)))
        by (rewrite Hp; now left).
      unfold purge in Hin. now apply filter_In in Hin. }
    rewrite List.Forall_forall in Hb. specialize (Hb o Hin). simpl in Hb. lia.
Qed.

(** X4. Checking consumes nothing: [canMakeRequest] and [getStatus] only
    drop entries that no later check would count, so a check made
    after any earlier check answers as if the earlier one had not been
    made. *)
Theorem checks_do_not_consume :
  forall (now : Z) (d : N) (rl : t),
    canMakeRequest (now + Z.of_N d) (snd (canMakeRequest now rl))
    = canMakeRequest (now + Z.of_N d) rl
    /\ canMakeRequest (now + Z.of_N d) (snd (getStatus now rl))
       = canMakeRequest (now + Z.of_N d) rl
    /\ getStatus (now + Z.of_N d) (snd (canMakeRequest now rl))
       = getStatus (now + Z.of_N d) rl
    /\ total (requests (snd (canMakeRequest now rl)))
       = trailing_sum now (requests rl).
Proof.
  intros now d rl.
  assert (Hle : now <= now + Z.of_N d) by lia.
  unfold canMakeRequest, getStatus.
  cbn [fst snd set_requests requests config].
  rewrite !(purge_purge _ _ _ Hle), !total_purge. repeat split.
Qed.

(** X5. What [waitForAvailability] leaves behind.  If it admits, at clock
    reading [now'], the window is the purged window followed by one
    entry of count 1 stamped [now'], and the counts of the last minute
    were below the limit at that instant: it never admits when
    [canMakeRequest] would answer false.  While it is still waiting,
    nothing has been recorded. *)
Theorem waitForAvailability_outcome (fuel : nat) (late : nat -> N) :
  forall (now : Z) (rl : t),
    let '(admitted, now', rl') := waitForAvailability fuel late now rl in
    now <= now'
    /\ config rl' = config rl
    /\ if admitted
       then requests rl'
            = purge now' (requests rl) ++ [{| timestamp := now'; count := 1 |}]
            /\ fst (canMakeRequest now' rl) = true
       else requests rl' = purge now' (requests rl)
            /\ fst (canMakeRequest now' rl) = false.
Proof.
  induction fuel as [|fuel IH]; intros now rl; cbn [waitForAvailability].
  - unfold canMakeRequest. cbn [set_requests requests config fst].
    destruct (Z.ltb _ _) eqn:Hok; cbn; (split; [lia|]); auto.
  - unfold canMakeRequest at 1. cbn [set_requests requests config].
    destruct (Z.ltb _ _) eqn:Hok.
    + unfold canMakeRequest. cbn. split; [lia|]. auto.
    + match goal with
      | |- context [waitForAvailability fuel late ?n ?r] =>
          specialize (IH n r); assert (Hn : now <= n) by lia;
          destruct (waitForAvailability fuel late n r) as [[ok now'] rl']
      end.
      cbn [requests config] in IH. destruct IH as (Hle & Hcfg & Hres).
      assert (Hle' : now <= now') by lia.
      split; [exact Hle'|]. split; [exact Hcfg|].
      unfold canMakeRequest in *. cbn [fst set_requests requests config] in *.
      rewrite (purge_purge _ _ _ Hle') in Hres. exact Hres.
Qed.

Lemma purge_all_old (now : Z) (rs : list RequestRecord) :
  Forall (fun r => timestamp r <= now - 60000) rs -> purge now rs = [].
Proof.
  unfold purge. induction 1 as [|r rs Hr _ IH]; [reflexivity|].
  cbn [List.filter]. destruct (Z.ltb_spec (now - 60000) (timestamp r));
    [lia | exact IH].
Qed.

Lemma total_nil_lt (rl : t) :
  0 < requestsPerMinute (config rl) ->
  Z.ltb (total []) (requestsPerMinute (config rl)) = true.
Proof. intros H. apply Z.ltb_lt. exact H. Qed.

Lemma waitForAvailability_admits_within (fuel : nat) (late : nat -> N) :
  forall (now bound : Z) (rl : t),
    0 < requestsPerMinute (config rl) ->
    1 <= maxRetryDelay (config rl) ->
    Forall (fun r => timestamp r <= bound) (requests rl) ->
    bound + 60000 - now <= Z.of_nat fuel ->
    fst (fst (waitForAvailability fuel late now rl)) = true.
Proof.
  induction fuel as [|fuel IH]; intros now bound rl Hrpm Hmax Hb Hfuel;
    cbn [waitForAvailability]; unfold canMakeRequest;
    cbn [set_requests requests config].
  - assert (Hp : purge now (requests rl) = []).
    { apply purge_all_old. eapply List.Forall_impl; [|exact Hb].
      simpl. intros r Hr. lia. }
    rewrite Hp, (total_nil_lt rl Hrpm). reflexivity.
  - destruct (Z.ltb _ _) eqn:Hok; [reflexivity|].
    destruct (purge now (requests rl)) as [|o rest] eqn:Hp.
    { rewrite (total_nil_lt rl Hrpm) in Hok. discriminate. }
    pose proof (purge_head_live _ _ _ _ Hp) as Hlive.
    apply (IH _ bound); cbn [requests config]; try assumption.
    + assert (Hsub : Forall (fun r => timestamp r <= bound)
                            (purge now (requests rl))).
      { eapply Forall_sublist; [apply purge_sublist | exact Hb]. }
      now rewrite Hp in Hsub.
    + unfold waitTime, set_requests. cbn [requests]. lia.
Qed.

Lemma waitForAvailability_alone (fuel : nat) (late : nat -> N)
      (others : nat -> Z -> list RequestRecord) :
  SharedLimiter.alone others ->
  forall (now : Z) (rl : t),
    SharedLimiter.waitForAvailability fuel late others now rl
    = waitForAvailability fuel late now rl.
Proof.
  intros Halone. induction fuel as [|fuel IH]; intros now rl;
    cbn [SharedLimiter.waitForAvailability waitForAvailability];
    destruct (canMakeRequest now rl) as [[|] rl1]; try reflexivity.
  rewrite Halone, app_nil_r, IH. now destruct rl1.
Qed.

Lemma purge_app (now : Z) (rs rs' : list RequestRecord) :
  purge now (rs ++ rs') = purge now rs ++ purge now rs'.
Proof. unfold purge. apply List.filter_app. Qed.

Lemma total_app (rs rs' : list RequestRecord) :
  total (rs ++ rs') = total rs + total rs'.
Proof.
  induction rs as [|r rs IH]; [reflexivity|].
  cbn [app]. rewrite !total_cons, IH. lia.
Qed.

Lemma total_nonneg_counts (rs : list RequestRecord) :
  Forall (fun r => 0 <= count r) rs -> 0 <= total rs.
Proof.
  induction 1 as [|r rs Hr _ IH]; [reflexivity|]. rewrite total_cons. lia.
Qed.

Lemma overtaking_kept (cfg : RateLimitConfig) (i : nat) (now : Z) :
  purge now (SharedLimiter.overtaking cfg i now)
  = SharedLimiter.overtaking cfg i now
  /\ requestsPerMinute cfg <= total (SharedLimiter.overtaking cfg i now)
  /\ Forall (fun r => 0 <= count r) (SharedLimiter.overtaking cfg i now).
Proof.
  unfold SharedLimiter.overtaking.
  set (e := {| timestamp := now; count := 1 |}).
  assert (H : forall n : nat,
             purge now (repeat e n) = repeat e n
             /\ total (repeat e n) = Z.of_nat n
             /\ Forall (fun r => 0 <= count r) (repeat e n)).
  { induction n as [|n (IH1 & IH2 & IH3)];
      [repeat split; constructor|].
    cbn [repeat]. unfold purge in *. cbn [List.filter timestamp e].
    destruct (Z.ltb_spec (now - 60000) now); [|lia].
    rewrite IH1, total_cons, IH2. repeat split; [cbn; lia|].
    constructor; [cbn; lia | exact IH3]. }
  destruct (H (Z.to_nat (requestsPerMinute cfg))) as (H1 & H2 & H3).
  split; [exact H1|]. split; [rewrite H2; lia | exact H3].
Qed.

Lemma waitForAvailability_overtaken (fuel : nat) (late : nat -> N) :
  forall (now : Z) (rl : t),
    Forall (fun r => 0 <= count r) (requests rl) ->
    fst (canMakeRequest now rl) = false ->
    fst (fst (SharedLimiter.waitForAvailability fuel late
                (SharedLimiter.overtaking (config rl)) now rl)) = false.
Proof.
  induction fuel as [|fuel IH]; intros now rl Hc Hblocked;
    cbn [SharedLimiter.waitForAvailability];
    destruct (canMakeRequest now rl) as [ok rl1] eqn:Hcan;
    cbn [fst] in Hblocked; subst ok; [reflexivity|].
  assert (Hrl1 : rl1 = set_requests rl (purge now (requests rl)))
    by (unfold canMakeRequest in Hcan; now injection Hcan as _ <-).
  set (now' := now + _ + _).
  assert (Hcfg : config rl1 = config rl) by (now rewrite Hrl1).
  set (rl2 := set_requests rl1 _).
  replace (config rl) with (config rl2) by (now rewrite <- Hcfg).
  destruct (overtaking_kept (config rl) fuel now') as (Hkept & Htotal & Hpos).
  assert (Hc1 : Forall (fun r => 0 <= count r) (requests rl1)).
  { rewrite Hrl1. cbn [set_requests requests].
    eapply Forall_sublist; [apply purge_sublist | exact Hc]. }
  apply IH.
  - unfold rl2. cbn [set_requests requests]. apply Forall_app.
    split; [exact Hc1 | exact Hpos].
  - unfold canMakeRequest, rl2. cbn [set_requests requests config fst].
    rewrite purge_app, Hkept, total_app, Hcfg. apply Z.ltb_ge.
    pose proof (total_nonneg_counts (purge now' (requests rl1))
                  (Forall_sublist _ _ _ (purge_sublist _ _) Hc1)).
    lia.
Qed.

(** X6. Alone, the limiter always ends up admitting; shared, it may
    never.  With a positive limit and a [maxRetryDelay] of at least one
    millisecond, from a window with no entry stamped in the future, a
    call of [waitForAvailability] during whose sleeps no other call
    records a request is admitted after at most 60000 sleeps, however
    late the timers fire.  There is no such bound once other calls use
    the limiter while it sleeps: a blocked call that is overtaken at
    every wake-up is never admitted, however long it goes on. *)
Theorem waitForAvailability_admits :
  (forall (fuel : nat) (late : nat -> N)
          (others : nat -> Z -> list RequestRecord) (now : Z) (rl : t),
      0 < requestsPerMinute (config rl) ->
      1 <= maxRetryDelay (config rl) ->
      Forall (fun r => timestamp r <= now) (requests rl) ->
      60000 <= Z.of_nat fuel ->
      SharedLimiter.alone others ->
      fst (fst (SharedLimiter.waitForAvailability fuel late others now rl))
      = true)
  /\ (forall (fuel : nat) (late : nat -> N) (now : Z) (rl : t),
         Forall (fun r => 0 <= count r) (requests rl) ->
         fst (canMakeRequest now rl) = false ->
         fst (fst (SharedLimiter.waitForAvailability fuel late
                     (SharedLimiter.overtaking (config rl)) now rl))
         = false).
Proof.
  split.
  - intros fuel late others now rl Hrpm Hmax Hb Hfuel Halone.
    rewrite (waitForAvailability_alone fuel late others Halone).
    apply (waitForAvailability_admits_within fuel late now now);
      try assumption.
    lia.
  - intros fuel late now rl. apply waitForAvailability_overtaken.
Qed.

(** A limit of one request a minute and a window that holds one recent
    request: alone, the call is admitted; overtaken, it is still
    waiting after 100000 sleeps. *)
Lemma waitForAvailability_admits_witness :
  let rl := recordRequest 900 1
              (new {| requestsPerMinute := 1; burstLimit := 10;
                      retryDelay := 1000; maxRetryDelay := 10000 |}) in
  fst (fst (SharedLimiter.waitForAvailability (Z.to_nat 60000)
              (fun _ => 3%N) (fun _ _ => []) 1000 rl)) = true
  /\ fst (fst (SharedLimiter.waitForAvailability (Z.to_nat 100000)
                 (fun _ => 3%N) (SharedLimiter.overtaking (config rl))
                 1000 rl)) = false.
Proof.
  cbv zeta. split.
  - apply (proj1 waitForAvailability_admits).
    + simpl. lia.
    + simpl. lia.
    + repeat constructor. simpl. lia.
    + lia.
    + intros i now'. reflexivity.
  - apply (proj2 waitForAvailability_admits).
    + repeat constructor. simpl. lia.
    + reflexivity.
Defined.

End LimiterFacts.

Section BlockedLimiter.
Import RateLimiter.

Lemma total_nonneg (rs : list RequestRecord) :
  Forall (fun r => 0 <= count r) rs -> 0 <= total rs.
Proof.
  induction 1 as [|r rs Hr _ IH]; [reflexivity|]. rewrite total_cons. lia.
Qed.

(** X7. A limit that is not positive blocks for ever: with no negative
    count in the window, [waitForAvailability] never admits, however
    long it sleeps, and records nothing. *)
Theorem waitForAvailability_blocked (fuel : nat) (late : nat -> N) :
  forall (now : Z) (rl : t),
    requestsPerMinute (config rl) <= 0 ->
    Forall (fun r => 0 <= count r) (requests rl) ->
    fst (fst (waitForAvailability fuel late now rl)) = false
    /\ sublist (requests (snd (waitForAvailability fuel late now rl)))
               (requests rl).
Proof.
  induction fuel as [|fuel IH]; intros now rl Hrpm Hc;
    cbn [waitForAvailability]; unfold canMakeRequest;
    cbn [set_requests requests config];
    pose proof (purge_sublist now (requests rl)) as Hsub;
    pose proof (total_nonneg _ (Forall_sublist _ _ _ Hsub Hc)) as Ht;
    (destruct (Z.ltb_spec (total (purge now (requests rl)))
                          (requestsPerMinute (config rl))) as [Hlt|_];
     [lia|]).
  - split; [reflexivity | exact Hsub].
  - match goal with
    | |- context [waitForAvailability fuel late ?n ?r] =>
        destruct (IH n r) as [Hno Hsub']
    end.
    + exact Hrpm.
    + cbn [requests]. eapply Forall_sublist; eassumption.
    + split; [exact Hno|]. etrans; [exact Hsub' | exact Hsub].
Qed.

Lemma waitForAvailability_blocked_witness :
  let rl := recordRequest 900 1
              (new {| requestsPerMinute := 0; burstLimit := 10;
                      retryDelay := 1000; maxRetryDelay := 10000 |}) in
  fst (fst (waitForAvailability 5 (fun _ => 0%N) 1000 rl)) = false
  /\ sublist (requests (snd (waitForAvailability 5 (fun _ => 0%N) 1000 rl)))
             (requests rl).
Proof.
  apply waitForAvailability_blocked.
  - simpl. lia.
  - repeat constructor. simpl. lia.
Defined.

End BlockedLimiter.

(** ** The client's requests *)

Section ClientRequestFacts.
Import RateLimiter ClientRequests.

(** X8. Every answered request is counted twice.  A request that goes
    through the client's interceptors is admitted by
    [waitForAvailability], which records it, and when the response
    arrives the response interceptor records it again: the window gains
    two entries of count 1 (one if the request fails). *)
Theorem request_counted_twice (fuel : nat) (late : nat -> N) (latency : N)
        (answered : bool) (now now2 : Z) (rl rl2 : t) :
  request fuel late latency answered now rl = Some (now2, rl2) ->
  exists now1,
    now <= now1 /\ now2 = now1 + Z.of_N latency
    /\ fst (canMakeRequest now1 rl) = true
    /\ requests rl2
       = purge now1 (requests rl)
         ++ {| timestamp := now1; count := 1 |}
         :: (if answered then [{| timestamp := now2; count := 1 |}] else [])
    /\ total (requests rl2)
       = trailing_sum now1 (requests rl) + (if answered then 2 else 1).
Proof.
  unfold request.
  pose proof (waitForAvailability_outcome fuel late now rl) as H.
  destruct (waitForAvailability fuel late now rl) as [[admitted now1] rl1].
  destruct H as (Hle & _ & Hres).
  destruct admitted; [|discriminate]. destruct Hres as [Hreq Hok].
  intros E. injection E as <- <-. exists now1.
  split; [exact Hle|]. split; [reflexivity|]. split; [exact Hok|].
  assert (Hsum : forall extra,
             total (purge now1 (requests rl) ++ extra)
             = trailing_sum now1 (requests rl) + total extra).
  { intros extra. rewrite <- total_purge. unfold total at 1.
    rewrite fold_left_app, total_from. reflexivity. }
  destruct answered; cbn [recordRequest set_requests requests].
  - rewrite Hreq, <- app_assoc. cbn [app]. split; [reflexivity|].
    rewrite Hsum. reflexivity.
  - rewrite Hreq. split; [reflexivity|]. rewrite Hsum. reflexivity.
Qed.

Lemma request_counted_twice_witness :
  let cfg := {| requestsPerMinute := 120; burstLimit := 10;
                retryDelay := 1000; maxRetryDelay := 10000 |} in
  exists now1,
    1000 <= now1 /\ 1040 = now1 + Z.of_N 40
    /\ fst (canMakeRequest now1 (new cfg)) = true
    /\ requests {| requests := [{| timestamp := 1000; count := 1 |};
                                {| timestamp := 1040; count := 1 |}];
                   config := cfg |}
       = purge now1 (requests (new cfg))
         ++ {| timestamp := now1; count := 1 |}
         :: (if true then [{| timestamp := 1040; count := 1 |}] else [])
    /\ total (requests {| requests := [{| timestamp := 1000; count := 1 |};
                                       {| timestamp := 1040; count := 1 |}];
                          config := cfg |})
       = trailing_sum now1 (requests (new cfg)) + (if true then 2 else 1).
Proof.
  cbv zeta.
  apply (request_counted_twice 0 (fun _ => 0%N) 40 true 1000 1040).
  reflexivity.
Defined.



End ClientRequestFacts.

(** ** The response cache: switched off, counters, hit rate *)

Section CacheSwitchedOff.
Context {V : Type}.
Import ApiCache ApiCacheRest.

Lemma step_switched_off (cfg : CacheConfig) (now : Z) (call : @Call V) :
  enabled cfg = false ->
  step now call (new cfg) = (new cfg, match call with
                                      | CallGet _ => [None]
                                      | _ => []
                                      end).
Proof.
  intros Hoff.
  destruct call; cbn [step]; unfold get, set, setWithStrategy, set, del, has,
    clear, invalidatePattern; cbn [new config]; rewrite ?Hoff; cbn [negb snd];
    reflexivity.
Qed.

(** X10. A cache created with [enabled: false] stays exactly as it was
    created, whatever calls are made on it ([get], [set],
    [setWithStrategy], [del], [has], [clear], [invalidatePattern], at
    any times): it never holds a key, never counts a hit or a miss, and
    every [get] returns nothing. *)
Theorem switched_off_cache_is_inert (defaultTtl size period : Z)
        (calls : list (Z * @Call V)) :
  let cfg := {| enabled := false; ttl := defaultTtl; maxSize := size;
                checkPeriod := period |} in
  fst (run calls (new cfg)) = new cfg
  /\ Forall (fun result => result = None) (snd (run calls (new cfg)))
  /\ stat_keys (getStats (fst (run calls (new cfg)))) = 0%nat
  /\ hitRate (getStats (fst (run calls (new cfg)))) == 0.
Proof.
  cbv zeta. set (cfg := {| enabled := false |}).
  assert (H : fst (run calls (new cfg)) = new cfg
              /\ Forall (fun result => result = None)
                        (snd (run calls (new cfg)))).
  { induction calls as [|[now call] rest IH]; cbn [run].
    - split; [reflexivity | constructor].
    - rewrite (step_switched_off cfg now call eq_refl).
      destruct (run rest (new cfg)) as [c2 results2]. cbn [fst snd] in *.
      destruct IH as [-> Hres]. split; [reflexivity|].
      apply Forall_app. split; [|exact Hres].
      destruct call; repeat constructor. }
  destruct H as [Hc Hres]. rewrite Hc.
  split; [reflexivity|]. split; [exact Hres|]. split; reflexivity.
Qed.

(** X11. With the cache switched off, [getOrSet] memoizes nothing: every
    call invokes the fetch function, resolves with what it gives, and
    leaves the cache as the fetch function left it. *)
Theorem getOrSet_switched_off (key : string) (fetchFunction : Fetch)
        (ttl' : option Z) (r : Run) (value : V) (now2 : Z) (c2 : t V) :
  enabled (config (store r)) = false ->
  fetchFunction (clock r) (store r) = (Fulfilled value, now2, c2) ->
  enabled (config c2) = false ->
  getOrSet key fetchFunction ttl' r
  = (Fulfilled value,
     {| clock := now2; store := c2; invocations := S (invocations r) |}).
Proof.
  intros Hoff Hfetch Hoff2. unfold getOrSet, get, set.
  rewrite Hoff. cbn [negb]. rewrite Hfetch, Hoff2. reflexivity.
Qed.

End CacheSwitchedOff.

Lemma getOrSet_switched_off_witness :
  let cfg := {| ApiCache.enabled := false; ApiCache.ttl := 300;
                ApiCache.maxSize := 1000; ApiCache.checkPeriod := 60 |} in
  let r := Fixture.run_of (Fixture.world cfg) in
  ApiCache.getOrSet "report" Fixture.fetch_report None r
  = (Fulfilled Fixture.some_report,
     {| ApiCache.clock := ApiCache.clock r + 40;
        ApiCache.store := ApiCache.store r;
        ApiCache.invocations := 1 |}).
Proof.
  cbv zeta. apply getOrSet_switched_off; reflexivity.
Defined.

Section CacheCounters.
Context {V : Type}.
Import ApiCache ApiCacheRest.

Lemma step_counters (now : Z) (call : @Call V) (c : t V) :
  enabled (config c) = true ->
  is_clear call = false ->
  let '(c', results) := step now call c in
  config c' = config c
  /\ hits c' = (hits c + length (List.filter got_value results))%nat
  /\ misses c'
     = (misses c + length (List.filter (fun r => negb (got_value r)) results))%nat.
Proof.
  intros Hon Hclear.
  destruct call; try discriminate; cbn [step];
    unfold get, setWithStrategy, set, del, has, invalidatePattern;
    rewrite ?Hon; cbn [negb].
  - destruct (NodeCache.get now key (cache c)) as [[x|] store];
      cbn; repeat split; lia.
  - destruct (NodeCache.set _ _ _ _ _) as [[b store]|e];
      cbn; repeat split; lia.
  - destruct (NodeCache.set _ _ _ _ _) as [[b store]|e];
      cbn; repeat split; lia.
  - destruct (NodeCacheRest.del key (cache c)) as [n store];
      cbn; repeat split; lia.
  - destruct (NodeCacheRest.has now key (cache c)) as [b store];
      cbn; repeat split; lia.
  - destruct (fold_left _ _ _) as [n store]; cbn; repeat split; lia.
Qed.

(** X12. The hit and miss counters count the reads and nothing else.
    On an enabled cache, after any calls other than [clear], [hits] has
    grown by the number of [get]s that returned a value and [misses] by
    the number of [get]s that returned nothing; [set], [del], [has] and
    [invalidatePattern] never touch them.  [clear] sets both to zero
    and empties the store. *)
Theorem counters_count_reads (calls : list (Z * @Call V)) :
  forall c : t V,
    enabled (config c) = true ->
    forallb (fun call => negb (is_clear (snd call))) calls = true ->
    let '(c', results) := run calls c in
    hits c' = (hits c + length (List.filter got_value results))%nat
    /\ misses c'
       = (misses c
          + length (List.filter (fun r => negb (got_value r)) results))%nat
    /\ (hits c' + misses c')%nat
       = (hits c + misses c + length results)%nat
    /\ stat_keys (getStats (clear c')) = 0%nat
    /\ stat_hits (getStats (clear c')) = 0%nat
    /\ stat_misses (getStats (clear c')) = 0%nat
    /\ hitRate (getStats (clear c')) == 0.
Proof.
  induction calls as [|[now call] rest IH]; intros c Hon Hcalls; cbn [run].
  - cbn [List.filter length]. repeat split; lia || reflexivity.
  - cbn [forallb snd] in Hcalls. apply andb_true_iff in Hcalls as [Hc Hrest].
    apply negb_true_iff in Hc.
    pose proof (step_counters now call c Hon Hc) as Hstep.
    destruct (step now call c) as [c1 results1].
    destruct Hstep as (Hcfg & Hh & Hm).
    assert (Hon1 : enabled (config c1) = true) by congruence.
    specialize (IH c1 Hon1 Hrest).
    destruct (run rest c1) as [c2 results2].
    destruct IH as (Hh2 & Hm2 & _ & Hclear).
    assert (Hstats : forall c0 : t V,
               stat_keys (getStats (clear c0)) = 0%nat
               /\ stat_hits (getStats (clear c0)) = 0%nat
               /\ stat_misses (getStats (clear c0)) = 0%nat
               /\ hitRate (getStats (clear c0)) == 0)
      by (intros c0; repeat split; reflexivity).
    rewrite !List.filter_app, !length_app.
    assert (Hsplit : forall l : list (option V),
               (length (List.filter got_value l)
                + length (List.filter (fun r => negb (got_value r)) l))%nat
               = length l).
    { induction l as [|x l IHl]; [reflexivity|].
      cbn [List.filter]. destruct (got_value x); cbn [negb length]; lia. }
    pose proof (Hsplit results1). pose proof (Hsplit results2).
    split; [lia|]. split; [lia|]. split; [lia|]. apply Hstats.
Qed.

End CacheCounters.

Lemma counters_count_reads_witness :
  let c := ApiCache.new Fixture.defaults in
  let calls :=
    [(1000, ApiCacheRest.CallGet "a");
     (1001, ApiCacheRest.CallSet "a" Fixture.some_report None);
     (1002, ApiCacheRest.CallGet "a")] in
  let '(c', results) := ApiCacheRest.run calls c in
  ApiCache.hits c'
  = (ApiCache.hits c + length (List.filter ApiCacheRest.got_value results))%nat
  /\ ApiCache.misses c'
     = (ApiCache.misses c
        + length (List.filter (fun r => negb (ApiCacheRest.got_value r))
                              results))%nat
  /\ (ApiCache.hits c' + ApiCache.misses c')%nat
     = (ApiCache.hits c + ApiCache.misses c + length results)%nat
  /\ ApiCacheRest.stat_keys (ApiCacheRest.getStats (ApiCacheRest.clear c'))
     = 0%nat
  /\ ApiCacheRest.stat_hits (ApiCacheRest.getStats (ApiCacheRest.clear c'))
     = 0%nat
  /\ ApiCacheRest.stat_misses (ApiCacheRest.getStats (ApiCacheRest.clear c'))
     = 0%nat
  /\ ApiCacheRest.hitRate (ApiCacheRest.getStats (ApiCacheRest.clear c')) == 0.
Proof.
  cbv zeta.
  apply (counters_count_reads
           [(1000, ApiCacheRest.CallGet "a");
            (1001, ApiCacheRest.CallSet "a" Fixture.some_report None);
            (1002, ApiCacheRest.CallGet "a")]
           (ApiCache.new Fixture.defaults)); reflexivity.
Defined.

(** ** Rounding to a double *)

Section DoubleFacts.
Import Double.
Local Open Scope Q_scope.

Lemma round_proper (x y : Q) : x == y -> round x = round y.
Proof. intros H. unfold round. now rewrite (Qred_complete x y H). Qed.

Lemma round_half_even_near (s : Q) :
  inject_Z (round_half_even s) - s <= 1 # 2
  /\ s - inject_Z (round_half_even s) <= 1 # 2.
Proof.
  unfold round_half_even.
  pose proof (Qfloor_le s) as Hlo. pose proof (Qlt_floor s) as Hhi.
  rewrite inject_Z_plus in Hhi. change (inject_Z 1) with 1 in Hhi.
  destruct (Qcompare_spec (s - inject_Z (Qfloor s)) (1 # 2)) as [H|H|H].
  - destruct (Z.even _); [|rewrite inject_Z_plus; change (inject_Z 1) with 1];
      split; lra.
  - split; lra.
  - rewrite inject_Z_plus. change (inject_Z 1) with 1. split; lra.
Qed.

Lemma pow2_pos (e : Z) : 0 < 2 ^ e.
Proof. apply Qpower_0_lt. reflexivity. Qed.

Lemma pow2_plus (a b : Z) : 2 ^ (a + b) == 2 ^ a * 2 ^ b.
Proof. apply Qpower_plus. discriminate. Qed.

Lemma pow2_inject (k : Z) : (0 <= k)%Z -> inject_Z (2 ^ k) == 2 ^ k.
Proof. intros H. now rewrite Zpower_Qpower. Qed.

Lemma exponent_le (x : Q) : 0 < x -> 2 ^ exponent x <= x.
Proof.
  intros Hx. unfold exponent.
  destruct (Qle_bool _ x) eqn:E; [now apply Qle_bool_iff in E|]. clear E.
  destruct x as [n d]. cbn [Qnum Qden].
  assert (Hn : (0 < n)%Z) by (unfold Qlt in Hx; cbn in Hx; lia).
  set (a := Z.log2 n). set (b := Z.log2 (Z.pos d)).
  assert (Ha : (0 <= a)%Z) by apply Z.log2_nonneg.
  assert (Hb : (0 <= b)%Z) by apply Z.log2_nonneg.
  destruct (Z.log2_spec n Hn) as [Hna _]. fold a in Hna.
  destruct (Z.log2_spec (Z.pos d) eq_refl) as [_ Hdb]. fold b in Hdb.
  assert (E : 2 ^ (a - b - 1) * 2 ^ (b + 1) == 2 ^ a).
  { rewrite <- pow2_plus. now replace (a - b - 1 + (b + 1))%Z with a by lia. }
  assert (Hd : inject_Z (Z.pos d) <= 2 ^ (b + 1)).
  { rewrite <- pow2_inject by lia. rewrite <- Zle_Qle. unfold Z.succ in Hdb. lia. }
  assert (Hnq : 2 ^ a <= inject_Z n).
  { rewrite <- pow2_inject by lia. now rewrite <- Zle_Qle. }
  assert (Hq : n # d == inject_Z n / inject_Z (Z.pos d)) by apply Qmake_Qdiv.
  rewrite Hq. apply Qle_shift_div_l; [reflexivity|].
  pose proof (pow2_pos (a - b - 1)) as Hp.
  apply Qle_trans with (2 ^ (a - b - 1) * 2 ^ (b + 1)); [|rewrite E; exact Hnq].
  apply Qmult_le_l; assumption.
Qed.

Lemma round_positive_near (x : Q) :
  0 < x ->
  x - x * unit_roundoff <= round_positive x <= x + x * unit_roundoff.
Proof.
  intros Hx. unfold round_positive.
  pose proof (exponent_le x Hx) as He.
  set (e := exponent x) in *.
  pose proof (round_half_even_near (x * 2 ^ (52 - e))) as [Hup Hdown].
  set (m := inject_Z (round_half_even (x * 2 ^ (52 - e)))) in *.
  pose proof (pow2_pos (e - 52)) as Hp.
  assert (E1 : 2 ^ (52 - e) * 2 ^ (e - 52) == 1).
  { rewrite <- pow2_plus. now replace (52 - e + (e - 52))%Z with 0%Z by lia. }
  assert (E2 : 2 ^ (e - 52) == 2 ^ e * (1 # 4503599627370496)).
  { unfold Z.sub. rewrite pow2_plus. reflexivity. }
  set (P := 2 ^ (e - 52)) in *. set (S := 2 ^ (52 - e)) in *.
  set (E := 2 ^ e) in *.
  assert (Hs : x * S * P == x) by (rewrite <- Qmult_assoc, E1; ring).
  assert (H1 : (m - x * S) * P <= (1 # 2) * P)
    by (apply Qmult_le_compat_r; [exact Hup | now apply Qlt_le_weak]).
  assert (H2 : (x * S - m) * P <= (1 # 2) * P)
    by (apply Qmult_le_compat_r; [exact Hdown | now apply Qlt_le_weak]).
  assert (R1 : (m - x * S) * P == m * P - x) by (rewrite <- Hs at 2; ring).
  assert (R2 : (x * S - m) * P == x - m * P) by (rewrite <- Hs at 2; ring).
  rewrite R1 in H1. rewrite R2 in H2. rewrite E2 in H1, H2. rewrite E2.
  unfold unit_roundoff. split; lra.
Qed.

Lemma round_near (x : Q) :
  0 <= x -> x - x * unit_roundoff <= round x <= x + x * unit_roundoff.
Proof.
  intros Hx. unfold round. rewrite Qred_correct.
  pose proof (Qred_correct x) as Hr.
  destruct (Qcompare_spec (Qred x) 0) as [H|H|H].
  - rewrite <- Hr, H. split; discriminate.
  - lra.
  - pose proof (round_positive_near (Qred x) H) as Hn.
    unfold unit_roundoff in *. lra.
Qed.

Lemma round_nonneg (x : Q) : 0 <= x -> 0 <= round x.
Proof.
  intros Hx. destruct (round_near x Hx) as [H _]. unfold unit_roundoff in H.
  lra.
Qed.

Lemma round_zero (x : Q) : x == 0 -> round x == 0.
Proof. intros H. now rewrite (round_proper x 0 H). Qed.

End DoubleFacts.

Section HitRate.
Context {V : Type}.
Import ApiCache ApiCacheRest.
Local Open Scope Q_scope.

Lemma Math_round_near (x : Q) :
  x - (1 # 2) < inject_Z (Math_round x) /\ inject_Z (Math_round x) <= x + (1 # 2).
Proof.
  unfold Math_round. split.
  - pose proof (Qlt_floor (x + (1 # 2))) as H.
    rewrite inject_Z_plus in H. change (inject_Z 1) with 1 in H. lra.
  - apply Qfloor_le.
Qed.

Lemma ratio_bounds (h m : nat) :
  (0 < h + m)%nat -> 0 <= nat_Q h / nat_Q (h + m) <= 1.
Proof.
  intros Hpos. unfold nat_Q.
  assert (Ht : 0 < inject_Z (Z.of_nat (h + m))).
  { change 0 with (inject_Z 0). rewrite <- Zlt_Qlt. lia. }
  assert (Hh : 0 <= inject_Z (Z.of_nat h)).
  { change 0 with (inject_Z 0). rewrite <- Zle_Qle. lia. }
  assert (Hle : inject_Z (Z.of_nat h) <= inject_Z (Z.of_nat (h + m))).
  { rewrite <- Zle_Qle. lia. }
  split.
  - apply Qle_shift_div_l; [exact Ht|]. lra.
  - apply Qle_shift_div_r; [exact Ht|]. lra.
Qed.

(** The computation of [getStats] on a ratio [p] of hits to reads:
    four roundings to a double and one to an integer. *)
Lemma hitRate_chain (p : Q) :
  0 <= p <= 1 ->
  let rate :=
    Double.round
      (inject_Z
         (Math_round
            (Double.round (Double.round (Double.round p * 100) * 100)))
       / 100) in
  0 <= rate <= 100
  /\ rate - ((1 # 200) + (1 # 1000000000000)) <= 100 * p
  /\ 100 * p <= rate + ((1 # 200) + (1 # 1000000000000)).
Proof.
  intros [Hp0 Hp1]. cbv zeta.
  pose proof (round_near p Hp0) as Ha.
  pose proof (round_nonneg p Hp0) as Ha0.
  set (a := Double.round p) in *.
  assert (Ha100 : 0 <= a * 100) by lra.
  pose proof (round_near (a * 100) Ha100) as Hb.
  pose proof (round_nonneg (a * 100) Ha100) as Hb0.
  set (b := Double.round (a * 100)) in *.
  assert (Hb100 : 0 <= b * 100) by lra.
  pose proof (round_near (b * 100) Hb100) as Hc.
  pose proof (round_nonneg (b * 100) Hb100) as Hc0.
  set (c := Double.round (b * 100)) in *.
  pose proof (Math_round_near c) as [Hlo Hhi].
  unfold Double.unit_roundoff in *.
  assert (Hr : (0 <= Math_round c <= 10000)%Z).
  { split.
    - assert (H : inject_Z (-1) < inject_Z (Math_round c))
        by (change (inject_Z (-1)) with (-1 # 1); lra).
      rewrite <- Zlt_Qlt in H. lia.
    - assert (H : inject_Z (Math_round c) < inject_Z 10001)
        by (change (inject_Z 10001) with 10001; lra).
      rewrite <- Zlt_Qlt in H. lia. }
  set (r := Math_round c) in *.
  assert (Hx : 0 <= inject_Z r / 100).
  { unfold Qdiv. change (/ 100) with (1 # 100).
    assert (H : inject_Z 0 <= inject_Z r) by (rewrite <- Zle_Qle; lia).
    change (inject_Z 0) with 0 in H. lra. }
  pose proof (round_near _ Hx) as Hd. pose proof (round_nonneg _ Hx) as Hd0.
  unfold Double.unit_roundoff in Hd.
  assert (H0 : inject_Z 0 <= inject_Z r) by (rewrite <- Zle_Qle; lia).
  change (inject_Z 0) with 0 in H0.
  assert (Hd100 : Double.round (inject_Z r / 100) <= 100).
  { destruct (Z.eq_dec r 10000%Z) as [->|Hne].
    - vm_compute. discriminate.
    - assert (H : inject_Z r <= inject_Z 9999) by (rewrite <- Zle_Qle; lia).
      change (inject_Z 9999) with 9999 in H.
      set (d := Double.round (inject_Z r / 100)) in *.
      unfold Qdiv in Hd. change (/ 100) with (1 # 100) in Hd. lra. }
  set (d := Double.round (inject_Z r / 100)) in *.
  unfold Qdiv in Hd. change (/ 100) with (1 # 100) in Hd.
  set (z := inject_Z r) in *.
  split; [split; assumption|]. split; lra.
Qed.

(** X13. The hit rate reported by [getStats], computed in doubles as the
    code computes it.  It lies between 0 and 100, is 0 while no read
    has been counted and exactly 100 when no read missed.  It is the
    percentage of hits rounded to two decimals up to the representation
    error of doubles: it differs from [100 * hits / (hits + misses)] by
    at most 0.005 + 10^-12, and the error can tip the rounding: 23 hits
    and 137 misses, 14.375 percent, are reported as 14.37. *)
Theorem hitRate_is_a_rounded_percentage (c : t V) :
  0 <= hitRate (getStats c) <= 100
  /\ ((hits c + misses c = 0)%nat -> hitRate (getStats c) == 0)
  /\ ((0 < hits c)%nat -> misses c = 0%nat -> hitRate (getStats c) == 100)
  /\ ((0 < hits c + misses c)%nat ->
      hitRate (getStats c) - ((1 # 200) + (1 # 1000000000000))
      <= 100 * (nat_Q (hits c) / nat_Q (hits c + misses c))
      /\ 100 * (nat_Q (hits c) / nat_Q (hits c + misses c))
         <= hitRate (getStats c) + ((1 # 200) + (1 # 1000000000000)))
  /\ (hits c = 23%nat -> misses c = 137%nat ->
      hitRate (getStats c) = Double.round (1437 # 100)
      /\ Math_round (100 * (100 * (nat_Q 23 / nat_Q 160))) = 1438%Z).
Proof.
  unfold getStats. cbn [hitRate].
  destruct (Nat.ltb_spec 0 (hits c + misses c)) as [Hpos | Hzero].
  - pose proof (ratio_bounds (hits c) (misses c) Hpos) as Hp.
    destruct (hitRate_chain _ Hp) as (Hrange & Hlo & Hhi).
    split; [exact Hrange|]. split; [intros; lia|].
    split; [|split; [intros _; split; assumption|]].
    + intros Hh Hm. rewrite Hm, Nat.add_0_r.
      assert (E : nat_Q (hits c) / nat_Q (hits c) == 1).
      { unfold nat_Q. field. change 0 with (inject_Z 0).
        rewrite inject_Z_injective. lia. }
      rewrite (round_proper _ _ E). vm_compute. reflexivity.
    + intros -> ->. split; vm_compute; reflexivity.
  - assert (Hz : (hits c + misses c = 0)%nat) by lia.
    split; [split; vm_compute; discriminate|].
    split; [intros _; vm_compute; reflexivity|].
    split; [intros; lia|]. split; [intros; lia|]. intros; lia.
Qed.

End HitRate.

(** ** The response cache: writes, reads and deletions *)

Section CacheRoundTrip.
Context {V : Type}.
Import ApiCache ApiCacheRest.

(** X14. What is written can be read back until it expires.  On an
    enabled cache whose store is below its cap, [set] stores the value
    and returns [true]; a time to live that is missing or 0 stands for
    the configured default.  A [get] of that key before the expiry
    instant returns the value and counts a hit; from the expiry instant
    on it returns nothing, counts a miss and removes the key (an expiry
    instant of exactly 0 is read as "never").  The other keys are not
    touched. *)
Theorem set_then_get (now : Z) (key : string) (value : V) (ttl' : option Z)
        (c : t V) :
  enabled (config c) = true ->
  NodeCache.full (cache c) = false ->
  let seconds := ttl_or_default ttl' c in
  exists c1,
    set now key value ttl' c = Returned (true, c1)
    /\ (seconds = match ttl' with
                  | Some 0 | None => ttl (config c)
                  | Some n => n
                  end)
    /\ (forall now',
           seconds = 0 \/ now' < now + seconds * 1000 ->
           get now' key c1
           = (Some value, {| cache := cache c1; config := config c1;
                             hits := S (hits c1); misses := misses c1 |}))
    /\ (forall now',
           seconds <> 0 -> now + seconds * 1000 <> 0 ->
           now + seconds * 1000 <= now' ->
           fst (get now' key c1) = None
           /\ misses (snd (get now' key c1)) = S (misses c1)
           /\ NodeCache.data (cache (snd (get now' key c1))) !! key = None)
    /\ (forall other,
           other <> key ->
           NodeCache.data (cache c1) !! other
           = NodeCache.data (cache c) !! other)
    /\ hits c1 = hits c /\ misses c1 = misses c.
Proof.
  intros Hon Hroom. cbv zeta. unfold set, NodeCache.set.
  rewrite Hon, Hroom. cbn [negb]. eexists. split; [reflexivity|].
  split.
  { unfold ttl_or_default. destruct ttl' as [[| |]|]; reflexivity. }
  set (seconds := ttl_or_default ttl' c).
  assert (Hlook : NodeCache.data
                    (NodeCache.with_data (cache c)
                       (<[key := NodeCache.wrap now value seconds]>
                          (NodeCache.data (cache c)))) !! key
                  = Some (NodeCache.wrap now value seconds))
    by apply lookup_insert_eq.
  split; [|split; [|split]].
  - intros now' Hlive. unfold get, NodeCache.get. cbn [config cache].
    rewrite Hon, Hlook. cbn [negb].
    assert (Hl : NodeCache.live now' (NodeCache.wrap now value seconds) = true).
    { unfold NodeCache.live, NodeCache.wrap. cbn [NodeCache.t].
      destruct (Z.eqb_spec seconds 0) as [E|E]; [reflexivity|].
      destruct Hlive as [?|Hlt]; [contradiction|].
      apply orb_true_iff. right. now apply Z.ltb_lt. }
    rewrite Hl. reflexivity.
  - intros now' Hne Hnz Hexp. unfold get, NodeCache.get. cbn [config cache].
    rewrite Hon, Hlook. cbn [negb].
    assert (Hl : NodeCache.live now' (NodeCache.wrap now value seconds) = false).
    { unfold NodeCache.live, NodeCache.wrap. cbn [NodeCache.t].
      destruct (Z.eqb_spec seconds 0) as [E|E]; [contradiction|].
      apply orb_false_iff. split.
      - apply Z.eqb_neq. lia.
      - apply Z.ltb_ge. lia. }
    rewrite Hl. cbn. split; [reflexivity|]. split; [reflexivity|].
    apply lookup_delete_eq.
  - intros other Hother. cbn. now apply lookup_insert_ne.
  - split; reflexivity.
Qed.

(** X15. [del] removes the key, expired or not, and reports whether it
    was there: on an enabled cache it returns 1 when the key was held
    and 0 otherwise, afterwards [get] and [has] find nothing under the
    key, and the other keys and the counters are as before. *)
Theorem del_removes (key : string) (c : t V) :
  enabled (config c) = true ->
  let c' := snd (del key c) in
  fst (del key c)
  = match NodeCache.data (cache c) !! key with
    | Some _ => 1%nat
    | None => 0%nat
    end
  /\ NodeCache.data (cache c') = delete key (NodeCache.data (cache c))
  /\ (forall now, fst (get now key c') = None /\ fst (has now key c') = false)
  /\ (forall other, other <> key ->
                    NodeCache.data (cache c') !! other
                    = NodeCache.data (cache c) !! other)
  /\ hits c' = hits c /\ misses c' = misses c.
Proof.
  intros Hon. cbv zeta. unfold del, NodeCacheRest.del. rewrite Hon.
  cbn [negb].
  assert (Hdata : NodeCache.data
                    (cache (snd (let '(deleted, store) :=
                                   match NodeCache.data (cache c) !! key with
                                   | Some _ =>
                                       (1%nat,
                                        NodeCache.with_data (cache c)
                                          (delete key (NodeCache.data (cache c))))
                                   | None => (0%nat, cache c)
                                   end in (deleted, with_store c store))))
                  = delete key (NodeCache.data (cache c))).
  { destruct (NodeCache.data (cache c) !! key) eqn:E; cbn; [reflexivity|].
    symmetry. now apply delete_id. }
  split; [destruct (NodeCache.data (cache c) !! key); reflexivity|].
  split; [exact Hdata|].
  split.
  { intros now. unfold get, has, NodeCache.get, NodeCacheRest.has.
    assert (Hcfg : forall p : nat * NodeCache.Store V,
               config (snd (let '(deleted, store) := p in
                            (deleted, with_store c store))) = config c)
      by (intros [? ?]; reflexivity).
    rewrite Hcfg, Hon, Hdata, lookup_delete_eq. cbn. auto. }
  split.
  { intros other Hother. rewrite Hdata. now apply lookup_delete_ne. }
  destruct (NodeCache.data (cache c) !! key); split; reflexivity.
Qed.

(** X16. [has] answers as [get] would and leaves the same store (an
    expired entry is removed by either), but it never counts as a
    read. *)
Theorem has_agrees_with_get (now : Z) (key : string) (c : t V) :
  fst (has now key c) = got_value (fst (get now key c))
  /\ cache (snd (has now key c)) = cache (snd (get now key c))
  /\ hits (snd (has now key c)) = hits c
  /\ misses (snd (has now key c)) = misses c.
Proof.
  unfold has, get, NodeCacheRest.has, NodeCache.get.
  destruct (enabled (config c)); cbn [negb]; [|repeat split].
  destruct (NodeCache.data (cache c) !! key) as [w|];
    [destruct (NodeCache.live now w)|]; repeat split.
Qed.

End CacheRoundTrip.

Lemma set_then_get_witness :
  let c := ApiCache.new Fixture.defaults in
  ApiCache.get 1200 "a"
    (ApiCacheRest.with_store c
       (NodeCache.with_data (ApiCache.cache c)
          (<["a" := NodeCache.wrap 1000 Fixture.some_report 300]>
             (NodeCache.data (ApiCache.cache c)))))
  = (Some Fixture.some_report,
     {| ApiCache.cache :=
          NodeCache.with_data (ApiCache.cache c)
            (<["a" := NodeCache.wrap 1000 Fixture.some_report 300]>
               (NodeCache.data (ApiCache.cache c)));
        ApiCache.config := Fixture.defaults;
        ApiCache.hits := 1; ApiCache.misses := 0 |}).
Proof.
  cbv zeta.
  destruct (set_then_get 1000 "a" Fixture.some_report None
              (ApiCache.new Fixture.defaults) eq_refl eq_refl)
    as (c1 & Hset & _ & Hget & _).
  injection Hset as <-. apply Hget. right. reflexivity.
Defined.

Lemma del_removes_witness :
  fst (ApiCacheRest.del "other" (cache Fixture.full_world)) = 1%nat
  /\ fst (ApiCache.get 1750809600001 "other"
            (snd (ApiCacheRest.del "other" (cache Fixture.full_world))))
     = None.
Proof.
  destruct (del_removes "other" (cache Fixture.full_world) eq_refl)
    as (Hn & _ & Hgone & _).
  split; [exact Hn | apply Hgone].
Defined.

Section InvalidatePattern.
Context {V : Type}.
Import ApiCache ApiCacheRest.

Lemma fold_del (ks : list string) :
  forall (n : nat) (st : NodeCache.Store V),
    NoDup ks ->
    (forall k, In k ks -> is_Some (NodeCache.data st !! k)) ->
    let result :=
      fold_left (fun acc key =>
                   let '(m, store') := NodeCacheRest.del key (snd acc) in
                   ((fst acc + m)%nat, store'))
                ks (n, st) in
    fst result = (n + length ks)%nat
    /\ NodeCache.options (snd result) = NodeCache.options st
    /\ forall k, NodeCache.data (snd result) !! k
                 = if in_dec String.string_dec k ks then None
                   else NodeCache.data st !! k.
Proof.
  induction ks as [|key ks IH]; intros n st Hnd Hheld; cbv zeta.
  - cbn. split; [lia|]. split; reflexivity.
  - destruct (Hheld key (or_introl eq_refl)) as [w Hw].
    apply NoDup_cons in Hnd as [Hnotin Hnd].
    specialize (IH (n + 1)%nat
                   (NodeCache.with_data st (delete key (NodeCache.data st)))
                   Hnd).
    cbv zeta in IH.
    match type of IH with
    | context [fold_left ?f _ _] => set (F := f) in *
    end.
    assert (Hstep : fold_left F (key :: ks) (n, st)
                    = fold_left F ks
                        ((n + 1)%nat,
                         NodeCache.with_data st
                           (delete key (NodeCache.data st)))).
    { cbn [fold_left]. f_equal. unfold F, NodeCacheRest.del. cbn [snd fst].
      now rewrite Hw. }
    rewrite Hstep. destruct IH as (Hn & Ho & Hd).
    { intros k Hk. cbn. rewrite lookup_delete_ne.
      - apply Hheld. now right.
      - intros ->. apply Hnotin. now apply list_elem_of_In. }
    split; [rewrite Hn; cbn [length]; lia|]. split; [exact Ho|].
    intros k. rewrite Hd. cbn [NodeCache.data NodeCache.with_data].
    destruct (in_dec String.string_dec k ks) as [Hin|Hout];
      destruct (in_dec String.string_dec k (key :: ks)) as [Hin'|Hout'];
      try reflexivity.
    + exfalso. apply Hout'. now right.
    + destruct Hin' as [->|Hin']; [apply lookup_delete_eq | contradiction].
    + apply lookup_delete_ne. intros ->. apply Hout'. now left.
Qed.

Lemma keys_NoDup (st : NodeCache.Store V) : NoDup (NodeCacheRest.keys st).
Proof.
  unfold NodeCacheRest.keys.
  replace (List.map fst (map_to_list (NodeCache.data st)))
    with ((map_to_list (NodeCache.data st)).*1).
  - apply NoDup_fst_map_to_list.
  - induction (map_to_list (NodeCache.data st)) as [|x l IHl];
      [reflexivity | cbn; now rewrite IHl].
Qed.

Lemma keys_held (st : NodeCache.Store V) (k : string) :
  In k (NodeCacheRest.keys st) <-> is_Some (NodeCache.data st !! k).
Proof.
  unfold NodeCacheRest.keys. rewrite in_map_iff. split.
  - intros [[k' w] [E Hin]]. cbn in E. subst k'.
    apply list_elem_of_In, elem_of_map_to_list in Hin. eauto.
  - intros [w Hw]. exists (k, w). split; [reflexivity|].
    now apply list_elem_of_In, elem_of_map_to_list.
Qed.

Lemma invalidatePattern_count_lookup (pattern : string) (c : t V) :
  fst (invalidatePattern pattern c)
  = length (List.filter (fun key => JsString.includes key pattern) (keys c))
  /\ forall key,
      NodeCache.data (cache (snd (invalidatePattern pattern c))) !! key
      = if JsString.includes key pattern then None
        else NodeCache.data (cache c) !! key.
Proof.
  unfold invalidatePattern, keys.
  set (ks := List.filter (fun key => JsString.includes key pattern)
                         (NodeCacheRest.keys (cache c))).
  assert (Hnd : NoDup ks).
  { apply NoDup_ListNoDup, List.NoDup_filter, NoDup_ListNoDup, keys_NoDup. }
  assert (Hheld : forall k, In k ks -> is_Some (NodeCache.data (cache c) !! k)).
  { intros k Hk. apply filter_In in Hk as [Hk _]. now apply keys_held. }
  pose proof (fold_del ks 0 (cache c) Hnd Hheld) as H. cbv zeta in H.
  destruct (fold_left _ ks (0%nat, cache c)) as [n store].
  cbn [fst snd] in *. destruct H as (Hn & _ & Hd).
  split; [exact Hn|].
  intros key. cbn [cache with_store]. rewrite Hd.
  destruct (in_dec String.string_dec key ks) as [Hin|Hout].
  - apply filter_In in Hin as [_ ->]. reflexivity.
  - destruct (JsString.includes key pattern) eqn:Hinc; [|reflexivity].
    destruct (NodeCache.data (cache c) !! key) as [w|] eqn:Hw;
      [|reflexivity].
    exfalso. apply Hout. apply filter_In. split; [|exact Hinc].
    apply keys_held. eauto.
Qed.

Lemma invalidatePattern_lookup (pattern : string) (c : t V) (key : string) :
  NodeCache.data (cache (snd (invalidatePattern pattern c))) !! key
  = if JsString.includes key pattern then None
    else NodeCache.data (cache c) !! key.
Proof. apply invalidatePattern_count_lookup. Qed.

(** X17. [invalidatePattern] removes exactly the keys that contain the
    pattern, and returns how many of the keys held did: afterwards a key
    that contains the pattern is absent and every other key is as
    before.  The counters and the configuration are not touched, and
    the switch [enabled] is not consulted.  The empty pattern is
    contained in every key, so it empties the store. *)
Theorem invalidatePattern_removes_matches (pattern : string) (c : t V) :
  let c' := snd (invalidatePattern pattern c) in
  fst (invalidatePattern pattern c)
  = length (List.filter (fun key => JsString.includes key pattern) (keys c))
  /\ (forall key,
         NodeCache.data (cache c') !! key
         = if JsString.includes key pattern then None
           else NodeCache.data (cache c) !! key)
  /\ config c' = config c /\ hits c' = hits c /\ misses c' = misses c
  /\ (pattern = "" -> NodeCache.data (cache c') = ∅).
Proof.
  cbv zeta.
  pose proof (invalidatePattern_count_lookup pattern c) as [Hn Hlook].
  split; [exact Hn|]. split; [exact Hlook|].
  assert (Hkeep : config (snd (invalidatePattern pattern c)) = config c
                  /\ hits (snd (invalidatePattern pattern c)) = hits c
                  /\ misses (snd (invalidatePattern pattern c)) = misses c).
  { unfold invalidatePattern. destruct (fold_left _ _ _) as [n store].
    repeat split. }
  destruct Hkeep as (Hc & Hh & Hm).
  repeat (split; [assumption|]).
  intros ->. apply map_empty. intros key. rewrite Hlook.
  destruct key; reflexivity.
Qed.

Lemma append_empty_r (s : string) : s +:+ "" = s.
Proof.
  induction s as [|a s IH]; [reflexivity|].
  change (String a (s +:+ "") = String a s). now rewrite IH.
Qed.

Lemma generateKey_startsWith (prefix : string) (params : Params) :
  JsString.includes (generateKey prefix params) prefix = true.
Proof.
  assert (H : JsString.startsWith prefix (generateKey prefix params) = true).
  { apply startsWith_spec. unfold generateKey.
    destruct (String.eqb _ ""); [exists "" | eexists; reflexivity].
    symmetry. apply append_empty_r. }
  destruct (generateKey prefix params); cbn [JsString.includes];
    now rewrite H.
Qed.

(** X18. Every key made by [generateKey] contains its prefix, so
    [invalidatePattern(prefix)] removes every entry cached under a key
    made with that prefix, whatever the parameters: the next [get] of
    such a key finds nothing.  In particular
    [invalidatePattern("account_audit")] discards every cached audit
    report. *)
Theorem invalidatePattern_prefix (prefix : string) (params : Params)
        (c : t V) (now : Z) :
  JsString.includes (generateKey prefix params) prefix = true
  /\ NodeCache.data (cache (snd (invalidatePattern prefix c)))
       !! generateKey prefix params = None
  /\ fst (get now (generateKey prefix params)
              (snd (invalidatePattern prefix c))) = None.
Proof.
  pose proof (invalidatePattern_lookup prefix c (generateKey prefix params))
    as Hlook.
  rewrite generateKey_startsWith in Hlook.
  split; [apply generateKey_startsWith|]. split; [exact Hlook|].
  unfold get, NodeCache.get. destruct (negb _); [reflexivity|].
  now rewrite Hlook.
Qed.

End InvalidatePattern.

(** ** The remote reads of an audit *)

Section AuditReads.
Variable env : Environment.

Lemma calls_await_call (c : ApiCall) (w : World) :
  calls (await_call env c w) = calls w ++ [c].
Proof. reflexivity. Qed.

Lemma calls_analyzeTags (l : list Tag) :
  forall (acc : list TagUsage) (w : World),
    calls (snd (analyzeTags env l acc w))
    = calls w ++ List.map (fun tag => GetTagSubscribers (tag_id tag)) l.
Proof.
  induction l as [|tag rest IH]; intros acc w; cbn [analyzeTags List.map].
  - cbn. now rewrite app_nil_r.
  - destruct (getTagSubscribers _ _ _); rewrite IH, calls_await_call;
      now rewrite <- app_assoc.
Qed.

Lemma calls_analyzeSequences (l : list Sequence) :
  forall (acc : list AutomationMetrics) (w : World),
    calls (snd (analyzeSequences env l acc w))
    = calls w ++ List.map (fun seq => GetSequenceSubscribers (seq_id seq)) l.
Proof.
  induction l as [|x rest IH]; intros acc w; cbn [analyzeSequences List.map].
  - cbn. now rewrite app_nil_r.
  - destruct (getSequenceSubscribers _ _ _); rewrite IH, calls_await_call;
      now rewrite <- app_assoc.
Qed.

Lemma calls_analyzeForms (l : list Form) :
  forall (acc : list ConversionData) (w : World),
    calls (snd (analyzeForms env l acc w))
    = calls w ++ List.map (fun form => GetFormSubscribers (form_id form)) l.
Proof.
  induction l as [|x rest IH]; intros acc w; cbn [analyzeForms List.map].
  - cbn. now rewrite app_nil_r.
  - destruct (getFormSubscribers _ _ _); rewrite IH, calls_await_call;
      now rewrite <- app_assoc.
Qed.

Lemma calls_buildAudit (e : option Opaque) (gr : option GrowthStats)
      (s : option SubscribersResponse) (t : option TagsResponse)
      (sq : option SequencesResponse) (f : option FormsResponse)
      (c : option CustomFieldsResponse) (w : World) :
  calls (snd (buildAudit env e gr s t sq f c w))
  = calls w ++ secondaryReads t sq f.
Proof.
  unfold buildAudit, buildSegmentationAnalysis, buildAutomationOverview,
    buildLeadCaptureAnalysis, secondaryReads.
  fold (analyzedTags t). fold (analyzedSequences sq). fold (analyzedForms f).
  pose proof (calls_analyzeTags (analyzedTags t) [] w) as H1.
  destruct (analyzeTags env (analyzedTags t) [] w) as [u w1]. cbn [snd] in H1.
  pose proof (calls_analyzeSequences (analyzedSequences sq) [] w1) as H2.
  destruct (analyzeSequences env (analyzedSequences sq) [] w1) as [m w2].
  cbn [snd] in H2.
  pose proof (calls_analyzeForms (analyzedForms f) [] w2) as H3.
  destruct (analyzeForms env (analyzedForms f) [] w2) as [cv w3].
  cbn [snd] in *. rewrite H3, H2, H1. now rewrite <- !app_assoc.
Qed.

Lemma secondaryReads_length (t : option TagsResponse)
      (sq : option SequencesResponse) (f : option FormsResponse) :
  (length (secondaryReads t sq f) <= 40)%nat.
Proof.
  unfold secondaryReads, analyzedTags, analyzedSequences, analyzedForms.
  rewrite !length_app, !length_map, !length_take. lia.
Qed.

Lemma calls_fanOut (w : World) :
  calls (snd (fanOut env w)) = calls w ++ topLevelReads.
Proof.
  unfold fanOut. cbn [snd]. rewrite !calls_await_call.
  now rewrite <- !app_assoc.
Qed.

(** X19. The remote reads behind a report.  Building the report from
    what the eight top-level reads gave makes one [getTagSubscribers]
    read for each of the first 20 tags, then one
    [getSequenceSubscribers] read for each of the first 10 sequences not
    on hold, then one [getFormSubscribers] read for each of the first 10
    forms, in that order and whether or not the reads succeed: a read
    that fails does not stop a loop.  That is at most 40 reads. *)
Theorem buildAudit_secondary_reads (e : option Opaque) (gr : option GrowthStats)
        (s : option SubscribersResponse) (t : option TagsResponse)
        (sq : option SequencesResponse) (f : option FormsResponse)
        (c : option CustomFieldsResponse) (w : World) :
  calls (snd (buildAudit env e gr s t sq f c w))
  = calls w ++ secondaryReads t sq f
  /\ (length (secondaryReads t sq f) <= 40)%nat.
Proof. split; [apply calls_buildAudit | apply secondaryReads_length]. Qed.

(** X20. One call of [execute] makes at most 48 remote reads.  When
    it makes any, the first eight are the top-level reads in the order
    they are handed to [Promise.allSettled]; when the report comes from
    the cache it makes none. *)
Theorem execute_remote_reads (params : Params) (w : World) :
  exists reads,
    calls (snd (execute env params w)) = calls w ++ reads
    /\ (length reads <= 48)%nat
    /\ match fst (cache_read params w) with
       | Some _ => reads = []
       | None => take 8 reads = topLevelReads
       end.
Proof.
  unfold execute.
  assert (H0 : calls (snd (cache_read params w)) = calls w).
  { unfold cache_read. destruct (negb _); [|reflexivity].
    now destruct (ApiCache.get _ _ _). }
  destruct (cache_read params w) as [[cached|] w0]; cbn [fst snd] in *.
  { exists []. rewrite app_nil_r. repeat split; [auto | cbn; lia]. }
  pose proof (calls_fanOut w0) as H1.
  destruct (fanOut env w0) as [g w1]; cbn [snd] in H1.
  unfold audit_of.
  pose proof (calls_buildAudit (getResult (g_emailStats g))
                (getResult (g_growthStats g)) (getResult (g_subscribers g))
                (getResult (g_tags g)) (getResult (g_sequences g))
                (getResult (g_forms g)) (getResult (g_customFields g)) w1) as H2.
  pose proof (secondaryReads_length (getResult (g_tags g))
                (getResult (g_sequences g)) (getResult (g_forms g))) as Hlen.
  destruct (buildAudit env _ _ _ _ _ _ _ w1) as [audit w2]; cbn [snd] in H2.
  set (second := secondaryReads _ _ _) in *.
  exists (topLevelReads ++ second).
  assert (E : calls w2 = calls w ++ topLevelReads ++ second)
    by (rewrite H2, H1, H0; now rewrite <- app_assoc).
  split; [|split].
  - now destruct (ApiCache.setWithStrategy _ _ _ _ _) as [[ok c']|msg].
  - rewrite length_app. change (length topLevelReads) with 8%nat. lia.
  - reflexivity.
Qed.

End AuditReads.

(** ** What the three loops report *)

Section AuditLoops.
Variable env : Environment.

Lemma analyzeTags_kept (l : list Tag) :
  forall (acc : list TagUsage) (w : World),
    exists kept,
      List.map tu_tag (fst (analyzeTags env l acc w))
      = List.map tu_tag acc ++ kept
      /\ sublist kept l
      /\ ((forall n id, exists r,
              getTagSubscribers (apiClient env) n id = Fulfilled r) ->
          kept = l).
Proof.
  induction l as [|tag rest IH]; intros acc w; cbn [analyzeTags].
  - exists []. cbn [fst]. rewrite app_nil_r. repeat split; constructor.
  - destruct (getTagSubscribers _ _ _) as [r|reason] eqn:E.
    + destruct (IH (acc ++ [ {| tu_tag := tag;
                                tu_subscriber_count := page_total r;
                                tu_engagement_metrics := no_engagement;
                                tu_usage_frequency :=
                                  calculateTagUsageFrequency env
                                    (now (await_call env
                                            (GetTagSubscribers (tag_id tag)) w))
                                    tag |} ])
                   (await_call env (GetTagSubscribers (tag_id tag)) w))
        as (kept & Hmap & Hsub & Hall).
      exists (tag :: kept). rewrite Hmap, List.map_app. cbn [List.map tu_tag].
      rewrite <- app_assoc. split; [reflexivity|].
      split; [now constructor|]. intros H. now rewrite (Hall H).
    + destruct (IH acc (await_call env (GetTagSubscribers (tag_id tag)) w))
        as (kept & Hmap & Hsub & Hall).
      exists kept. split; [exact Hmap|]. split; [now constructor|].
      intros H. destruct (H (next w) (tag_id tag)) as [r Hr]. congruence.
Qed.

Lemma analyzeSequences_kept (l : list Sequence) :
  forall (acc : list AutomationMetrics) (w : World),
    exists kept,
      List.map (fun m => ap_automation_id (am_performance m))
               (fst (analyzeSequences env l acc w))
      = List.map (fun m => ap_automation_id (am_performance m)) acc
        ++ List.map seq_id kept
      /\ sublist kept l
      /\ ((forall n id, exists r,
              getSequenceSubscribers (apiClient env) n id = Fulfilled r) ->
          kept = l).
Proof.
  induction l as [|x rest IH]; intros acc w; cbn [analyzeSequences].
  - exists []. cbn [fst List.map]. rewrite app_nil_r. repeat split; constructor.
  - destruct (getSequenceSubscribers _ _ _) as [r|reason] eqn:E.
    + match goal with
      | |- context [analyzeSequences env rest ?a ?w'] =>
          destruct (IH a w') as (kept & Hmap & Hsub & Hall)
      end.
      exists (x :: kept). rewrite Hmap, List.map_app.
      cbn [List.map am_performance sequence_performance ap_automation_id].
      rewrite <- app_assoc. split; [reflexivity|].
      split; [now constructor|]. intros H. now rewrite (Hall H).
    + destruct (IH acc (await_call env (GetSequenceSubscribers (seq_id x)) w))
        as (kept & Hmap & Hsub & Hall).
      exists kept. split; [exact Hmap|]. split; [now constructor|].
      intros H. destruct (H (next w) (seq_id x)) as [r Hr]. congruence.
Qed.

Lemma analyzeForms_kept (l : list Form) :
  forall (acc : list ConversionData) (w : World),
    exists kept,
      List.map cd_form_id (fst (analyzeForms env l acc w))
      = List.map cd_form_id acc ++ List.map form_id kept
      /\ sublist kept l
      /\ ((forall n id, exists r,
              getFormSubscribers (apiClient env) n id = Fulfilled r) ->
          kept = l).
Proof.
  induction l as [|x rest IH]; intros acc w; cbn [analyzeForms].
  - exists []. cbn [fst List.map]. rewrite app_nil_r. repeat split; constructor.
  - destruct (getFormSubscribers _ _ _) as [r|reason] eqn:E.
    + match goal with
      | |- context [analyzeForms env rest ?a ?w'] =>
          destruct (IH a w') as (kept & Hmap & Hsub & Hall)
      end.
      exists (x :: kept). rewrite Hmap, List.map_app.
      cbn [List.map cd_form_id].
      rewrite <- app_assoc. split; [reflexivity|].
      split; [now constructor|]. intros H. now rewrite (Hall H).
    + destruct (IH acc (await_call env (GetFormSubscribers (form_id x)) w))
        as (kept & Hmap & Hsub & Hall).
      exists kept. split; [exact Hmap|]. split; [now constructor|].
      intros H. destruct (H (next w) (form_id x)) as [r Hr]. congruence.
Qed.

(** X21. What the three loops report.  The tags of
    [tag_usage_distribution] are, in order, some of the first 20 tags;
    the sequences of [automation_performance] some of the first 10
    sequences not on hold; the forms of [conversion_rates] some of the
    first 10 forms; later tags, sequences and forms are never looked
    at.  When every secondary read succeeds, all of the first 20, 10
    and 10 are reported. *)
Theorem buildAudit_loops (e : option Opaque) (gr : option GrowthStats)
        (s : option SubscribersResponse) (t : option TagsResponse)
        (sq : option SequencesResponse) (f : option FormsResponse)
        (c : option CustomFieldsResponse) (w : World) :
  let report := fst (buildAudit env e gr s t sq f c w) in
  exists keptTags keptSequences keptForms,
    List.map tu_tag (tag_usage_distribution (segmentation_analysis report))
    = keptTags
    /\ List.map (fun m => ap_automation_id (am_performance m))
                (automation_performance (automation_overview report))
       = List.map seq_id keptSequences
    /\ List.map cd_form_id (conversion_rates (lead_capture_analysis report))
       = List.map form_id keptForms
    /\ sublist keptTags (analyzedTags t)
    /\ sublist keptSequences (analyzedSequences sq)
    /\ sublist keptForms (analyzedForms f)
    /\ (secondary_reads_succeed (apiClient env) ->
        keptTags = analyzedTags t
        /\ keptSequences = analyzedSequences sq
        /\ keptForms = analyzedForms f).
Proof.
  cbv zeta.
  unfold buildAudit, buildSegmentationAnalysis, buildAutomationOverview,
    buildLeadCaptureAnalysis.
  fold (analyzedTags t). fold (analyzedSequences sq). fold (analyzedForms f).
  destruct (analyzeTags_kept (analyzedTags t) [] w) as (k1 & M1 & S1 & A1).
  destruct (analyzeTags env (analyzedTags t) [] w) as [u w1].
  destruct (analyzeSequences_kept (analyzedSequences sq) [] w1)
    as (k2 & M2 & S2 & A2).
  destruct (analyzeSequences env (analyzedSequences sq) [] w1) as [m w2].
  destruct (analyzeForms_kept (analyzedForms f) [] w2) as (k3 & M3 & S3 & A3).
  destruct (analyzeForms env (analyzedForms f) [] w2) as [cv w3].
  cbn [fst] in *.
  cbn [segmentation_analysis automation_overview lead_capture_analysis
       tag_usage_distribution automation_performance conversion_rates].
  exists k1, k2, k3.
  split; [exact M1|]. split; [exact M2|]. split; [exact M3|].
  split; [exact S1|]. split; [exact S2|]. split; [exact S3|].
  intros (H1 & H2 & H3). auto.
Qed.

Lemma calculateOptimizationScore_active (sequence : Sequence) :
  seq_hold sequence = false ->
  70 <= calculateOptimizationScore sequence <= 100.
Proof.
  intros H. rewrite calculateOptimizationScore_formula, H.
  destruct (JsString.includes _ "welcome"), (JsString.includes _ "nurture"),
    (seq_repeat sequence); cbn; lia.
Qed.

Lemma analyzeSequences_entries (P : AutomationMetrics -> Prop)
      (HP : forall (sequence : Sequence) (entered : Q),
          seq_hold sequence = false ->
          P {| am_automation :=
                 {| au_id := seq_id sequence;
                    au_name := seq_name sequence;
                    au_status := if seq_hold sequence then "archived"
                                 else "active";
                    au_trigger_type := "manual";
                    au_subscriber_count := entered;
                    au_conversion_rate := 0;
                    au_performance_data :=
                      sequence_performance sequence entered |};
               am_performance := sequence_performance sequence entered;
               optimization_score := calculateOptimizationScore sequence |})
      (l : list Sequence) :
  Forall (fun seq => seq_hold seq = false) l ->
  forall (acc : list AutomationMetrics) (w : World),
    Forall P acc -> Forall P (fst (analyzeSequences env l acc w)).
Proof.
  induction 1 as [|x rest Hx Hrest IH]; intros acc w Hacc;
    cbn [analyzeSequences]; [exact Hacc|].
  destruct (getSequenceSubscribers _ _ _) as [r|reason]; [|now apply IH].
  apply IH. apply Forall_app. split; [exact Hacc|].
  constructor; [|constructor]. now apply HP.
Qed.

Lemma analyzedSequences_active (sq : option SequencesResponse) :
  Forall (fun seq => seq_hold seq = false) (analyzedSequences sq).
Proof.
  unfold analyzedSequences. apply Forall_take. apply List.Forall_forall.
  intros x Hx. apply List.filter_In in Hx. destruct Hx as [_ Hx].
  now apply negb_true_iff in Hx.
Qed.

(** X22. Every entry of [automation_performance] describes a sequence
    that is not on hold: its status is ["active"], never ["archived"]
    (the loop only visits sequences not on hold), its optimisation score
    lies between 70 and 100, and it carries the same performance record
    twice. *)
Theorem automation_performance_entries (e : option Opaque)
        (gr : option GrowthStats)
        (s : option SubscribersResponse) (t : option TagsResponse)
        (sq : option SequencesResponse) (f : option FormsResponse)
        (c : option CustomFieldsResponse) (w : World) :
  Forall (fun m =>
            au_status (am_automation m) = "active"
            /\ 70 <= optimization_score m <= 100
            /\ au_performance_data (am_automation m) = am_performance m
            /\ au_subscriber_count (am_automation m)
               = ap_subscribers_entered (am_performance m))
         (automation_performance
            (automation_overview (fst (buildAudit env e gr s t sq f c w)))).
Proof.
  unfold buildAudit, buildSegmentationAnalysis, buildAutomationOverview,
    buildLeadCaptureAnalysis.
  fold (analyzedTags t). fold (analyzedSequences sq). fold (analyzedForms f).
  destruct (analyzeTags env (analyzedTags t) [] w) as [u w1].
  match goal with
  | |- context [analyzeSequences env ?l [] w1] =>
      pose proof (fun P HP =>
                    analyzeSequences_entries P HP l
                      (analyzedSequences_active sq) [] w1) as H
  end.
  destruct (analyzeSequences env (analyzedSequences sq) [] w1) as [m w2].
  destruct (analyzeForms env (analyzedForms f) [] w2) as [cv w3].
  cbn [fst automation_overview automation_performance] in *.
  apply H; [|constructor].
  intros sequence entered Hhold.
  cbn [am_automation au_status optimization_score au_performance_data
       am_performance au_subscriber_count sequence_performance
       ap_subscribers_entered].
  rewrite Hhold. repeat split; try reflexivity;
    now apply calculateOptimizationScore_active.
Qed.

End AuditLoops.

(** ** The account summary *)

Section AccountSummaryFacts.
Variable env : Environment.

(** X23. The account summary of a report counts every subscriber as
    active and none as unsubscribed, so its list health score takes two
    values only: 100 when the subscriber total is not zero, and 0 when
    it is. *)
Theorem account_summary_health (e : option Opaque) (gr : option GrowthStats)
        (s : option SubscribersResponse) (t : option TagsResponse)
        (sq : option SequencesResponse) (f : option FormsResponse)
        (c : option CustomFieldsResponse) (w : World) :
  let summary := account_summary (fst (buildAudit env e gr s t sq f c w)) in
  active_subscribers summary = total_subscribers summary
  /\ unsubscribed_count summary = 0%Q
  /\ (~ total_subscribers summary == 0 -> list_health_score summary == 100)
  /\ (total_subscribers summary == 0 -> list_health_score summary == 0).
Proof.
  cbv zeta.
  destruct (buildAudit_sections env e gr s t sq f c w) as [-> _].
  split; [reflexivity|]. split; [reflexivity|].
  cbn [total_subscribers buildAccountSummary].
  split; intros H; rewrite buildAccountSummary_health.
  - destruct (Qeq_bool _ 0) eqn:E; [|reflexivity].
    apply Qeq_bool_iff in E. contradiction.
  - apply Qeq_bool_iff in H. now rewrite H.
Qed.

End AccountSummaryFacts.

(** ** Asking for performance data *)

Section IncludePerformance.
Variable env : Environment.

Lemma counters_await_call (c : ApiCall) (w : World) :
  counters (cache (await_call env c w)) = counters (cache w).
Proof. unfold await_call. cbn. now destruct (sweeps env _). Qed.

Lemma counters_analyzeTags (l : list Tag) :
  forall (acc : list TagUsage) (w : World),
    counters (cache (snd (analyzeTags env l acc w))) = counters (cache w).
Proof.
  induction l as [|tag rest IH]; intros acc w; cbn [analyzeTags];
    [reflexivity|].
  destruct (getTagSubscribers _ _ _); now rewrite IH, counters_await_call.
Qed.

Lemma counters_analyzeSequences (l : list Sequence) :
  forall (acc : list AutomationMetrics) (w : World),
    counters (cache (snd (analyzeSequences env l acc w))) = counters (cache w).
Proof.
  induction l as [|x rest IH]; intros acc w; cbn [analyzeSequences];
    [reflexivity|].
  destruct (getSequenceSubscribers _ _ _); now rewrite IH, counters_await_call.
Qed.

Lemma counters_analyzeForms (l : list Form) :
  forall (acc : list ConversionData) (w : World),
    counters (cache (snd (analyzeForms env l acc w))) = counters (cache w).
Proof.
  induction l as [|x rest IH]; intros acc w; cbn [analyzeForms];
    [reflexivity|].
  destruct (getFormSubscribers _ _ _); now rewrite IH, counters_await_call.
Qed.

Lemma counters_fanOut (w : World) :
  counters (cache (snd (fanOut env w))) = counters (cache w).
Proof. unfold fanOut. cbn [snd]. now rewrite !counters_await_call. Qed.

Lemma counters_audit_of (g : Gathered) (w : World) :
  counters (cache (snd (audit_of env g w))) = counters (cache w).
Proof.
  unfold audit_of, buildAudit, buildSegmentationAnalysis,
    buildAutomationOverview, buildLeadCaptureAnalysis.
  set (l1 := take 20 _).
  pose proof (counters_analyzeTags l1 [] w) as H1.
  destruct (analyzeTags env l1 [] w) as [u w1]. cbn [snd] in H1.
  set (l2 := take 10 _).
  pose proof (counters_analyzeSequences l2 [] w1) as H2.
  destruct (analyzeSequences env l2 [] w1) as [m w2]. cbn [snd] in H2.
  set (l3 := take 10 _).
  pose proof (counters_analyzeForms l3 [] w2) as H3.
  destruct (analyzeForms env l3 [] w2) as [cv w3]. cbn [snd] in *.
  congruence.
Qed.

Lemma counters_setWithStrategy {V} (now : Z) (key : string) (value : V)
      (strategy : ApiCache.Strategy) (c c' : ApiCache.t V) (ok : bool) :
  ApiCache.setWithStrategy now key value strategy c = Returned (ok, c') ->
  counters c' = counters c.
Proof.
  unfold ApiCache.setWithStrategy, ApiCache.set.
  destruct (negb _); [now intros [= _ <-]|].
  destruct (NodeCache.set _ _ _ _ _) as [[success store]|msg]; [|discriminate].
  now intros [= _ <-].
Qed.

(** X24. Asking for performance data goes past the cache.  When
    [params.include_performance] is truthy, [execute] does not read the
    cache at all: whatever is cached, the eight top-level reads are
    made again, and the hit and miss counters stay as they were. *)
Theorem execute_include_performance (params : Params) (w : World) :
  truthy (get_prop params "include_performance") = true ->
  let w' := snd (execute env params w) in
  (exists reads, calls w' = calls w ++ topLevelReads ++ reads)
  /\ counters (cache w') = counters (cache w).
Proof.
  intros Hp. cbv zeta. unfold execute, cache_read. rewrite Hp. cbn [negb].
  pose proof (calls_fanOut env w) as C1.
  pose proof (counters_fanOut w) as K1.
  destruct (fanOut env w) as [g w1]; cbn [snd] in *.
  unfold audit_of in *.
  pose proof (calls_buildAudit env (getResult (g_emailStats g))
                (getResult (g_growthStats g)) (getResult (g_subscribers g))
                (getResult (g_tags g)) (getResult (g_sequences g))
                (getResult (g_forms g)) (getResult (g_customFields g)) w1) as C2.
  pose proof (counters_audit_of g w1) as K2. unfold audit_of in K2.
  destruct (buildAudit env _ _ _ _ _ _ _ w1) as [audit w2]; cbn [snd] in *.
  destruct (ApiCache.setWithStrategy _ _ _ _ _) as [[ok c']|msg] eqn:E;
    cbn [snd with_cache calls cache].
  - split.
    + eexists. rewrite C2, C1. now rewrite <- app_assoc.
    + apply counters_setWithStrategy in E. congruence.
  - split.
    + eexists. rewrite C2, C1. now rewrite <- app_assoc.
    + congruence.
Qed.

End IncludePerformance.

(** A cached report is not served to a caller that asks for performance
    data: the report of a first audit is in the cache, valid, under the
    very key of the second call, and the second call reads remotely all
    the same. *)
Lemma execute_include_performance_witness :
  ApiCache.valid (now audited_world)
                 (generateKey "account_audit" with_performance)
                 (cache audited_world) <> None
  /\ let w' := snd (execute (Fixture.environment Fixture.client)
                            with_performance audited_world) in
     (exists reads,
         calls w' = calls audited_world ++ topLevelReads ++ reads)
     /\ counters (cache w') = counters (cache audited_world).
Proof.
  split; [vm_compute; discriminate|].
  apply (execute_include_performance (Fixture.environment Fixture.client)
           with_performance audited_world).
  reflexivity.
Defined.

(** ** Credentials *)

Section Credentials.
Import KitAuthConfig.

Lemma present_Some (s : option string) :
  present s = true -> exists x, s = Some x /\ present (Some x) = true.
Proof. destruct s as [x|]; [eauto | discriminate]. Qed.

Lemma headers_without_token :
  (<["User-Agent" := "Kit-MCP/1.0.0"]>
     (<["Content-Type" := "application/json"]> (∅ : gmap string string)))
    !! "X-Kit-Api-Key" = None.
Proof.
  rewrite lookup_insert_ne by discriminate.
  rewrite lookup_insert_ne by discriminate.
  apply lookup_empty.
Qed.

(** X25. Credentials travel one way only.  A configuration that passes
    [validateConfig] is in OAuth mode or in API-key mode, never
    ["unknown"].  In OAuth mode the token goes into the [X-Kit-Api-Key]
    header and no request gets a credential parameter, even when an API
    key is configured as well.  In API-key mode no credential header is
    sent and every request carries the key as its [api_key] parameter,
    over whatever [api_key] the caller passed. *)
Theorem credentials_go_one_way (config : AuthConfig)
        (params : gmap string Json) :
  validateConfig config = Returned tt ->
  (getAuthMode config = "oauth"
   /\ getAuthHeaders config !! "X-Kit-Api-Key" = accessToken config
   /\ getAuthParams config = ∅
   /\ interceptedParams config params = params)
  \/ (getAuthMode config = "api_key"
      /\ getAuthHeaders config !! "X-Kit-Api-Key" = None
      /\ getAuthParams config !! "api_key" = apiKey config
      /\ interceptedParams config params !! "api_key"
         = JString <$> apiKey config).
Proof.
  unfold validateConfig, getAuthMode, interceptedParams, isOAuthMode,
    isApiKeyMode.
  destruct (present (accessToken config)) eqn:Ht; cbn [negb andb].
  - intros _. left. split; [reflexivity|].
    destruct (present_Some _ Ht) as (token & Etoken & Hp).
    unfold getAuthHeaders, getAuthParams. rewrite Etoken, Hp.
    split; [apply lookup_insert_eq|].
    split; [|reflexivity].
    destruct (apiKey config) as [key|]; [|reflexivity].
    cbn [negb]. now rewrite andb_false_r.
  - destruct (present (apiKey config)) eqn:Hk; cbn [negb andb];
      [|discriminate].
    intros _. right. split; [reflexivity|].
    destruct (present_Some _ Hk) as (key & Ekey & Hp).
    assert (Hparams : getAuthParams config !! "api_key" = apiKey config).
    { unfold getAuthParams. rewrite Ekey, Hp, Ht. cbn [negb andb].
      destruct (apiSecret config) as [secret|];
        [destruct (present (Some secret))|];
        rewrite ?lookup_insert_ne by discriminate; apply lookup_insert_eq. }
    split; [|split; [exact Hparams|]].
    + unfold getAuthHeaders.
      destruct (accessToken config) as [token|];
        [rewrite Ht|]; apply headers_without_token.
    + rewrite Ekey in *. cbn [fmap option_fmap option_map].
      apply lookup_union_Some_l. rewrite lookup_fmap, Hparams. reflexivity.
Qed.

(** Without a token and without a key the configuration is refused, and
    only then; an empty string counts as missing. *)
Lemma validateConfig_refuses (config : AuthConfig) :
  (exists message, validateConfig config = Thrown message)
  <-> getAuthMode config = "unknown".
Proof.
  unfold validateConfig, getAuthMode, isOAuthMode, isApiKeyMode.
  destruct (present (accessToken config)), (present (apiKey config));
    cbn [negb andb]; split; try discriminate; eauto;
    intros [message H]; discriminate.
Qed.

End Credentials.

Lemma credentials_go_one_way_witness :
  (KitAuthConfig.getAuthMode api_key_config = "oauth"
   /\ KitAuthConfig.getAuthHeaders api_key_config !! "X-Kit-Api-Key"
      = KitAuthConfig.accessToken api_key_config
   /\ KitAuthConfig.getAuthParams api_key_config = ∅
   /\ KitAuthConfig.interceptedParams api_key_config
        (<["api_key" := JString "other"]> ∅)
      = <["api_key" := JString "other"]> ∅)
  \/ (KitAuthConfig.getAuthMode api_key_config = "api_key"
      /\ KitAuthConfig.getAuthHeaders api_key_config !! "X-Kit-Api-Key" = None
      /\ KitAuthConfig.getAuthParams api_key_config !! "api_key"
         = KitAuthConfig.apiKey api_key_config
      /\ KitAuthConfig.interceptedParams api_key_config
           (<["api_key" := JString "other"]> ∅) !! "api_key"
         = JString <$> KitAuthConfig.apiKey api_key_config).
Proof.
  apply (credentials_go_one_way api_key_config
           (<["api_key" := JString "other"]> ∅)).
  reflexivity.
Defined.

(** ** Pagination *)

Section PaginationFacts.
Import Pagination.
Context {T : Type}.

Lemma getAllPages_from_serves (fetchFunction : @FetchPage T)
      (pages : list (Page T)) :
  forall (fuel n : nat) (cursor : option string) (allItems : list T),
    serves fetchFunction n cursor pages ->
    (length pages <= fuel)%nat ->
    getAllPages_from fuel fetchFunction n cursor allItems
    = Some (Fulfilled (allItems ++ concat (List.map items pages)),
            (n + length pages)%nat).
Proof.
  induction pages as [|page rest IH]; intros fuel n cursor allItems Hs Hfuel;
    [destruct Hs|].
  destruct fuel as [|fuel]; [cbn in Hfuel; lia|].
  cbn [serves] in Hs. destruct Hs as [Hfetch Hrest].
  cbn [getAllPages_from]. rewrite Hfetch.
  destruct rest as [|page' rest'].
  - rewrite Hrest. cbn [List.map concat length]. rewrite app_nil_r.
    fold (items page). now replace (n + 1)%nat with (S n) by lia.
  - destruct Hrest as (c & Hc & Hserves). rewrite Hc.
    rewrite (IH fuel (S n) (Some c)); [|exact Hserves|cbn in *; lia].
    fold (items page). cbn [List.map concat]. rewrite <- app_assoc.
    now replace (S n + length (page' :: rest'))%nat
      with (n + length (page :: page' :: rest'))%nat by (cbn; lia).
Qed.

(** X26. [getAllPages] follows the cursors to the end.  When the
    fetch function serves a chain of pages, each handing out the cursor
    of the next, [getAllPages] fetches each page once, in order, stops
    at the first page without a next cursor (no [pagination], no
    [has_next_page], or an [end_cursor] that is missing or empty), and
    returns the items of all the pages in that order. *)
Theorem getAllPages_collects (fetchFunction : @FetchPage T)
        (after : option string) (pages : list (Page T)) (fuel : nat) :
  serves fetchFunction 0 after pages ->
  (length pages <= fuel)%nat ->
  getAllPages fuel fetchFunction after
  = Some (Fulfilled (concat (List.map items pages)), length pages).
Proof.
  intros Hs Hfuel. unfold getAllPages.
  now rewrite (getAllPages_from_serves fetchFunction pages fuel 0 after []).
Qed.

(** X27. [getAllPages] has no page limit and does not notice a cursor
    it has seen before: against a fetch function that always succeeds
    and always hands out a next cursor, it never returns, however many
    fetches it is given. *)
Theorem getAllPages_never_returns (fetchFunction : @FetchPage T)
        (after : option string) :
  (forall n cursor, exists page,
      fetchFunction n cursor = Fulfilled page /\ nextCursor page <> None) ->
  forall fuel, getAllPages fuel fetchFunction after = None.
Proof.
  intros H fuel. unfold getAllPages.
  generalize 0%nat at 1. generalize after. generalize (@nil T).
  induction fuel as [|fuel IH]; intros allItems cursor n; [reflexivity|].
  cbn [getAllPages_from].
  destruct (H n cursor) as (page & -> & Hnext).
  destruct (nextCursor page) as [c|]; [apply IH | congruence].
Qed.

End PaginationFacts.

Lemma getAllPages_collects_witness :
  Pagination.getAllPages 5 two_page_server None
  = Some (Fulfilled (concat (List.map Pagination.items [first_page; last_page])),
          length [first_page; last_page]).
Proof.
  apply (getAllPages_collects two_page_server None [first_page; last_page] 5).
  - cbn. split; [reflexivity|]. exists "c1". repeat split.
  - cbn. lia.
Defined.

Lemma getAllPages_never_returns_witness :
  Pagination.getAllPages 1000 looping_server (Some "c1") = None.
Proof.
  apply (getAllPages_never_returns looping_server (Some "c1")).
  intros n cursor. exists first_page. split; [reflexivity | discriminate].
Defined.

(** ** Scores of forms, tags and custom fields *)

Section Scores.
Local Open Scope Q_scope.

Lemma Math_min_100 (x : Q) :
  (x < 100 -> Math_min 100 x = x) /\ Math_min 100 x <= 100.
Proof.
  unfold Math_min. destruct (Qle_bool 100 x) eqn:E.
  - apply Qle_bool_iff in E. split; [intros H; lra | lra].
  - split; [reflexivity|].
    destruct (Qlt_le_dec x 100) as [H|H]; [lra|].
    apply Qle_bool_iff in H. congruence.
Qed.

(** X28. The subscriber quality score of a form is at most 100, but it
    is neither confined to 0..100 nor increasing in the conversion
    rate: a form without a conversion rate (or with a rate of 0) scores
    50, a form with a rate below 10 scores ten times its rate, so that
    any rate strictly between 0 and 5 scores below a missing one, and a
    negative rate gives a negative score. *)
Theorem calculateSubscriberQualityScore_range (form : Form) :
  calculateSubscriberQualityScore form <= 100
  /\ (num_or (form_conversion_rate form) 0 == 0 ->
      calculateSubscriberQualityScore form = 50)
  /\ (forall rate : Q,
         form_conversion_rate form = Some rate -> ~ rate == 0 -> rate < 10 ->
         calculateSubscriberQualityScore form == 10 * rate
         /\ (rate < 5 -> calculateSubscriberQualityScore form < 50)
         /\ (rate < 0 -> calculateSubscriberQualityScore form < 0)).
Proof.
  unfold calculateSubscriberQualityScore, num_or.
  destruct (form_conversion_rate form) as [r|].
  - destruct (Qeq_bool r 0) eqn:E.
    + split; [lra|]. split; [reflexivity|].
      intros rate [= <-] Hne. apply Qeq_bool_iff in E. contradiction.
    + destruct (Math_min_100 (r * 10)) as [Hlt Hle].
      split; [exact Hle|]. split.
      * intros H. apply Qeq_bool_neq in E. contradiction.
      * intros rate [= <-] _ H10. rewrite Hlt by lra.
        split; [ring|]. split; intros; lra.
  - split; [lra|]. split; [reflexivity|]. discriminate.
Qed.

(** X29. The usage frequency of a tag is a number in (0, 1].  It is 1
    unless the tag was created a whole day or more ago: a creation date
    that does not parse, or that lies in the future, gives the highest
    frequency. *)
Theorem calculateTagUsageFrequency_range (env : Environment) (now : Z)
        (tag : Tag) :
  0 < calculateTagUsageFrequency env now tag <= 1
  /\ (calculateTagUsageFrequency env now tag < 1 ->
      exists days, getDaysSince env now (tag_created_at tag) = Some days
                   /\ (1 < days)%Z)
  /\ (forall days, getDaysSince env now (tag_created_at tag) = Some days ->
                   (0 < days)%Z ->
                   calculateTagUsageFrequency env now tag * inject_Z days == 1).
Proof.
  unfold calculateTagUsageFrequency.
  destruct (getDaysSince env now (tag_created_at tag)) as [d|].
  - destruct (Z.ltb_spec 0 d) as [Hd|Hd].
    + assert (Hq : 0 < inject_Z d)
        by (change 0 with (inject_Z 0); rewrite <- Zlt_Qlt; exact Hd).
      assert (Hone : 1 <= inject_Z d)
        by (change 1 with (inject_Z 1); rewrite <- Zle_Qle; lia).
      assert (Hinv : 0 < / inject_Z d) by now apply Qinv_lt_0_compat.
      assert (Hmul : 1 / inject_Z d * inject_Z d == 1)
        by (field; lra).
      split; [split|split].
      * unfold Qdiv. lra.
      * apply Qle_shift_div_r; [exact Hq | lra].
      * intros Hlt. exists d. split; [reflexivity|].
        destruct (Z.eq_dec d 1%Z) as [->|Hne]; [|lia].
        exfalso. revert Hlt. unfold Qlt. cbn. lia.
      * intros days [= <-] _. exact Hmul.
    + split; [lra|]. split; [lra|]. intros days [= <-] H. lia.
  - split; [lra|]. split; [lra|]. discriminate.
Qed.

End Scores.

Section CustomFields.

Ltac score_cases :=
  repeat match goal with
         | |- context [match ?x with Some _ => _ | None => _ end] => destruct x
         | |- context [if ?b then _ else _] => destruct b
         end; lia.

(** X30. The custom-field analysis has one entry per field, in order.
    Its data quality score lies between 50 and 100 (the cap at 100 never
    bites).  The type it reports is never missing: a field without a
    type is reported as ["text"], but the score is computed from the
    field as received, so such a field scores at most 90 where the same
    field with the type ["text"] spelled out scores 10 more. *)
Theorem buildCustomFieldsAnalysis_entries (customFields : list CustomField) :
  Forall2 (fun field analysis =>
             cf_id (cfa_field analysis) = cf_id field
             /\ cf_name (cfa_field analysis) = cf_name field
             /\ 50 <= data_quality_score analysis <= 100
             /\ (exists type, cf_type (cfa_field analysis) = Some type
                              /\ type <> "")
             /\ (cf_type field = None ->
                 cf_type (cfa_field analysis) = Some "text"
                 /\ data_quality_score analysis <= 90
                 /\ calculateDataQualityScore (cfa_field analysis)
                    = data_quality_score analysis + 10))
          customFields (buildCustomFieldsAnalysis customFields).
Proof.
  induction customFields as [|field rest IH]; [constructor|].
  cbn [buildCustomFieldsAnalysis List.map]. constructor; [|exact IH].
  cbn [cfa_field cf_id cf_name cf_type data_quality_score].
  split; [reflexivity|]. split; [reflexivity|].
  split.
  { unfold calculateDataQualityScore. score_cases. }
  split.
  { exists (type_or_text (cf_type field)). split; [reflexivity|].
    unfold type_or_text. destruct (cf_type field) as [t|]; [|discriminate].
    destruct (String.eqb_spec t ""); [discriminate | assumption]. }
  intros Hnone. unfold calculateDataQualityScore.
  cbn [cf_name cf_key cf_type]. rewrite Hnone. cbn [type_or_text].
  change (String.eqb "text" "text") with true.
  split; [reflexivity|]. split; score_cases.
Qed.

End CustomFields.
